(** * html_banner_scraper.py: asset acquisition pipeline

    A shallow embedding of the URL normaliser, the content validator, the
    asset cache and the fetch / retry layer of [HTMLBannerScraper]
    (scripts/html_banner_scraper.py), with the properties of these
    components stated and proved over the embedding.

    Python values are modelled as follows.
    - [str] is a list of code points ([pystr]); [bytes] is a list of octets
      ([bytes]); both are [list N].
    - a function that can raise returns [outcome]; a [try]/[except] is a
      match on it.
    - [self.asset_cache] is a finite map from [pystr] to [pystr]; the
      [all_assets] dictionary, whose iteration order drives the downloads,
      is an insertion-ordered association list.
    - the network, the file system and the hash function are parameters of
      the sections that need them. *)

From Stdlib Require Import NArith List Bool String Ascii Lia DecimalString.
From stdpp Require Import base option list gmap.

Local Open Scope N_scope.

(** ** Python strings *)

Module PyStr.

Definition pystr := list N.
Definition bytes := list N.

(** String literal of the source as a list of code points. *)
Definition py (s : string) : pystr :=
  List.map N_of_ascii (list_ascii_of_string s).

Definition eqb_str (a b : pystr) : bool := bool_decide (a = b).

(** [s.startswith(p)] *)
Fixpoint startswith (p s : pystr) : bool :=
  match p, s with
  | [], _ => true
  | _ :: _, [] => false
  | a :: p', b :: s' => (a =? b) && startswith p' s'
  end.

(** [s.startswith((p1, p2, ...))] *)
Definition startswith_any (ps : list pystr) (s : pystr) : bool :=
  existsb (fun p => startswith p s) ps.

(** [s.endswith(p)] *)
Definition endswith (p s : pystr) : bool :=
  startswith (rev p) (rev s).

(** [sub in s] *)
Fixpoint contains (sub s : pystr) : bool :=
  startswith sub s ||
  match s with
  | [] => false
  | _ :: s' => contains sub s'
  end.

(** [c in s] for a single character. *)
Definition has_char (c : N) (s : pystr) : bool := existsb (N.eqb c) s.

(** [s[i:j]] for [0 <= i <= j]. *)
Definition slice {A} (i j : nat) (l : list A) : list A :=
  take (j - i) (drop i l).

(** [bytes.lower()]: ASCII capitals only. *)
Definition ascii_lower_char (c : N) : N :=
  if (65 <=? c) && (c <=? 90) then c + 32 else c.

Definition bytes_lower (b : bytes) : bytes := List.map ascii_lower_char b.

(** [str.lower()].  ASCII capitals are mapped to small letters.  Two code
    points outside ASCII have a lower-case form that contains an ASCII
    letter: U+0130 (to "i" followed by U+0307) and U+212A (to "k").  Every
    other cased code point has a lower-case form outside ASCII; such code
    points are kept as they are, which gives the same answer to every
    search for an ASCII literal, the only use the source makes of
    [lower()]. *)
Definition lower_char (c : N) : pystr :=
  if (65 <=? c) && (c <=? 90) then [c + 32]
  else if c =? 0x130 then [0x69; 0x307]
  else if c =? 0x212A then [0x6B]
  else [c].

Definition lower (s : pystr) : pystr := flat_map lower_char s.

(** [str.isspace()] for one code point. *)
Definition is_space (c : N) : bool :=
  ((9 <=? c) && (c <=? 13)) || ((28 <=? c) && (c <=? 32)) ||
  (c =? 0x85) || (c =? 0xA0) || (c =? 0x1680) ||
  ((0x2000 <=? c) && (c <=? 0x200A)) ||
  (c =? 0x2028) || (c =? 0x2029) || (c =? 0x202F) || (c =? 0x205F) ||
  (c =? 0x3000).

Fixpoint lstrip_with (f : N -> bool) (s : pystr) : pystr :=
  match s with
  | [] => []
  | c :: s' => if f c then lstrip_with f s' else s
  end.

Definition rstrip_with (f : N -> bool) (s : pystr) : pystr :=
  rev (lstrip_with f (rev s)).

(** [s.strip()] *)
Definition strip (s : pystr) : pystr :=
  rstrip_with is_space (lstrip_with is_space s).

End PyStr.

Export PyStr.

(** ** Results of calls that can raise *)

Inductive outcome (A : Type) : Type :=
| Returns (a : A)
| Raises.

Arguments Returns {A} a.
Arguments Raises {A}.

(** ** UTF-8, as CPython's codec decodes and encodes it *)

Module Utf8.

Definition is_cont (b : N) : bool := (0x80 <=? b) && (b <? 0xC0).

(** Second byte of a three-byte sequence: E0 needs A0..BF, ED needs 80..9F. *)
Definition second3_ok (b0 b1 : N) : bool :=
  is_cont b1 && negb (if b1 <? 0xA0 then b0 =? 0xE0 else b0 =? 0xED).

(** Second byte of a four-byte sequence: F0 needs 90..BF, F4 needs 80..8F. *)
Definition second4_ok (b0 b1 : N) : bool :=
  is_cont b1 && negb (if b1 <? 0x90 then b0 =? 0xF0 else b0 =? 0xF4).

(** One step of the decoder per element of the result: [Some c] for a
    decoded code point, [None] for one decoding error.  An error covers the
    longest prefix of the ill-formed sequence that could start a well-formed
    one, and decoding resumes right after it. *)
Fixpoint scan (bs : bytes) : list (option N) :=
  match bs with
  | [] => []
  | b0 :: r0 =>
    if b0 <? 0x80 then Some b0 :: scan r0
    else if b0 <? 0xC2 then None :: scan r0
    else if b0 <? 0xE0 then
      match r0 with
      | [] => [None]
      | b1 :: r1 =>
        if is_cont b1
        then Some ((b0 - 0xC0) * 64 + (b1 - 0x80)) :: scan r1
        else None :: scan r0
      end
    else if b0 <? 0xF0 then
      match r0 with
      | [] => [None]
      | b1 :: r1 =>
        if second3_ok b0 b1 then
          match r1 with
          | [] => [None]
          | b2 :: r2 =>
            if is_cont b2
            then Some ((b0 - 0xE0) * 4096 + (b1 - 0x80) * 64 + (b2 - 0x80))
                   :: scan r2
            else None :: scan r1
          end
        else None :: scan r0
      end
    else if b0 <? 0xF5 then
      match r0 with
      | [] => [None]
      | b1 :: r1 =>
        if second4_ok b0 b1 then
          match r1 with
          | [] => [None]
          | b2 :: r2 =>
            if is_cont b2 then
              match r2 with
              | [] => [None]
              | b3 :: r3 =>
                if is_cont b3
                then Some ((b0 - 0xF0) * 262144 + (b1 - 0x80) * 4096
                           + (b2 - 0x80) * 64 + (b3 - 0x80)) :: scan r3
                else None :: scan r2
              end
            else None :: scan r1
          end
        else None :: scan r0
      end
    else None :: scan r0
  end.

(** [bs.decode('utf-8', errors='replace')] *)
Definition decode_replace (bs : bytes) : pystr :=
  List.map (fun o => match o with Some c => c | None => 0xFFFD end) (scan bs).

(** [bs.decode('utf-8', errors='ignore')] *)
Definition decode_ignore (bs : bytes) : pystr :=
  flat_map (fun o => match o with Some c => [c] | None => [] end) (scan bs).

(** [bs.decode('utf-8')]: raises [UnicodeDecodeError] on the first error. *)
Definition decode_strict (bs : bytes) : outcome pystr :=
  if forallb (fun o => match o with Some _ => true | None => false end) (scan bs)
  then Returns (decode_replace bs)
  else Raises.

(** UTF-8 form of one code point; surrogates cannot be encoded. *)
Definition encode_char (c : N) : option bytes :=
  if c <? 0x80 then Some [c]
  else if c <? 0x800 then Some [0xC0 + c / 64; 0x80 + c mod 64]
  else if (0xD800 <=? c) && (c <? 0xE000) then None
  else if c <? 0x10000 then
    Some [0xE0 + c / 4096; 0x80 + (c / 64) mod 64; 0x80 + c mod 64]
  else if c <? 0x110000 then
    Some [0xF0 + c / 262144; 0x80 + (c / 4096) mod 64;
          0x80 + (c / 64) mod 64; 0x80 + c mod 64]
  else None.

(** [s.encode('utf-8')] with the default [errors='strict']. *)
Fixpoint encode (s : pystr) : outcome bytes :=
  match s with
  | [] => Returns []
  | c :: s' =>
    match encode_char c, encode s' with
    | Some b, Returns bs => Returns (b ++ bs)
    | _, _ => Raises
    end
  end.

End Utf8.

(** ** Content validator *)

Module Validator.

(** The categories returned by [_get_expected_content_type]. *)
Inductive expected_type : Type :=
| Image | Css | Javascript | Font | Text | Other.

(** [_validate_by_magic_bytes].  The only expression that can raise is
    [struct.unpack('<L', content[34:38])], which needs exactly four bytes:
    a font candidate of 35 to 37 bytes without a WOFF/TTF/OTF signature
    raises [struct.error]. *)
Definition validate_by_magic_bytes (content : bytes) (ty : expected_type)
  : outcome bool :=
  if (length content <? 4)%nat then Returns false
  else match ty with
  | Image =>
    Returns (
      eqb_str (slice 0 2 content) [0xFF; 0xD8]
      || eqb_str (slice 0 8 content) [0x89; 0x50; 0x4E; 0x47; 0x0D; 0x0A; 0x1A; 0x0A]
      || eqb_str (slice 0 6 content) (py "GIF87a")
      || eqb_str (slice 0 6 content) (py "GIF89a")
      || (eqb_str (slice 0 4 content) (py "RIFF")
          && eqb_str (slice 8 12 content) (py "WEBP"))
      || eqb_str (slice 0 2 content) (py "BM")
      || eqb_str (slice 0 4 content) [0; 0; 1; 0]
      || contains (py "<svg") (bytes_lower (slice 0 200 content)))
  | Font =>
    if eqb_str (slice 0 4 content) (py "wOFF") then Returns true
    else if eqb_str (slice 0 4 content) (py "wOF2") then Returns true
    else if eqb_str (slice 0 4 content) [0; 1; 0; 0]
         || eqb_str (slice 0 4 content) (py "OTTO")
         || eqb_str (slice 0 4 content) (py "true")
         || eqb_str (slice 0 4 content) (py "typ1") then Returns true
    else if (34 <? length content)%nat then
      match slice 34 38 content with
      | [a; b; c; d] =>
        (* little-endian unsigned long compared with 0x504C *)
        Returns (a + 256 * b + 65536 * c + 16777216 * d =? 0x504C)
      | _ => Raises
      end
    else Returns false
  | _ => Returns false
  end.

(** [_validate_by_content_type_header] *)
Definition validate_by_content_type_header (header : pystr) (ty : expected_type)
  : bool :=
  match header with
  | [] => false
  | _ =>
    let content_type_lower := lower header in
    let any_in := existsb (fun t => contains (py t) content_type_lower) in
    match ty with
    | Image =>
      any_in ["image/jpeg"; "image/png"; "image/gif"; "image/svg"; "image/webp";
              "image/bmp"; "image/x-icon"; "image/vnd.microsoft.icon"]%string
    | Css => contains (py "text/css") content_type_lower
    | Javascript =>
      any_in ["application/javascript"; "application/x-javascript";
              "text/javascript"]%string
    | Font =>
      any_in ["font/"; "application/font"; "application/x-font";
              "application/vnd.ms-fontobject"]%string
    | Text => any_in ["text/"; "application/json"; "application/xml"]%string
    | Other => false
    end
  end.

(** [_validate_text_content].  Its own [try] turns every exception into
    [False]; none of the calls on the path can raise except the strict
    decode of the [text] branch, which is caught where it stands. *)
Definition validate_text_content (content : bytes) (ty : expected_type) : bool :=
  let text_content := take 1000 (Utf8.decode_ignore content) in
  let text_lower := strip (lower text_content) in
  let any_in := existsb (fun t => contains (py t) text_lower) in
  match ty with
  | Css =>
    any_in ["{"; "}"; ":"; ";"; "@media"; "@import"; "@font-face";
            "px"; "em"; "%"]%string
  | Javascript =>
    any_in ["function"; "var "; "let "; "const "; "=>"; "window.";
            "document."; "console."]%string
  | Text =>
    match Utf8.decode_strict content with
    | Returns _ => true
    | Raises => false
    end
  | _ => false
  end.

Definition text_like (ty : expected_type) : bool :=
  match ty with
  | Css | Javascript | Text => true
  | _ => false
  end.

(** [_validate_content_type] *)
Definition validate_content_type (content : bytes) (ty : expected_type)
    (content_type_header : pystr) : bool :=
  match content with
  | [] => false
  | _ =>
    match validate_by_magic_bytes content ty with
    | Raises => true                 (* except Exception: be permissive *)
    | Returns true => true
    | Returns false =>
      if validate_by_content_type_header content_type_header ty then true
      else if text_like ty && validate_text_content content ty then true
      else false
    end
  end.

(** The three checks of the validator, in the order they are tried. *)
Definition some_check_succeeds (content : bytes) (ty : expected_type)
    (content_type_header : pystr) : Prop :=
  validate_by_magic_bytes content ty = Returns true
  \/ validate_by_content_type_header content_type_header ty = true
  \/ (text_like ty = true /\ validate_text_content content ty = true).

(** The validation raised: the first check is the only one that can. *)
Definition validation_raises (content : bytes) (ty : expected_type) : Prop :=
  validate_by_magic_bytes content ty = Raises.

End Validator.

(** ** urllib.parse (CPython 3.11), the part the scraper calls *)

Module Urllib.

Definition c_tab : N := 9.
Definition c_lf : N := 10.
Definition c_cr : N := 13.
Definition c_hash : N := Eval cbv in N_of_ascii "#".
Definition c_percent : N := Eval cbv in N_of_ascii "%".
Definition c_slash : N := Eval cbv in N_of_ascii "/".
Definition c_colon : N := Eval cbv in N_of_ascii ":".
Definition c_semi : N := Eval cbv in N_of_ascii ";".
Definition c_quest : N := Eval cbv in N_of_ascii "?".
Definition c_dot : N := Eval cbv in N_of_ascii ".".
Definition c_dquote : N := 34.

(** Longest prefix without a character satisfying [f], and the rest (which
    is empty or starts with such a character): the split that [str.find]
    followed by two slices computes. *)
Fixpoint break_at (f : N -> bool) (s : pystr) : pystr * pystr :=
  match s with
  | [] => ([], [])
  | c :: s' =>
    if f c then ([], s)
    else let '(a, b) := break_at f s' in (c :: a, b)
  end.

(** [s.split(sep)] for a one-character separator. *)
Fixpoint split_all (sep : N) (s : pystr) : list pystr :=
  match s with
  | [] => [[]]
  | c :: s' =>
    if c =? sep then [] :: split_all sep s'
    else match split_all sep s' with
         | [] => [[c]]
         | p :: ps => (c :: p) :: ps
         end
  end.

(** [sep.join(parts)] *)
Fixpoint join (sep : pystr) (parts : list pystr) : pystr :=
  match parts with
  | [] => []
  | [p] => p
  | p :: ps => p ++ sep ++ join sep ps
  end.

Definition is_ascii_alpha (c : N) : bool :=
  ((65 <=? c) && (c <=? 90)) || ((97 <=? c) && (c <=? 122)).

Definition is_digit (c : N) : bool := (48 <=? c) && (c <=? 57).

(** [scheme_chars] *)
Definition scheme_char (c : N) : bool :=
  is_ascii_alpha c || is_digit c || (c =? 43) || (c =? 45) || (c =? 46).

Definition in_list (s : pystr) (l : list string) : bool :=
  existsb (fun t => eqb_str s (py t)) l.

Definition uses_relative (scheme : pystr) : bool :=
  in_list scheme [EmptyString; "ftp"; "http"; "gopher"; "nntp"; "imap"; "wais"; "file";
                  "https"; "shttp"; "mms"; "prospero"; "rtsp"; "rtspu"; "sftp";
                  "svn"; "svn+ssh"; "ws"; "wss"]%string.

Definition uses_netloc (scheme : pystr) : bool :=
  in_list scheme [EmptyString; "ftp"; "http"; "gopher"; "nntp"; "telnet"; "imap"; "wais";
                  "file"; "mms"; "https"; "shttp"; "snews"; "prospero"; "rtsp";
                  "rtspu"; "rsync"; "svn"; "svn+ssh"; "sftp"; "nfs"; "git";
                  "git+ssh"; "ws"; "wss"]%string.

Definition uses_params (scheme : pystr) : bool :=
  in_list scheme [EmptyString; "ftp"; "hdl"; "prospero"; "http"; "imap"; "https";
                  "shttp"; "rtsp"; "rtspu"; "sip"; "sips"; "mms"; "sftp";
                  "tel"]%string.

(** [_WHATWG_C0_CONTROL_OR_SPACE] and [_UNSAFE_URL_BYTES_TO_REMOVE] *)
Definition c0_control_or_space (c : N) : bool := c <=? 32.
Definition unsafe_url_byte (c : N) : bool :=
  (c =? c_tab) || (c =? c_cr) || (c =? c_lf).

Definition remove_unsafe (s : pystr) : pystr :=
  List.filter (fun c => negb (unsafe_url_byte c)) s.

Record ParseResult : Type := mkParse {
  scheme : pystr;
  netloc : pystr;
  path : pystr;
  params : pystr;
  query : pystr;
  fragment : pystr
}.

(** Split at the first [c]: [(s, None)] when [c] does not occur. *)
Definition split_first (c : N) (s : pystr) : pystr * option pystr :=
  match break_at (N.eqb c) s with
  | (a, _ :: b) => (a, Some b)
  | (a, []) => (a, None)
  end.

(** [url.split(c, 1)] when [c] occurs, the whole string and [''] otherwise *)
Definition split_once (c : N) (s : pystr) : pystr * pystr :=
  match split_first c s with
  | (u, Some f) => (u, f)
  | (u, None) => (u, [])
  end.

(** The scheme of [urlsplit]: what precedes the first colon, if it starts
    with an ASCII letter and is made of [scheme_chars]; lower-cased. *)
Definition split_scheme (url default_scheme : pystr) : pystr * pystr :=
  match break_at (N.eqb c_colon) url with
  | (c0 :: pre, _ :: rest) =>
    if is_ascii_alpha c0 && forallb scheme_char (c0 :: pre)
    then (lower (c0 :: pre), rest)
    else (default_scheme, url)
  | _ => (default_scheme, url)
  end.

(** [_splitnetloc(url, 2)] *)
Definition splitnetloc (url : pystr) : pystr * pystr :=
  break_at (fun c => (c =? c_slash) || (c =? c_quest) || (c =? c_hash))
           (drop 2 url).

Section Parse.

(** The checks of [urlsplit] on a non-empty network location that raise
    [ValueError]: brackets that do not pair up, a bracketed host that is
    not an IP literal, and characters that NFKC-normalise to a delimiter
    ([_check_bracketed_host], [_checknetloc]). *)
Variable netloc_rejected : pystr -> bool.

(** [urlsplit(url, scheme)]; the result has an empty [params]. *)
Definition urlsplit (url default_scheme : pystr) : outcome ParseResult :=
  let url := remove_unsafe (lstrip_with c0_control_or_space url) in
  let default_scheme :=
    remove_unsafe
      (rstrip_with c0_control_or_space
         (lstrip_with c0_control_or_space default_scheme)) in
  let '(scheme, url) := split_scheme url default_scheme in
  let '(netloc, url) :=
    if eqb_str (take 2 url) [c_slash; c_slash] then splitnetloc url
    else ([], url) in
  if negb (bool_decide (netloc = [])) && netloc_rejected netloc then Raises
  else
    let '(url, fragment) := split_once c_hash url in
    let '(url, query) := split_once c_quest url in
    Returns (mkParse scheme netloc url [] query fragment).

(** [_splitparams]: the parameters follow the first [;] of the last path
    segment. *)
Definition splitparams (url : pystr) : pystr * pystr :=
  let '(rlast, rhead) := break_at (N.eqb c_slash) (rev url) in
  let head := rev rhead in
  let last := rev rlast in
  match split_first c_semi last with
  | (a, Some p) => (head ++ a, p)
  | (_, None) => (url, [])
  end.

(** [urlparse(url, scheme)] *)
Definition urlparse (url default_scheme : pystr) : outcome ParseResult :=
  match urlsplit url default_scheme with
  | Raises => Raises
  | Returns r =>
    if uses_params (scheme r) && has_char c_semi (path r) then
      let '(p, ps) := splitparams (path r) in
      Returns (mkParse (scheme r) (netloc r) p ps (query r) (fragment r))
    else Returns r
  end.

End Parse.

(** [urlunsplit((scheme, netloc, url, query, fragment))] *)
Definition urlunsplit (scheme netloc url query fragment : pystr) : pystr :=
  let url :=
    if negb (bool_decide (netloc = []))
       || (negb (bool_decide (scheme = [])) && uses_netloc scheme
           && negb (eqb_str (take 2 url) [c_slash; c_slash]))
    then
      let url :=
        if negb (bool_decide (url = [])) && negb (eqb_str (take 1 url) [c_slash])
        then c_slash :: url else url in
      [c_slash; c_slash] ++ netloc ++ url
    else url in
  let url := if bool_decide (scheme = []) then url else scheme ++ c_colon :: url in
  let url := if bool_decide (query = []) then url else url ++ c_quest :: query in
  let url := if bool_decide (fragment = []) then url else url ++ c_hash :: fragment in
  url.

(** [urlunparse((scheme, netloc, url, params, query, fragment))] *)
Definition urlunparse (r : ParseResult) : pystr :=
  let url :=
    if bool_decide (params r = []) then path r
    else path r ++ c_semi :: params r in
  urlunsplit (scheme r) (netloc r) url (query r) (fragment r).

(** The loop of [urljoin] over the segments: [..] pops, [.] is skipped. *)
Fixpoint resolve_segments (segments : list pystr) (resolved : list pystr)
  : list pystr :=
  match segments with
  | [] => resolved
  | seg :: rest =>
    if eqb_str seg [c_dot; c_dot]
    then resolve_segments rest (removelast resolved)
    else if eqb_str seg [c_dot] then resolve_segments rest resolved
    else resolve_segments rest (resolved ++ [seg])
  end.

(** [segments[1:-1] = filter(None, segments[1:-1])] *)
Definition filter_middle (segments : list pystr) : list pystr :=
  match segments with
  | [] => []
  | first :: rest =>
    match rev rest with
    | [] => [first]
    | last :: rmid =>
      first :: List.filter (fun s => negb (bool_decide (s = []))) (rev rmid)
        ++ [last]
    end
  end.

Section Join.

Variable netloc_rejected : pystr -> bool.

(** [urljoin(base, url)] *)
Definition urljoin (base url : pystr) : outcome pystr :=
  match base, url with
  | [], _ => Returns url
  | _, [] => Returns base
  | _, _ =>
    match urlparse netloc_rejected base [] with
    | Raises => Raises
    | Returns b =>
      match urlparse netloc_rejected url (scheme b) with
      | Raises => Raises
      | Returns u =>
        if negb (eqb_str (scheme u) (scheme b)) || negb (uses_relative (scheme u))
        then Returns url
        else if uses_netloc (scheme u) && negb (bool_decide (netloc u = []))
        then Returns (urlunparse u)
        else
          let netloc' := if uses_netloc (scheme u) then netloc b else netloc u in
          if bool_decide (path u = []) && bool_decide (params u = []) then
            let query' :=
              if bool_decide (query u = []) then query b else query u in
            Returns (urlunparse
                       (mkParse (scheme u) netloc' (path b) (params b) query'
                                (fragment u)))
          else
            let base_parts := split_all c_slash (path b) in
            let base_parts :=
              if bool_decide (last base_parts = Some [])
              then base_parts else removelast base_parts in
            let segments :=
              if eqb_str (take 1 (path u)) [c_slash]
              then split_all c_slash (path u)
              else filter_middle (base_parts ++ split_all c_slash (path u)) in
            let resolved := resolve_segments segments [] in
            let resolved :=
              if bool_decide (last segments = Some [c_dot])
                 || bool_decide (last segments = Some [c_dot; c_dot])
              then resolved ++ [[]] else resolved in
            let joined := join [c_slash] resolved in
            Returns (urlunparse
                       (mkParse (scheme u) netloc'
                                (if bool_decide (joined = []) then [c_slash] else joined)
                                (params u) (query u) (fragment u)))
      end
    end
  end.

End Join.

Definition hexval (c : N) : option N :=
  if is_digit c then Some (c - 48)
  else if (65 <=? c) && (c <=? 70) then Some (c - 55)
  else if (97 <=? c) && (c <=? 102) then Some (c - 87)
  else None.

(** [unquote_to_bytes] on a run of ASCII characters: [%XX] with two
    hexadecimal digits is one byte, any other [%] stays. *)
Fixpoint unquote_to_bytes (s : bytes) : bytes :=
  match s with
  | [] => []
  | c :: r =>
    if c =? c_percent then
      match r with
      | h1 :: h2 :: r' =>
        match hexval h1, hexval h2 with
        | Some a, Some b => (16 * a + b) :: unquote_to_bytes r'
        | _, _ => c :: unquote_to_bytes r
        end
      | _ => c :: unquote_to_bytes r
      end
    else c :: unquote_to_bytes r
  end.

(** The body of [unquote]: every maximal run of ASCII characters ([run],
    collected so far) is percent-decoded and read as UTF-8 with
    [errors='replace']; the other characters are copied. *)
Fixpoint unquote_runs (s : pystr) (run : bytes) : pystr :=
  match s with
  | [] => Utf8.decode_replace (unquote_to_bytes run)
  | c :: r =>
    if c <? 128 then unquote_runs r (run ++ [c])
    else Utf8.decode_replace (unquote_to_bytes run) ++ c :: unquote_runs r []
  end.

(** [unquote(string)] *)
Definition unquote (s : pystr) : pystr :=
  if has_char c_percent s then unquote_runs s [] else s.

(** [_ALWAYS_SAFE] *)
Definition always_safe (c : N) : bool :=
  is_ascii_alpha c || is_digit c
  || (c =? 95) || (c =? 46) || (c =? 45) || (c =? 126).

Definition hexdigit (n : N) : N := if n <? 10 then 48 + n else 55 + n.

(** [quote_from_bytes(bs, safe)] *)
Definition quote_from_bytes (bs : bytes) (safe : pystr) : pystr :=
  flat_map (fun b =>
              if always_safe b || has_char b safe then [b]
              else [c_percent; hexdigit (b / 16); hexdigit (b mod 16)]) bs.

(** [quote(string, safe)]: raises [UnicodeEncodeError] on a lone surrogate. *)
Definition quote (s safe : pystr) : outcome pystr :=
  match Utf8.encode s with
  | Raises => Raises
  | Returns bs => Returns (quote_from_bytes bs safe)
  end.

End Urllib.

(** ** The network locations that urlsplit refuses

    [urlsplit] raises [ValueError] for a network location whose brackets
    do not pair up, for one whose bracketed host is not an IPv6 or an
    IPvFuture literal ([_check_bracketed_netloc], which asks the
    [ipaddress] module) and for one that holds a character whose NFKC
    form contains a delimiter ([_checknetloc]).  The functions of the
    scraper take this test as a parameter; [Netloc.rejected] is the test
    itself, for the closed examples. *)

Module Netloc.

Import Urllib.

Definition c_at : N := Eval cbv in N_of_ascii "@".
Definition c_lbracket : N := Eval cbv in N_of_ascii "[".
Definition c_rbracket : N := Eval cbv in N_of_ascii "]".
Definition c_v : N := Eval cbv in N_of_ascii "v".
Definition c_zero : N := Eval cbv in N_of_ascii "0".

(** [int(s, 10)] for a string of ASCII digits. *)
Definition decimal (s : pystr) : N :=
  fold_left (fun n c => 10 * n + (c - c_zero)) s 0.

(** [IPv4Address._parse_octet(octet_str)]; [None] for [ValueError]. *)
Definition parse_octet (octet_str : pystr) : option N :=
  match octet_str with
  | [] => None
  | c0 :: _ =>
    if negb (forallb is_digit octet_str) then None
    else if (3 <? length octet_str)%nat then None
    else if negb (eqb_str octet_str [c_zero]) && (c0 =? c_zero) then None
    else
      let octet_int := decimal octet_str in
      if 255 <? octet_int then None else Some octet_int
  end.

(** [IPv4Address(address)._ip]; [None] for [AddressValueError]. *)
Definition ipv4_address (address : pystr) : option N :=
  if has_char c_slash address then None
  else if eqb_str address [] then None
  else
    match List.map parse_octet (split_all c_dot address) with
    | [Some a; Some b; Some c; Some d] =>
      Some (((a * 256 + b) * 256 + c) * 256 + d)
    | _ => None
    end.

(** ['%x' % n] for [n < 65536]. *)
Definition hex_digit (n : N) : N := if n <? 10 then 48 + n else 87 + n.

Definition format_x (n : N) : pystr :=
  lstrip_with (N.eqb c_zero)
    (List.map (fun k => hex_digit ((n / k) mod 16)) [4096; 256; 16])
  ++ [hex_digit (n mod 16)].

(** [_HEX_DIGITS] *)
Definition is_hex_digit (c : N) : bool :=
  match hexval c with
  | Some _ => true
  | None => false
  end.

(** [IPv6Address._parse_hextet(hextet_str)] returns: [int('', 16)]
    raises as well. *)
Definition parse_hextet (hextet_str : pystr) : bool :=
  forallb is_hex_digit hextet_str
  && (length hextet_str <=? 4)%nat
  && negb (eqb_str hextet_str []).

(** The indices [i] of [range(1, len(parts) - 1)] with an empty
    [parts[i]]. *)
Definition empty_inner_parts (parts : list pystr) : list nat :=
  List.filter
    (fun i => (1 <=? i)%nat && (i + 1 <? length parts)%nat
              && eqb_str (nth i parts [c_zero]) [])
    (seq 0 (length parts)).

(** [IPv6Address._ip_int_from_string(ip_str)] returns. *)
Definition ipv6_int_from_string (ip_str : pystr) : bool :=
  if eqb_str ip_str [] then false
  else
    let parts := split_all c_colon ip_str in
    if (length parts <? 3)%nat then false
    else
      let with_suffix :=
        if has_char c_dot (List.last parts [])
        then
          match ipv4_address (List.last parts []) with
          | Some ipv4_int =>
            Some (removelast parts
                  ++ [format_x ((ipv4_int / 65536) mod 65536);
                      format_x (ipv4_int mod 65536)])
          | None => None
          end
        else Some parts in
      match with_suffix with
      | None => false
      | Some parts =>
        if (9 <? length parts)%nat then false
        else
          let first_empty := eqb_str (nth 0 parts []) [] in
          let last_empty := eqb_str (List.last parts []) [] in
          match empty_inner_parts parts with
          | _ :: _ :: _ => false
          | [skip_index] =>
            let parts_hi :=
              (if first_empty then skip_index - 1 else skip_index)%nat in
            let parts_lo :=
              (if last_empty then length parts - skip_index - 1 - 1
               else length parts - skip_index - 1)%nat in
            if first_empty && negb (parts_hi =? 0)%nat then false
            else if last_empty && negb (parts_lo =? 0)%nat then false
            else if (8 <=? parts_hi + parts_lo)%nat then false
            else
              forallb parse_hextet (take parts_hi parts)
              && forallb parse_hextet (drop (length parts - parts_lo) parts)
          | [] =>
            if negb (length parts =? 8)%nat then false
            else if first_empty then false
            else if last_empty then false
            else forallb parse_hextet parts
          end
      end.

(** [IPv6Address(address)] returns; the scope follows a [%]. *)
Definition ipv6_address (address : pystr) : bool :=
  if has_char c_slash address then false
  else
    match split_first c_percent address with
    | (addr, None) => ipv6_int_from_string addr
    | (addr, Some scope_id) =>
      if eqb_str scope_id [] || has_char c_percent scope_id then false
      else ipv6_int_from_string addr
    end.

(** The pattern [\Av[a-fA-F0-9]+\..+\Z] of [_check_bracketed_host]
    matches, for what follows the [v]: hexadecimal digits, a dot, and at
    least one more character, none a line feed. *)
Definition ipvfuture (rest : pystr) : bool :=
  match break_at (fun c => negb (is_hex_digit c)) rest with
  | (_ :: _, c :: more) =>
    (c =? c_dot) && negb (eqb_str more []) && negb (has_char c_lf more)
  | _ => false
  end.

(** [_check_bracketed_host(hostname)] raises. *)
Definition check_bracketed_host (hostname : pystr) : bool :=
  if startswith [c_v] hostname then negb (ipvfuture (drop 1 hostname))
  else
    match ipv4_address hostname with
    | Some _ => true
    | None => negb (ipv6_address hostname)
    end.

(** [_check_bracketed_netloc(netloc)] raises. *)
Definition check_bracketed_netloc (netloc : pystr) : bool :=
  let hostname_and_port := List.last (split_all c_at netloc) [] in
  match split_first c_lbracket hostname_and_port with
  | (before_bracket, Some bracketed) =>
    if negb (eqb_str before_bracket []) then true
    else
      let '(hostname, port) := split_once c_rbracket bracketed in
      if negb (eqb_str port []) && negb (startswith [c_colon] port) then true
      else check_bracketed_host hostname
  | (_, None) =>
    check_bracketed_host (fst (split_once c_colon hostname_and_port))
  end.

(** [_checknetloc(netloc)] raises: some character of the network location
    has an NFKC form with one of [/?#@:] in it.  These are the code points
    that do, in the Unicode data of CPython 3.11. *)
Definition nfkc_has_delimiter (c : N) : bool :=
  existsb (N.eqb c)
    [0x2047; 0x2048; 0x2049; 0x2100; 0x2101; 0x2105; 0x2106; 0x2A74;
     0xFE13; 0xFE16; 0xFE55; 0xFE56; 0xFE5F; 0xFE6B; 0xFF03; 0xFF0F;
     0xFF1A; 0xFF1F; 0xFF20].

Definition checknetloc (netloc : pystr) : bool :=
  existsb nfkc_has_delimiter netloc.

(** [urlsplit] raises for a URL with this network location. *)
Definition rejected (netloc : pystr) : bool :=
  let opening := has_char c_lbracket netloc in
  let closing := has_char c_rbracket netloc in
  xorb opening closing
  || (opening && closing && check_bracketed_netloc netloc)
  || checknetloc netloc.

End Netloc.


(** ** The scraper: URL normaliser, classifier, file names *)

Module Url.

Import Urllib.

Section Normalize.

Variable netloc_rejected : pystr -> bool.

(** [url.startswith(('data:', 'javascript:', '#'))], or the empty string *)
Definition non_fetchable (url : pystr) : bool :=
  bool_decide (url = [])
  || startswith_any [py "data:"; py "javascript:"; py "#"] url.

Definition is_absolute (url : pystr) : bool :=
  startswith_any [py "http://"; py "https://"] url.

(** [while decoded != previous: previous = decoded; decoded = unquote(decoded)].
    A pass that changes the string shortens it, so [length s] passes and one
    more reach the fixed point ([decode_repeatedly_fixed] below). *)
Fixpoint unquote_loop (fuel : nat) (s : pystr) : pystr :=
  match fuel with
  | O => s
  | S fuel' =>
    let d := unquote s in
    if eqb_str d s then s else unquote_loop fuel' d
  end.

Definition decode_repeatedly (s : pystr) : pystr :=
  unquote_loop (S (length s)) s.

(** One path segment: empty segments are kept, the others are decoded to
    the fixed point and quoted with [safe='-._~']. *)
Definition encode_part (part : pystr) : outcome pystr :=
  match part with
  | [] => Returns []
  | _ => quote (decode_repeatedly part) (py "-._~")
  end.

Fixpoint encode_parts (parts : list pystr) : outcome (list pystr) :=
  match parts with
  | [] => Returns []
  | p :: ps =>
    match encode_part p, encode_parts ps with
    | Returns e, Returns es => Returns (e :: es)
    | _, _ => Raises
    end
  end.

Definition encode_path (path : pystr) : outcome pystr :=
  match encode_parts (split_all c_slash path) with
  | Returns es => Returns (join [c_slash] es)
  | Raises => Raises
  end.

(** ['fonts.googleapis.com' in parsed.netloc.lower()] *)
Definition is_google_fonts (netloc : pystr) : bool :=
  contains (py "fonts.googleapis.com") (lower netloc).

Definition encode_query (netloc query : pystr) : outcome pystr :=
  match query with
  | [] => Returns []
  | _ =>
    if is_google_fonts netloc then Returns (decode_repeatedly query)
    else quote (unquote query) (py "=&")
  end.

(** The part of [_normalize_url] after the reference is resolved. *)
Definition normalize_full (full_url : pystr) : outcome pystr :=
  match urlparse netloc_rejected full_url [] with
  | Raises => Raises
  | Returns parsed =>
    match encode_path (path parsed) with
    | Raises => Raises
    | Returns encoded_path =>
      match encode_query (netloc parsed) (query parsed) with
      | Raises => Raises
      | Returns encoded_query =>
        Returns (urlunparse
                   (mkParse (scheme parsed) (netloc parsed) encoded_path
                            (params parsed) encoded_query (fragment parsed)))
      end
    end
  end.

(** The reference made absolute; [None] is the early [return url] for a
    relative reference without a base. *)
Definition resolve (url : pystr) (base_url : option pystr)
  : outcome (option pystr) :=
  if is_absolute url then Returns (Some url)
  else match base_url with
       | Some (c :: b) =>
         match urljoin netloc_rejected (c :: b) url with
         | Returns full_url => Returns (Some full_url)
         | Raises => Raises
         end
       | _ => Returns None
       end.

(** [_normalize_url(url, base_url)] *)
Definition normalize_url (url : pystr) (base_url : option pystr) : pystr :=
  if non_fetchable url then url
  else match resolve url base_url with
       | Returns (Some full_url) =>
         match normalize_full full_url with
         | Returns normalized_url => normalized_url
         | Raises => url              (* except Exception: return url *)
         end
       | Returns None => url
       | Raises => url
       end.

(** [_get_expected_content_type(url)] *)
Definition get_expected_content_type (url : pystr)
  : outcome Validator.expected_type :=
  match urlparse netloc_rejected url [] with
  | Raises => Raises
  | Returns parsed =>
    let p := lower (path parsed) in
    let ends := existsb (fun ext => endswith (py ext) p) in
    if is_google_fonts (netloc parsed)
       && (contains (py "css") (lower (path parsed))
           || contains (py "css") (lower (query parsed))
           || startswith (py "/css") (lower (path parsed)))
    then Returns Validator.Css
    else if ends [".jpg"; ".jpeg"; ".png"; ".gif"; ".svg"; ".webp"; ".bmp";
                  ".ico"]%string
    then Returns Validator.Image
    else if endswith (py ".css") p then Returns Validator.Css
    else if ends [".js"; ".mjs"]%string then Returns Validator.Javascript
    else if ends [".woff"; ".woff2"; ".ttf"; ".otf"; ".eot"]%string
    then Returns Validator.Font
    else if ends [".xml"; ".json"; ".txt"]%string then Returns Validator.Text
    else Returns Validator.Other
  end.

(** [os.path.splitext] on a name without separators: the extension starts
    at the last dot, unless only dots precede it. *)
Definition splitext (name : pystr) : pystr * pystr :=
  let '(rext, rrest) := break_at (N.eqb c_dot) (rev name) in
  match rrest with
  | [] => (name, [])
  | _ :: rbase =>
    if forallb (N.eqb c_dot) rbase then (name, [])
    else (rev rbase, c_dot :: rev rext)
  end.

(** [hashlib.md5(data).hexdigest()] *)
Variable md5_hexdigest : bytes -> pystr.

(** [_generate_unique_filename(url)] *)
Definition generate_unique_filename (url : pystr) : outcome pystr :=
  match urlparse netloc_rejected url [] with
  | Raises => Raises
  | Returns parsed =>
    match Utf8.encode (netloc parsed ++ path parsed ++ query parsed) with
    | Raises => Raises
    | Returns data =>
      let url_hash := take 12 (md5_hexdigest data) in
      let filename_part :=
        match last (split_all c_slash (path parsed)) with
        | Some p => p
        | None => []
        end in
      let original_ext :=
        if has_char c_dot filename_part then snd (splitext filename_part)
        else [] in
      Returns (url_hash ++ original_ext)
    end
  end.

End Normalize.

End Url.

(** ** Vocabulary of the statements about URLs *)

Module UrlShapes.

Import Urllib Url.

(** Made of ASCII characters. *)
Definition is_ascii (s : pystr) : Prop := Forall (fun c => c < 128) s.

(** The [safe] arguments of the source: ASCII characters other than [%]. *)
Definition safe_set (safe : pystr) : Prop :=
  is_ascii safe /\ has_char c_percent safe = false.

(** A character that [quote] with the safe set [safe] can write: an
    unreserved one, one of [safe], or the [%] of an escape. *)
Definition quoted_char (safe : pystr) (c : N) : bool :=
  always_safe c || has_char c safe || (c =? c_percent).

(** The characters of an encoded path: quoted characters and slashes. *)
Definition path_char (c : N) : bool :=
  quoted_char (py "-._~") c || (c =? c_slash).

(** A reference made of unreserved characters and escapes. *)
Definition plain (e : pystr) : Prop :=
  Forall (fun c => quoted_char (py "-._~") c = true) e.

(** [e] is [p], or [p] percent-encoded once more, any number of times. *)
Inductive encoded_again : pystr -> pystr -> Prop :=
| encoded_same p : encoded_again p p
| encoded_more p q e :
    encoded_again p q -> q <> [] -> quote q (py "-._~") = Returns e ->
    encoded_again p e.

(** A code point with a UTF-8 form: not a surrogate, and in range. *)
Definition scalar (c : N) : Prop :=
  c < 0xD800 \/ 0xE000 <= c < 0x110000.

(** A string that [str.encode('utf-8')] accepts. *)
Definition encodable (s : pystr) : Prop := Forall scalar s.

(** One step of the decoder gives an encodable code point or an error. *)
Definition decoded_scalar (o : option N) : Prop :=
  match o with
  | Some c => scalar c
  | None => True
  end.

(** The last segment of a path: what follows its last slash. *)
Definition last_segment (p : pystr) : pystr :=
  rev (fst (break_at (N.eqb c_slash) (rev p))).

(** Free of the characters [urlsplit] removes. *)
Definition clean (s : pystr) : Prop :=
  Forall (fun c => unsafe_url_byte c = false) s.

(** The characters that end the network location. *)
Definition is_delim (c : N) : bool :=
  (c =? c_slash) || (c =? c_quest) || (c =? c_hash).

Definition lacks_delims (s : pystr) : Prop :=
  has_char c_slash s = false /\ has_char c_quest s = false
  /\ has_char c_hash s = false.

(** A path that is empty or starts with a slash. *)
Definition rooted (p : pystr) : Prop := p = [] \/ exists p', p = c_slash :: p'.

(** The shape of a parse result. *)
Record well_split (nr : pystr -> bool) (r : ParseResult) : Prop := {
  ws_scheme : has_char c_colon (scheme r) = false;
  ws_netloc_clean : clean (netloc r);
  ws_netloc_delims : lacks_delims (netloc r);
  ws_netloc_ok : netloc r <> [] -> nr (netloc r) = false;
  ws_path_clean : clean (path r);
  ws_path_quest : has_char c_quest (path r) = false;
  ws_path_hash : has_char c_hash (path r) = false;
  ws_path_rooted : netloc r <> [] -> rooted (path r);
  ws_params_clean : clean (params r);
  ws_params_delims : lacks_delims (params r);
  ws_params_path : params r <> [] -> path r <> [] \/ netloc r = [];
  ws_query_clean : clean (query r);
  ws_query_hash : has_char c_hash (query r) = false;
  ws_fragment_clean : clean (fragment r)
}.

(** The components of an absolute http(s) URL with a host, free of the
    characters that would move a delimiter when the URL is read again. *)
Record canonical (nr : pystr -> bool) (c : ParseResult) : Prop := {
  can_scheme : scheme c = py "http" \/ scheme c = py "https";
  can_netloc_ne : netloc c <> [];
  can_netloc_clean : clean (netloc c);
  can_netloc_delims : lacks_delims (netloc c);
  can_netloc_ok : nr (netloc c) = false;
  can_path_clean : clean (path c);
  can_path_quest : has_char c_quest (path c) = false;
  can_path_hash : has_char c_hash (path c) = false;
  can_path_semi : has_char c_semi (last_segment (path c)) = false;
  can_path_rooted : rooted (path c);
  can_params_clean : clean (params c);
  can_params_delims : lacks_delims (params c);
  can_params_path : params c <> [] -> path c <> [];
  can_query_clean : clean (query c);
  can_query_hash : has_char c_hash (query c) = false;
  can_fragment_clean : clean (fragment c)
}.

(** A component with its delimiter, or nothing when it is empty. *)
Definition with_delim (d : N) (s : pystr) : pystr :=
  match s with
  | [] => []
  | _ => d :: s
  end.

(** What [urlunparse] writes after the network location. *)
Definition tail_of (c : ParseResult) : pystr :=
  (path c ++ with_delim c_semi (params c))
  ++ with_delim c_quest (query c) ++ with_delim c_hash (fragment c).

(** The scheme written in front of [//netloc]. *)
Definition scheme_prefix (sc : pystr) : pystr :=
  match sc with
  | [] => []
  | _ => sc ++ [c_colon]
  end.

(** The segments of the base that a relative reference is appended to:
    the last one is dropped unless it is empty, and the empty ones between
    the first and the reference are removed. *)
Definition directory_segments (bpath : pystr) : list pystr :=
  let base_parts := split_all c_slash bpath in
  let base_parts :=
    if bool_decide (last base_parts = Some []) then base_parts
    else removelast base_parts in
  match base_parts with
  | [] => []
  | first :: rest =>
    first :: List.filter (fun s => negb (bool_decide (s = []))) rest
  end.

(** The resolved directory, with the slash that precedes the reference. *)
Definition directory (bpath : pystr) : pystr :=
  flat_map (fun s => s ++ [c_slash])
           (resolve_segments (directory_segments bpath) []).

(** [urlunsplit] puts a slash between the host and a path without one. *)
Definition root (p : pystr) : pystr :=
  if startswith [c_slash] p then p else c_slash :: p.

End UrlShapes.

(** ** Insertion-ordered dictionaries with string keys *)

Module Dict.

Section Dict.

Context {V : Type}.

Definition t : Type := list (pystr * V).

(** [d.get(k)] *)
Fixpoint get (k : pystr) (d : t) : option V :=
  match d with
  | [] => None
  | (k', v) :: d' => if bool_decide (k' = k) then Some v else get k d'
  end.

(** [k in d] *)
Definition mem (k : pystr) (d : t) : bool :=
  match get k d with Some _ => true | None => false end.

(** [d[k] = v]: an existing key keeps its position, a new key goes last. *)
Fixpoint set (k : pystr) (v : V) (d : t) : t :=
  match d with
  | [] => [(k, v)]
  | (k', v') :: d' =>
    if bool_decide (k' = k) then (k, v) :: d' else (k', v') :: set k v d'
  end.

(** [list(d.keys())] *)
Definition keys (d : t) : list pystr := List.map fst d.

End Dict.

Arguments t V : clear implicits.

End Dict.

(** ** The scraper: cache, fetch layer, attempt controller *)

Module Scraper.

Import Urllib Url.

Inductive request : Type :=
| Get (url : pystr)
| Head (url : pystr).

(** What a request comes back with: a response (status, Content-Type
    header if any, body), a connection-level error, or a timeout. *)
Inductive http_reply : Type :=
| Reply (status : N) (content_type : option pystr) (body : bytes)
| ClientError
| Timeout.

Inductive file_content : Type :=
| Binary (content : bytes)
| TextFile (text : pystr)
| JsonObject (entries : list (pystr * pystr)).

(** What the event loop does next with the tasks of a batch: it lets a
    task that waits for the semaphore start, or resumes a task that waits
    for its reply or for its file; the number counts from the oldest. *)
Inductive action : Type :=
| Start (i : nat)
| Resume (i : nat).

(** The world outside the class and the library calls it consults. *)
Record env : Type := {
  netloc_rejected : pystr -> bool;
  md5_hexdigest : bytes -> pystr;
  (** the reply to a request, given the requests made before it *)
  http : list request -> request -> http_reply;
  (** [response.text] *)
  response_text : option pystr -> bytes -> pystr;
  (** [match.group(1)] of the matches of the [url(...)] pattern, in order *)
  css_url_refs : pystr -> list pystr;
  (** [re.sub] of the [url(...)] pattern: the n-th match is replaced by the
      n-th element, or kept where that is [None] *)
  css_substitute : pystr -> list (option pystr) -> pystr;
  (** opening the file for writing fails *)
  write_fails : pystr -> bool;
  (** [mimetypes.guess_extension] *)
  guess_extension : pystr -> option pystr;
  (** the order in which the event loop runs the tasks of a batch: its
      choice at each step, given the requests made before the batch *)
  schedule : list request -> nat -> action
}.

(** The attributes of [HTMLBannerScraper] the pipeline reads and writes,
    the file system and the log of the requests sent. *)
Record scraper : Type := {
  global_assets : bool;
  parallel_downloads : bool;
  output_dir : pystr;
  asset_cache : gmap pystr pystr;
  download_failures : nat;
  files : gmap pystr file_content;
  requests : list request
}.

Definition with_cache (st : scraper) (c : gmap pystr pystr) : scraper :=
  {| global_assets := global_assets st;
     parallel_downloads := parallel_downloads st;
     output_dir := output_dir st;
     asset_cache := c;
     download_failures := download_failures st;
     files := files st;
     requests := requests st |}.

Definition with_failures (st : scraper) (n : nat) : scraper :=
  {| global_assets := global_assets st;
     parallel_downloads := parallel_downloads st;
     output_dir := output_dir st;
     asset_cache := asset_cache st;
     download_failures := n;
     files := files st;
     requests := requests st |}.

Definition with_files (st : scraper) (f : gmap pystr file_content) : scraper :=
  {| global_assets := global_assets st;
     parallel_downloads := parallel_downloads st;
     output_dir := output_dir st;
     asset_cache := asset_cache st;
     download_failures := download_failures st;
     files := f;
     requests := requests st |}.

Definition with_requests (st : scraper) (r : list request) : scraper :=
  {| global_assets := global_assets st;
     parallel_downloads := parallel_downloads st;
     output_dir := output_dir st;
     asset_cache := asset_cache st;
     download_failures := download_failures st;
     files := files st;
     requests := r |}.

(** [dir / name] *)
Definition path_join (dir name : pystr) : pystr := dir ++ c_slash :: name.

(** [Path(p).name] *)
Definition path_name (p : pystr) : pystr :=
  match last (split_all c_slash p) with
  | Some n => n
  | None => []
  end.

(** [_reset_download_failure_tracking] *)
Definition reset_download_failure_tracking (st : scraper) : scraper :=
  with_failures st 0.

(** [_record_download_failure] *)
Definition record_download_failure (st : scraper) : scraper :=
  with_failures st (S (download_failures st)).

(** [_cache_downloaded_asset(original_url, local_path)] *)
Definition cache_downloaded_asset (st : scraper) (original_url local_path : pystr)
  : scraper :=
  let original_url := strip original_url in
  match original_url with
  | [] => st
  | _ => with_cache st (<[original_url := local_path]> (asset_cache st))
  end.

(** [_get_asset_directory(banner_dir)] *)
Definition get_asset_directory (st : scraper) (banner_dir : pystr) : pystr :=
  if global_assets st then path_join (output_dir st) (py "global_assets")
  else path_join banner_dir (py "assets").

(** [_get_asset_path_prefix()] *)
Definition get_asset_path_prefix (st : scraper) : pystr :=
  if global_assets st then py "../global_assets/" else py "assets/".

(** [_save_global_asset_cache()]: a failure to write is logged only. *)
Definition save_global_asset_cache (E : env) (st : scraper) : scraper :=
  if global_assets st then
    let cache_file :=
      path_join (path_join (output_dir st) (py "global_assets"))
                (py "asset_cache.json") in
    if write_fails E cache_file then st
    else with_files st
           (<[cache_file := JsonObject (map_to_list (asset_cache st))]> (files st))
  else st.

(** [_clear_asset_cache()] *)
Definition clear_asset_cache (E : env) (st : scraper) : scraper :=
  if global_assets st then save_global_asset_cache E st
  else with_cache st ∅.

(** [str(n)] *)
Definition str_of_N (n : N) : pystr :=
  py (DecimalString.NilEmpty.string_of_uint (N.to_uint n)).

(** The collision loop [while local_path.exists(): ...]; each round tries a
    new name, so one round per existing file and one more are enough. *)
Fixpoint unique_name_loop (fuel : nat) (files : gmap pystr file_content)
    (assets_dir base_name ext : pystr) (counter : N) (filename : pystr)
  : pystr :=
  match fuel with
  | O => filename
  | S fuel' =>
    match files !! path_join assets_dir filename with
    | Some _ =>
      unique_name_loop fuel' files assets_dir base_name ext (counter + 1)
        (base_name ++ py "_" ++ str_of_N counter ++ ext)
    | None => filename
    end
  end.

Definition unique_name (st : scraper) (assets_dir filename : pystr) : pystr :=
  let '(base_name, ext) := splitext filename in
  unique_name_loop (S (size (files st))) (files st) assets_dir base_name ext 1
    filename.

Definition send (E : env) (st : scraper) (r : request) : scraper * http_reply :=
  (with_requests st (requests st ++ [r]), http E (requests st) r).

Definition header_or_empty (h : option pystr) : pystr :=
  match h with Some s => s | None => [] end.

Section Fetch.

Variable E : env.

Definition normalize_url' := normalize_url (netloc_rejected E).

(** [_download_asset_async(session, asset_url, base_url, banner_dir)].
    Every [except] clause of the source records one failure and returns
    [None]; [raise_for_status] of aiohttp raises for a status of 400 and
    above. *)
Definition download_asset_async (st : scraper)
    (asset_url base_url banner_dir : pystr) : scraper * option pystr :=
  let full_url := normalize_url' asset_url (Some base_url) in
  match asset_cache st !! full_url with
  | Some cached_path => (st, Some cached_path)
  | None =>
    match generate_unique_filename (netloc_rejected E) (md5_hexdigest E) full_url with
    | Raises => (record_download_failure st, None)
    | Returns filename =>
      let assets_dir := get_asset_directory st banner_dir in
      let path_prefix := get_asset_path_prefix st in
      let filename := unique_name st assets_dir filename in
      let local_path := path_join assets_dir filename in
      let '(st, reply) := send E st (Get full_url) in
      match reply with
      | ClientError => (record_download_failure st, None)
      | Timeout => (record_download_failure st, None)
      | Reply status content_type content =>
        if status =? 403 then (record_download_failure st, None)
        else if status =? 404 then (record_download_failure st, None)
        else if status =? 429 then (record_download_failure st, None)
        else if 400 <=? status then (record_download_failure st, None)
        else
          match get_expected_content_type (netloc_rejected E) full_url with
          | Raises => (record_download_failure st, None)
          | Returns expected_type =>
            if negb (Validator.validate_content_type content expected_type
                       (header_or_empty content_type))
            then (record_download_failure st, None)
            else if write_fails E local_path
            then (record_download_failure st, None)
            else
              let st := with_files st (<[local_path := Binary content]> (files st)) in
              let relative_path := path_prefix ++ filename in
              let st := cache_downloaded_asset st full_url relative_path in
              (st, Some relative_path)
          end
      end
    end
  end.

(** A Python value used as a condition: [None] and [''] are false. *)
Definition truthy (p : option pystr) : bool :=
  match p with
  | Some (_ :: _) => true
  | _ => false
  end.

(** *** The tasks of a batch

    [_download_assets_parallel] wraps one call of [_download_asset_async]
    per URL in a task and hands the tasks to [asyncio.as_completed].  A
    task runs until it awaits, and other tasks run before it is resumed.
    [_download_asset_async] awaits the reply to its request, the body of
    the reply, and the write of the file: what it does from its start to
    [session.get], from the reply to the closed file, and from there to
    its [return], are three steps. *)

Inductive task_stage : Type :=
| AwaitingReply (reply : http_reply)
| FileWritten.

(** A task between two steps: the URL it was created for, and the local
    variables of [_download_asset_async]. *)
Record task : Type := {
  task_url : pystr;
  task_full_url : pystr;
  task_local_path : pystr;
  task_relative_path : pystr;
  task_stage_of : task_stage
}.

(** The first step: [_download_asset_async] up to [session.get].  It ends
    the call ([inl]) on a cache hit and on an exception. *)
Definition task_start (st : scraper) (asset_url base_url banner_dir : pystr)
  : scraper * (option pystr + task) :=
  let full_url := normalize_url' asset_url (Some base_url) in
  match asset_cache st !! full_url with
  | Some cached_path => (st, inl (Some cached_path))
  | None =>
    match generate_unique_filename (netloc_rejected E) (md5_hexdigest E) full_url with
    | Raises => (record_download_failure st, inl None)
    | Returns filename =>
      let assets_dir := get_asset_directory st banner_dir in
      let path_prefix := get_asset_path_prefix st in
      let filename := unique_name st assets_dir filename in
      let local_path := path_join assets_dir filename in
      let '(st, reply) := send E st (Get full_url) in
      (st, inr {| task_url := asset_url;
                  task_full_url := full_url;
                  task_local_path := local_path;
                  task_relative_path := path_prefix ++ filename;
                  task_stage_of := AwaitingReply reply |})
    end
  end.

(** The later steps: from the reply to the closed file, and from the
    closed file to the [return]. *)
Definition task_resume (st : scraper) (t : task)
  : scraper * (option pystr + task) :=
  match task_stage_of t with
  | AwaitingReply reply =>
    match reply with
    | ClientError => (record_download_failure st, inl None)
    | Timeout => (record_download_failure st, inl None)
    | Reply status content_type content =>
      if status =? 403 then (record_download_failure st, inl None)
      else if status =? 404 then (record_download_failure st, inl None)
      else if status =? 429 then (record_download_failure st, inl None)
      else if 400 <=? status then (record_download_failure st, inl None)
      else
        match get_expected_content_type (netloc_rejected E) (task_full_url t) with
        | Raises => (record_download_failure st, inl None)
        | Returns expected_type =>
          if negb (Validator.validate_content_type content expected_type
                     (header_or_empty content_type))
          then (record_download_failure st, inl None)
          else if write_fails E (task_local_path t)
          then (record_download_failure st, inl None)
          else
            (with_files st
               (<[task_local_path t := Binary content]> (files st)),
             inr {| task_url := task_url t;
                    task_full_url := task_full_url t;
                    task_local_path := task_local_path t;
                    task_relative_path := task_relative_path t;
                    task_stage_of := FileWritten |})
        end
    end
  | FileWritten =>
    (cache_downloaded_asset st (task_full_url t) (task_relative_path t),
     inl (Some (task_relative_path t)))
  end.

(** A batch under way: the tasks that wait for the semaphore, the tasks
    that have started and wait to be resumed, and [downloaded_assets]. *)
Record batch : Type := {
  batch_state : scraper;
  waiting : list pystr;
  running : list task;
  batch_downloaded : Dict.t pystr
}.

(** [asyncio.Semaphore(max_concurrent)]; the one call of
    [_download_assets_parallel] passes 5, which is also the default. *)
Definition max_concurrent : nat := 5.

(** The body of the loop over [asyncio.as_completed(tasks)], which sees
    the tasks in the order they end. *)
Definition record_result (url : pystr) (local_path : option pystr)
    (downloaded_assets : Dict.t pystr) : Dict.t pystr :=
  match local_path with
  | Some p => if truthy local_path then Dict.set url p downloaded_assets
              else downloaded_assets
  | None => downloaded_assets
  end.

(** The task at position [i] of the waiting ones takes the semaphore, if
    it is free, and runs its first step. *)
Definition start_task (base_url banner_dir : pystr) (b : batch) (i : nat)
  : option batch :=
  if (length (running b) <? max_concurrent)%nat then
    match waiting b !! i with
    | Some url =>
      let '(st, r) := task_start (batch_state b) url base_url banner_dir in
      Some match r with
           | inl local_path =>
             {| batch_state := st;
                waiting := delete i (waiting b);
                running := running b;
                batch_downloaded :=
                  record_result url local_path (batch_downloaded b) |}
           | inr t =>
             {| batch_state := st;
                waiting := delete i (waiting b);
                running := running b ++ [t];
                batch_downloaded := batch_downloaded b |}
           end
    | None => None
    end
  else None.

(** The task at position [i] of the running ones runs its next step. *)
Definition resume_task (b : batch) (i : nat) : option batch :=
  match running b !! i with
  | Some t =>
    let '(st, r) := task_resume (batch_state b) t in
    Some match r with
         | inl local_path =>
           {| batch_state := st;
              waiting := waiting b;
              running := delete i (running b);
              batch_downloaded :=
                record_result (task_url t) local_path (batch_downloaded b) |}
         | inr t' =>
           {| batch_state := st;
              waiting := waiting b;
              running := <[i := t']> (running b);
              batch_downloaded := batch_downloaded b |}
         end
  | None => None
  end.

(** One step of the event loop.  When the task it is asked for cannot
    run, the oldest running task is resumed, or the first waiting task
    starts. *)
Definition step (base_url banner_dir : pystr) (a : action) (b : batch) : batch :=
  match match a with
        | Start i => start_task base_url banner_dir b i
        | Resume i => resume_task b i
        end with
  | Some b' => b'
  | None =>
    match resume_task b 0 with
    | Some b' => b'
    | None =>
      match start_task base_url banner_dir b 0 with
      | Some b' => b'
      | None => b
      end
    end
  end.

(** The event loop, until no task is left; a task takes three steps at
    most, so three steps per task are enough ([run_tasks_ends]). *)
Fixpoint run_tasks (fuel : nat) (choice : nat -> action) (n : nat)
    (base_url banner_dir : pystr) (b : batch) : batch :=
  match fuel with
  | O => b
  | S fuel' =>
    match waiting b, running b with
    | [], [] => b
    | _, _ =>
      run_tasks fuel' choice (S n) base_url banner_dir
        (step base_url banner_dir (choice n) b)
    end
  end.

(** The tasks of [_download_assets_parallel] and the loop over their
    results.  [asyncio.as_completed] starts the tasks in the order of a
    set, and the event loop resumes them as their replies come in: the
    order is the choice of the world, any order that the semaphore
    admits.  (The event loop takes some of these orders only: the first
    tasks all start before a reply is handled.) *)
Definition download_each (st : scraper) (urls : list pystr)
    (base_url banner_dir : pystr) (downloaded_assets : Dict.t pystr)
  : scraper * Dict.t pystr :=
  let b :=
    run_tasks (3 * length urls) (schedule E (requests st)) 0 base_url banner_dir
      {| batch_state := st; waiting := urls; running := [];
         batch_downloaded := downloaded_assets |} in
  (batch_state b, batch_downloaded b).

(** The requests of a batch under way: those made before it, and one GET
    each for some of the URLs whose task has started. *)
Definition requests_so_far (st0 : scraper) (urls : list pystr)
    (base_url : pystr) (b : batch) : Prop :=
  exists fetched,
    fetched ++ waiting b ⊆+ urls
    /\ requests (batch_state b)
       = requests st0
         ++ List.map (fun k => Get (normalize_url' k (Some base_url))) fetched.

(** The steps a task has still to take, and those of a whole batch. *)
Definition steps_left (t : task) : nat :=
  match task_stage_of t with
  | AwaitingReply _ => 2
  | FileWritten => 1
  end.

Definition work_left (b : batch) : nat :=
  3 * length (waiting b) + list_sum (List.map steps_left (running b)).

(** [for _ in range(n): self._record_download_failure()] *)
Fixpoint record_failures (n : nat) (st : scraper) : scraper :=
  match n with
  | O => st
  | S n' => record_failures n' (record_download_failure st)
  end.

(** [_download_assets_parallel(asset_urls, base_url, banner_dir)] *)
Definition download_assets_parallel (st : scraper) (asset_urls : list pystr)
    (base_url banner_dir : pystr) : scraper * Dict.t pystr :=
  let downloadable_urls :=
    List.filter (fun url => negb (non_fetchable url)) asset_urls in
  match downloadable_urls with
  | [] => (st, [])
  | _ =>
    let '(st, downloaded_assets) :=
      download_each st downloadable_urls base_url banner_dir [] in
    let st := save_global_asset_cache E st in
    let failed_downloads :=
      (length downloadable_urls - length downloaded_assets)%nat in
    (record_failures failed_downloads st, downloaded_assets)
  end.

(** [requests]' [raise_for_status]: raises for 400 to 599. *)
Definition requests_status_error (status : N) : bool :=
  (400 <=? status) && (status <? 600).

(** [_download_asset(asset_url, base_url, banner_dir)] *)
Definition download_asset (st : scraper) (asset_url base_url banner_dir : pystr)
  : scraper * option pystr :=
  let full_url := normalize_url' asset_url (Some base_url) in
  match asset_cache st !! full_url with
  | Some cached_path => (st, Some cached_path)
  | None =>
    match generate_unique_filename (netloc_rejected E) (md5_hexdigest E) full_url with
    | Raises => (record_download_failure st, None)
    | Returns filename =>
      let '(st, filename) :=
        if has_char c_dot filename then (st, filename)
        else
          let '(st, head_response) := send E st (Head full_url) in
          match head_response with
          | Reply _ content_type _ =>
            let mime := fst (break_at (N.eqb c_semi) (header_or_empty content_type)) in
            match guess_extension E mime with
            | Some (c :: ext) => (st, filename ++ c :: ext)
            | _ => (st, filename)
            end
          | _ => (st, filename)
          end in
      let assets_dir := get_asset_directory st banner_dir in
      let filename := unique_name st assets_dir filename in
      let local_path := path_join assets_dir filename in
      let '(st, reply) := send E st (Get full_url) in
      match reply with
      | ClientError => (record_download_failure st, None)
      | Timeout => (record_download_failure st, None)
      | Reply status content_type content =>
        if status =? 403 then (record_download_failure st, None)
        else if status =? 404 then (record_download_failure st, None)
        else if status =? 429 then (record_download_failure st, None)
        else if requests_status_error status then (record_download_failure st, None)
        else
          match get_expected_content_type (netloc_rejected E) full_url with
          | Raises => (record_download_failure st, None)
          | Returns expected_type =>
            if negb (Validator.validate_content_type content expected_type
                       (header_or_empty content_type))
            then (record_download_failure st, None)
            else if write_fails E local_path
            then (record_download_failure st, None)
            else
              let st := with_files st (<[local_path := Binary content]> (files st)) in
              let relative_path := get_asset_path_prefix st ++ filename in
              let st := cache_downloaded_asset st full_url relative_path in
              let st := save_global_asset_cache E st in
              (st, Some relative_path)
          end
      end
    end
  end.

End Fetch.

(** ** Documents *)

(** An element of the parsed markup: its tag, its attributes, and the
    values of its multi-valued [rel] attribute. *)
Record element : Type := {
  tag : pystr;
  attrs : Dict.t pystr;
  rel : list pystr
}.

Definition soup : Type := list element.

(** [element.get(attr)] *)
Definition get_attr (e : element) (attr : pystr) : option pystr :=
  Dict.get attr (attrs e).

(** [element[attr] = value] *)
Definition set_attr (e : element) (attr value : pystr) : element :=
  {| tag := tag e; attrs := Dict.set attr value (attrs e); rel := rel e |}.

(** The element at position [i] of the document gets [attr] set. *)
Definition set_attr_at (s : soup) (i : nat) (attr value : pystr) : soup :=
  match s !! i with
  | Some e => <[i := set_attr e attr value]> s
  | None => s
  end.

(** [soup.find_all(tag_name)]: positions and elements, in document order. *)
Definition find_all (tag_name : pystr) (s : soup) : list (nat * element) :=
  List.filter (fun ie => eqb_str (tag (snd ie)) tag_name)
              (combine (seq 0 (length s)) s).

(** [soup.find_all('link', rel='stylesheet')] *)
Definition find_stylesheets (s : soup) : list (nat * element) :=
  List.filter (fun ie => existsb (eqb_str (py "stylesheet")) (rel (snd ie)))
              (find_all (py "link") s).

Definition url_attributes_parallel : list (string * list string) :=
  [("img", ["src"; "data-src"]); ("script", ["src"]); ("source", ["src"]);
   ("video", ["src"; "poster"]); ("audio", ["src"]); ("object", ["data"]);
   ("embed", ["src"])]%string.

Definition url_attributes_sequential : list (string * list string) :=
  [("img", ["src"; "data-src"]); ("link", ["href"]); ("script", ["src"]);
   ("source", ["src"]); ("video", ["src"; "poster"]); ("audio", ["src"]);
   ("object", ["data"]); ("embed", ["src"])]%string.

(** The (position, element, attribute) triples the loops over
    [url_attributes] visit, in the order they visit them. *)
Definition attribute_sites (table : list (string * list string)) (s : soup)
  : list (nat * element * pystr) :=
  flat_map (fun ta =>
    flat_map (fun ie =>
      List.map (fun a => (fst ie, snd ie, py a)) (snd ta))
      (find_all (py (fst ta)) s)) table.

(** ** The unified (parallel) pass *)

Inductive asset_type : Type := html_asset | css_file | css_asset.

Record css_ref : Type := {
  css_url : pystr;
  original_css_asset_url : pystr;
  match_index : nat
}.

(** A value of [all_assets].  [css_content] is [None] while the key is
    absent, [Some None] for the Python [None]. *)
Record asset_info : Type := {
  type : asset_type;
  original_url : pystr;
  element_refs : list (nat * pystr * pystr);
  css_refs : list css_ref;
  css_content : option (option pystr)
}.

Definition add_element_ref (a : asset_info) (r : nat * pystr * pystr) : asset_info :=
  {| type := type a; original_url := original_url a;
     element_refs := element_refs a ++ [r]; css_refs := css_refs a;
     css_content := css_content a |}.

Definition add_css_ref (a : asset_info) (r : css_ref) : asset_info :=
  {| type := type a; original_url := original_url a;
     element_refs := element_refs a; css_refs := css_refs a ++ [r];
     css_content := css_content a |}.

Definition set_css_content (a : asset_info) (c : option pystr) : asset_info :=
  {| type := type a; original_url := original_url a;
     element_refs := element_refs a; css_refs := css_refs a;
     css_content := Some c |}.

(** [d[k] = f(d[k])] for a key that is present. *)
Definition update_entry (k : pystr) (f : asset_info -> asset_info)
    (d : Dict.t asset_info) : Dict.t asset_info :=
  match Dict.get k d with
  | Some a => Dict.set k (f a) d
  | None => d
  end.

(** [if k not in d: d[k] = v] *)
Definition set_default (k : pystr) (v : asset_info) (d : Dict.t asset_info)
  : Dict.t asset_info :=
  if Dict.mem k d then d else Dict.set k v d.

Section Unified.

Variable E : env.

(** The body of the loop over the attributes of the HTML elements in
    [_collect_all_assets]. *)
Definition collect_site (base_url : pystr) (all_assets : Dict.t asset_info)
    (site : nat * element * pystr) : Dict.t asset_info :=
  let '(i, e, attr) := site in
  match get_attr e attr with
  | Some original_url =>
    if non_fetchable original_url then all_assets
    else
      let normalized_url := normalize_url' E original_url (Some base_url) in
      let all_assets :=
        set_default normalized_url
          {| type := html_asset; original_url := original_url;
             element_refs := []; css_refs := []; css_content := None |}
          all_assets in
      update_entry normalized_url
        (fun a => add_element_ref a (i, attr, original_url)) all_assets
  | None => all_assets
  end.

(** The loop over the [url(...)] matches of one stylesheet. *)
Fixpoint collect_css_refs (css_url : pystr) (matches : list pystr) (n : nat)
    (all_assets : Dict.t asset_info) : Dict.t asset_info :=
  match matches with
  | [] => all_assets
  | css_asset_url :: rest =>
    let all_assets :=
      if startswith_any [py "data:"; py "#"] css_asset_url then all_assets
      else
        let normalized_css_asset :=
          normalize_url' E css_asset_url (Some css_url) in
        let all_assets :=
          set_default normalized_css_asset
            {| type := css_asset; original_url := css_asset_url;
               element_refs := []; css_refs := []; css_content := None |}
            all_assets in
        update_entry normalized_css_asset
          (fun a => add_css_ref a
             {| css_url := css_url; original_css_asset_url := css_asset_url;
                match_index := n |}) all_assets in
    collect_css_refs css_url rest (S n) all_assets
  end.

(** The body of the loop over the stylesheet links: the stylesheet is
    fetched here, with [requests], to find the assets it refers to. *)
Definition collect_stylesheet (base_url : pystr)
    (acc : scraper * Dict.t asset_info) (link : nat * element)
  : scraper * Dict.t asset_info :=
  let '(st, all_assets) := acc in
  match get_attr (snd link) (py "href") with
  | Some (c :: h) =>
    let href := c :: h in
    let css_url := normalize_url' E href (Some base_url) in
    let all_assets :=
      set_default css_url
        {| type := css_file; original_url := href;
           element_refs := [(fst link, py "href", href)]; css_refs := [];
           css_content := None |}
        all_assets in
    let '(st, css_response) := send E st (Get css_url) in
    match css_response with
    | Reply status content_type body =>
      if requests_status_error status
      then (st, update_entry css_url (fun a => set_css_content a None) all_assets)
      else
        let css_text := response_text E content_type body in
        let all_assets :=
          update_entry css_url (fun a => set_css_content a (Some css_text))
                       all_assets in
        (st, collect_css_refs css_url (css_url_refs E css_text) 0 all_assets)
    | _ => (st, update_entry css_url (fun a => set_css_content a None) all_assets)
    end
  | _ => (st, all_assets)
  end.

(** [_collect_all_assets(soup, base_url)] *)
Definition collect_all_assets (st : scraper) (s : soup) (base_url : pystr)
  : scraper * Dict.t asset_info :=
  let all_assets :=
    fold_left (collect_site base_url)
              (attribute_sites url_attributes_parallel s) [] in
  fold_left (collect_stylesheet base_url) (find_stylesheets s) (st, all_assets).

(** [_download_all_assets_unified(all_assets, banner_dir)] *)
Definition download_all_assets_unified (st : scraper)
    (all_assets : Dict.t asset_info) (banner_dir : pystr)
  : scraper * Dict.t pystr :=
  let downloadable :=
    List.filter (fun url => negb (startswith_any
                   [py "data:"; py "javascript:"; py "#"] url))
                (Dict.keys all_assets) in
  match downloadable with
  | [] => (st, [])
  | _ => download_assets_parallel E st downloadable [] banner_dir
  end.

(** [replace_url] of [_update_css_urls]: the first entry of [all_assets]
    that has a reference with this text and was downloaded gives the
    replacement. *)
Definition css_replacement (all_assets : Dict.t asset_info)
    (downloaded_assets : Dict.t pystr) (original : pystr) : option pystr :=
  if startswith_any [py "data:"; py "#"] original then None
  else
    match List.find (fun kv =>
                  existsb (fun r => eqb_str (original_css_asset_url r) original)
                          (css_refs (snd kv))
                  && Dict.mem (fst kv) downloaded_assets) all_assets with
    | Some (normalized_url, _) =>
      match Dict.get normalized_url downloaded_assets with
      | Some local_path => Some (py "url(" ++ c_dquote :: local_path ++ c_dquote :: py ")")
      | None => None
      end
    | None => None
    end.

(** [_update_css_urls(css_content, all_assets, downloaded_assets)] *)
Definition update_css_urls (css_text : pystr) (all_assets : Dict.t asset_info)
    (downloaded_assets : Dict.t pystr) : pystr :=
  css_substitute E css_text
    (List.map (css_replacement all_assets downloaded_assets)
              (css_url_refs E css_text)).

(** The body of the loop of [_update_html_with_unified_assets].  The
    elements it writes to are those recorded in [element_refs], which
    belong to the document that was collected from. *)
Definition update_asset (all_assets : Dict.t asset_info)
    (downloaded_assets : Dict.t pystr) (banner_dir : pystr)
    (acc : scraper * soup * Dict.t pystr) (kv : pystr * asset_info)
  : scraper * soup * Dict.t pystr :=
  let '(st, doc, result_mapping) := acc in
  let '(normalized_url, info) := kv in
  match Dict.get normalized_url downloaded_assets with
  | None => acc
  | Some local_path =>
    let doc :=
      fold_left (fun d r => set_attr_at d (fst (fst r)) (snd (fst r)) local_path)
                (element_refs info) doc in
    let result_mapping :=
      fold_left (fun m r => Dict.set (snd r) local_path m)
                (element_refs info) result_mapping in
    let st :=
      match type info, css_content info with
      | css_file, Some (Some (c :: t)) =>
        let processed_css :=
          update_css_urls (c :: t) all_assets downloaded_assets in
        let css_file_path :=
          path_join (get_asset_directory st banner_dir) (path_name local_path) in
        if write_fails E css_file_path then st
        else with_files st (<[css_file_path := TextFile processed_css]> (files st))
      | _, _ => st
      end in
    (st, doc, result_mapping)
  end.

(** [_update_html_with_unified_assets(soup, all_assets, downloaded_assets,
    banner_dir)]; [doc] is the document the element references point into. *)
Definition update_html_with_unified_assets (st : scraper) (doc : soup)
    (all_assets : Dict.t asset_info) (downloaded_assets : Dict.t pystr)
    (banner_dir : pystr) : scraper * soup * Dict.t pystr :=
  fold_left (update_asset all_assets downloaded_assets banner_dir) all_assets
            (st, doc, []).

(** [len(downloaded_assets_unified) >= len(all_assets) * 0.8].  The source
    compares an integer with a double; for every length below 2^50 the
    product is the double nearest to four fifths of the length, and the
    comparison is the one of the integers [5 * d] and [4 * n]. *)
Definition success_threshold_met (downloaded all : nat) : bool :=
  (4 * all <=? 5 * downloaded)%nat.

(** The parallel branch of one attempt of [_download_assets_with_retry]:
    the state, the copy of the document the pass worked on, and
    [downloaded_assets]. *)
Definition attempt_parallel (st : scraper) (s : soup) (url banner_dir : pystr)
  : scraper * soup * Dict.t pystr :=
  let soup_copy := s in
  let '(st, all_assets) := collect_all_assets st soup_copy url in
  let '(st, downloaded_assets_unified) :=
    download_all_assets_unified st all_assets banner_dir in
  if success_threshold_met (length downloaded_assets_unified) (length all_assets)
  then update_html_with_unified_assets st soup_copy all_assets
         downloaded_assets_unified banner_dir
  else (st, soup_copy, downloaded_assets_unified).

End Unified.

(** ** The sequential pass *)

Section Sequential.

Variable E : env.

(** [rel_attr and ... and 'stylesheet' in rel_attr] *)
Definition is_stylesheet_link (e : element) : bool :=
  existsb (eqb_str (py "stylesheet")) (rel e).

(** The body of the loop over the attributes in [_normalize_urls_in_html].
    The element is read from the document as it is now. *)
Definition download_site (base_url banner_dir : pystr)
    (acc : scraper * soup * Dict.t pystr) (site : nat * element * pystr)
  : scraper * soup * Dict.t pystr :=
  let '(st, doc, downloaded_assets) := acc in
  let '(i, _, attr) := site in
  match doc !! i with
  | None => acc
  | Some e =>
    if eqb_str (tag e) (py "link") && is_stylesheet_link e then acc
    else
      match get_attr e attr with
      | Some original_url =>
        if non_fetchable original_url then acc
        else
          let full_url := normalize_url' E original_url (Some base_url) in
          let '(st, local_path) :=
            download_asset E st full_url base_url banner_dir in
          match local_path with
          | Some (c :: p) =>
            (st, set_attr_at doc i attr (c :: p),
             Dict.set original_url (c :: p) downloaded_assets)
          | _ => (st, doc, downloaded_assets)
          end
      | None => acc
      end
  end.

(** [_process_css_urls]: the loop [re.sub] makes over the matches, each
    calling [_download_asset]; the replacements are collected in order. *)
Fixpoint process_css_matches (st : scraper) (matches : list pystr)
    (css_base_url banner_dir : pystr) (downloaded_assets : Dict.t pystr)
  : scraper * Dict.t pystr * list (option pystr) :=
  match matches with
  | [] => (st, downloaded_assets, [])
  | original_url :: rest =>
    if startswith_any [py "data:"; py "#"] original_url then
      let '(st, d, rs) :=
        process_css_matches st rest css_base_url banner_dir downloaded_assets in
      (st, d, None :: rs)
    else
      let '(st, local_path) :=
        download_asset E st original_url css_base_url banner_dir in
      match local_path with
      | Some (c :: p) =>
        let '(st, d, rs) :=
          process_css_matches st rest css_base_url banner_dir
            (Dict.set original_url (c :: p) downloaded_assets) in
        (st, d, Some (py "url(" ++ c_dquote :: (c :: p) ++ c_dquote :: py ")") :: rs)
      | _ =>
        let '(st, d, rs) :=
          process_css_matches st rest css_base_url banner_dir downloaded_assets in
        (st, d, None :: rs)
      end
  end.

Definition process_css_urls (st : scraper) (css_text css_base_url banner_dir : pystr)
    (downloaded_assets : Dict.t pystr) : scraper * Dict.t pystr * pystr :=
  let '(st, d, replacements) :=
    process_css_matches st (css_url_refs E css_text) css_base_url banner_dir
      downloaded_assets in
  (st, d, css_substitute E css_text replacements).

(** The body of the loop over the stylesheet links.  [urljoin] is called
    before the [try]: its exception leaves the function ([raised]) with
    the effects made so far; everything inside the [try] is logged and
    skipped. *)
Definition process_stylesheet (base_url banner_dir : pystr)
    (acc : scraper * soup * Dict.t pystr * bool) (link : nat * element)
  : scraper * soup * Dict.t pystr * bool :=
  let '(st, doc, downloaded_assets, raised) := acc in
  if raised then acc
  else
    match get_attr (snd link) (py "href") with
    | Some (c :: h) =>
      let href := c :: h in
      let css_url_ :=
        if is_absolute href then Returns href
        else urljoin (netloc_rejected E) base_url href in
      match css_url_ with
      | Raises => (st, doc, downloaded_assets, true)
      | Returns css_url =>
        let '(st, css_response) := send E st (Get css_url) in
        match css_response with
        | Reply status content_type body =>
          if requests_status_error status then (st, doc, downloaded_assets, false)
          else
            let css_text := response_text E content_type body in
            let '(st, downloaded_assets, css_text) :=
              process_css_urls st css_text css_url banner_dir downloaded_assets in
            match generate_unique_filename (netloc_rejected E) (md5_hexdigest E)
                    css_url with
            | Raises => (st, doc, downloaded_assets, false)
            | Returns css_base_filename =>
              let css_base_filename :=
                if endswith (py ".css") css_base_filename then css_base_filename
                else css_base_filename ++ py ".css" in
              let css_filename := get_asset_path_prefix st ++ css_base_filename in
              let css_path :=
                path_join (get_asset_directory st banner_dir) css_base_filename in
              if write_fails E css_path then (st, doc, downloaded_assets, false)
              else
                let st := with_files st (<[css_path := TextFile css_text]> (files st)) in
                let st := cache_downloaded_asset st css_url css_filename in
                let doc := set_attr_at doc (fst link) (py "href") css_filename in
                let downloaded_assets := Dict.set href css_filename downloaded_assets in
                (save_global_asset_cache E st, doc, downloaded_assets, false)
            end
        | _ => (st, doc, downloaded_assets, false)
        end
      end
    | _ => acc
    end.

(** [_normalize_urls_in_html(soup, base_url, banner_dir)] *)
Definition normalize_urls_in_html (st : scraper) (s : soup)
    (base_url banner_dir : pystr) : scraper * soup * outcome (Dict.t pystr) :=
  let '(st, doc, downloaded_assets) :=
    fold_left (download_site base_url banner_dir)
              (attribute_sites url_attributes_sequential s) (st, s, []) in
  let '(st, doc, downloaded_assets, raised) :=
    fold_left (process_stylesheet base_url banner_dir) (find_stylesheets s)
              (st, doc, downloaded_assets, false) in
  (st, doc, if raised then Raises else Returns downloaded_assets).

End Sequential.

(** ** The attempt controller *)

Section Retry.

Variable E : env.

(** One attempt of [_download_assets_with_retry]: [Returns true] is the
    [return True] of the source, [Raises] an exception caught by the
    [except] of the loop.  The parallel pass works on a copy of the
    document, the sequential pass on the document itself. *)
Definition attempt (st : scraper) (s : soup) (url banner_dir : pystr)
  : scraper * soup * outcome bool :=
  let st := reset_download_failure_tracking st in
  let '(st, s, downloaded_assets) :=
    if parallel_downloads st then
      let '(st, _, d) := attempt_parallel E st s url banner_dir in
      (st, s, Returns d)
    else normalize_urls_in_html E st s url banner_dir in
  match downloaded_assets with
  | Raises => (st, s, Raises)
  | Returns downloaded_assets =>
    if (0 <? download_failures st)%nat then (st, s, Raises)
    else
      match downloaded_assets with
      | _ :: _ =>
        let assets_file := path_join banner_dir (py "assets.json") in
        if write_fails E assets_file then (st, s, Raises)
        else (with_files st (<[assets_file := JsonObject downloaded_assets]> (files st)),
              s, Returns true)
      | [] => (st, s, Returns true)
      end
  end.

(** [_download_assets_with_retry(soup, url, banner_dir, max_retries)]; the
    waits between the attempts have no effect on the state. *)
Fixpoint download_assets_with_retry (max_retries : nat) (st : scraper) (s : soup)
    (url banner_dir : pystr) : scraper * soup * bool :=
  match max_retries with
  | O => (st, s, false)
  | S remaining =>
    match attempt st s url banner_dir with
    | (st, s, Returns b) => (st, s, b)
    | (st, s, Raises) => download_assets_with_retry remaining st s url banner_dir
    end
  end.

End Retry.

(** ** Vocabulary of the statements *)

(** Number of GET requests for [url] in a log. *)
Definition gets_of (url : pystr) (log : list request) : nat :=
  length (List.filter (fun r => match r with
                                | Get u => eqb_str u url
                                | Head _ => false
                                end) log).

(** Status 403, 404 or 429, a connection error or a timeout. *)
Definition reply_fails_immediately (r : http_reply) : bool :=
  match r with
  | Reply status _ _ => (status =? 403) || (status =? 404) || (status =? 429)
  | ClientError => true
  | Timeout => true
  end.

(** The validator rejects the body of the response. *)
Definition reply_is_rejected (E : env) (full_url : pystr) (r : http_reply) : bool :=
  match r with
  | Reply _ content_type body =>
    match get_expected_content_type (netloc_rejected E) full_url with
    | Returns ty =>
      negb (Validator.validate_content_type body ty (header_or_empty content_type))
    | Raises => false
    end
  | _ => false
  end.

Definition fetch_failure (E : env) (full_url : pystr) (r : http_reply) : bool :=
  reply_fails_immediately r || reply_is_rejected E full_url r.

(** The requests [_download_asset] sends before its GET: a HEAD when the
    generated file name has no extension. *)
Definition head_probe (E : env) (full_url : pystr) : list request :=
  match generate_unique_filename (netloc_rejected E) (md5_hexdigest E) full_url with
  | Returns filename => if has_char c_dot filename then [] else [Head full_url]
  | Raises => []
  end.

(** An attribute the passes would take a reference from. *)
Definition site_is_reference (site : nat * element * pystr) : bool :=
  match get_attr (snd (fst site)) (snd site) with
  | Some u => negb (non_fetchable u)
  | None => false
  end.

Definition stylesheet_is_reference (link : nat * element) : bool :=
  match get_attr (snd link) (py "href") with
  | Some (_ :: _) => true
  | _ => false
  end.

(** The markup has no external reference: no attribute of the tables
    holds a fetchable URL and no stylesheet link has a target. *)
Definition no_external_references (s : soup) : bool :=
  forallb (fun site => negb (site_is_reference site))
          (attribute_sites url_attributes_sequential s)
  && forallb (fun link => negb (stylesheet_is_reference link))
             (find_stylesheets s).

(** The manifest of a capture. *)
Definition manifest_path (banner_dir : pystr) : pystr :=
  path_join banner_dir (py "assets.json").

(** What a failed fetch leaves behind: no result, one more failure, the
    files and the cache as they were, and [sent] as the only requests. *)
Definition failed_once (st : scraper) (sent : list request)
    (r : scraper * option pystr) : Prop :=
  snd r = None
  /\ download_failures (fst r) = S (download_failures st)
  /\ files (fst r) = files st
  /\ asset_cache (fst r) = asset_cache st
  /\ requests (fst r) = requests st ++ sent.

(** What every step of the collection does to the keys: it keeps them in
    place, adds new ones at the end, and never repeats one. *)
Definition extends (d d' : Dict.t asset_info) : Prop :=
  (forall k, In k (Dict.keys d) -> In k (Dict.keys d'))
  /\ (NoDup (Dict.keys d) -> NoDup (Dict.keys d')).

End Scraper.

(** ** A concrete world for the closed examples *)

Module Examples.

Import Urllib Url Scraper.

(** The network locations that [urlsplit] refuses: those with a bracket
    that has no partner, and those that fail the later checks of
    [Netloc.rejected]. *)
Definition brackets_unpaired (netloc : pystr) : bool :=
  Netloc.rejected netloc.

(** A server that answers every request with [reply], a file system that
    accepts every write, stylesheets without [url(...)], and an event loop
    that starts the tasks of a batch in the order of the list while the
    semaphore admits one, and otherwise resumes the oldest. *)
Definition world (reply : http_reply) : env :=
  {| netloc_rejected := brackets_unpaired;
     md5_hexdigest := fun _ => py "d41d8cd98f00b204e9800998ecf8427e";
     http := fun _ _ => reply;
     response_text := fun _ body => body;
     css_url_refs := fun _ => [];
     css_substitute := fun text _ => text;
     write_fails := fun _ => false;
     guess_extension := fun _ => None;
     schedule := fun _ _ => Start 0 |}.

Definition fresh_scraper (parallel : bool) : scraper :=
  {| global_assets := false;
     parallel_downloads := parallel;
     output_dir := py "out";
     asset_cache := ∅;
     download_failures := 0;
     files := ∅;
     requests := [] |}.

Definition stylesheet_link (href : string) : element :=
  {| tag := py "link"; attrs := [(py "href", py href)]; rel := [py "stylesheet"] |}.

Definition img (src : string) : element :=
  {| tag := py "img"; attrs := [(py "src", py src)]; rel := [] |}.

End Examples.

(** * Properties *)

(** ** The content validator *)

Module ValidatorProps.

Import Validator.

(** C9.  Empty content is rejected whatever the expected category and the
    Content-Type header are: the test for empty content comes before the
    three checks and before the handler that accepts on an exception. *)
Theorem validate_content_type_empty_rejected :
  forall (ty : expected_type) (content_type_header : pystr),
    validate_content_type [] ty content_type_header = false.
Proof. intros ty hdr. reflexivity. Qed.

(** Acceptance of a non-empty content, by the outcome of the first check. *)
Lemma validate_content_type_cases (content : bytes) ty hdr :
  content <> [] ->
  validate_content_type content ty hdr =
  match validate_by_magic_bytes content ty with
  | Raises => true
  | Returns true => true
  | Returns false =>
    validate_by_content_type_header hdr ty
    || (text_like ty && validate_text_content content ty)
  end.
Proof.
  intros Hne. unfold validate_content_type.
  destruct content as [|b bs]; [congruence|].
  destruct (validate_by_magic_bytes (b :: bs) ty) as [[|]|]; try reflexivity.
  destruct (validate_by_content_type_header hdr ty); [reflexivity|].
  destruct (text_like ty && validate_text_content (b :: bs) ty); reflexivity.
Qed.

(** A font candidate of 36 bytes without a known signature makes
    [struct.unpack] raise, and the validator accepts it. *)
Example validate_font_short_eot_accepted :
  let content := repeat 65 36 in
  validate_by_magic_bytes content Font = Raises
  /\ validate_content_type content Font [] = true.
Proof. split; reflexivity. Qed.

(** C3, as stated, fails on empty content: the header check succeeds for
    an empty stylesheet served as text/css, yet the validator rejects. *)
Lemma validate_iff_some_check_fails_on_empty :
  ~ (validate_content_type [] Css (py "text/css") = true
     <-> (some_check_succeeds [] Css (py "text/css")
          \/ validation_raises [] Css)).
Proof.
  intros [_ H].
  assert (Hc : some_check_succeeds [] Css (py "text/css")
               \/ validation_raises [] Css).
  { left. right. left. reflexivity. }
  specialize (H Hc). discriminate H.
Qed.

(** C3, amended.  Non-empty content is accepted if and only if one of the
    three checks succeeds (signature; Content-Type header; structure, for
    the css, javascript and text categories) or the validation raises; if
    no check succeeds and nothing raises it is rejected. *)
Theorem validate_content_type_accepts_iff :
  forall (content : bytes) (ty : expected_type) (content_type_header : pystr),
    content <> [] ->
    (validate_content_type content ty content_type_header = true
     <-> (some_check_succeeds content ty content_type_header
          \/ validation_raises content ty)).
Proof.
  intros content ty hdr Hne.
  rewrite (validate_content_type_cases content ty hdr Hne).
  unfold some_check_succeeds, validation_raises.
  destruct (validate_by_magic_bytes content ty) as [[|]|] eqn:Hm.
  - split; [intros _; left; left; reflexivity | reflexivity].
  - rewrite orb_true_iff, andb_true_iff. split.
    + intros [H|H]; left; right; [left|right]; assumption.
    + intros [[H|[H|H]]|H]; try discriminate H; [left|right]; assumption.
  - split; [intros _; right; reflexivity | reflexivity].
Qed.

Lemma validate_content_type_accepts_iff_witness :
  [0xFF; 0xD8; 0xFF; 0xE0] <> ([] : bytes)
  /\ (validate_content_type [0xFF; 0xD8; 0xFF; 0xE0] Image [] = true
      <-> (some_check_succeeds [0xFF; 0xD8; 0xFF; 0xE0] Image []
           \/ validation_raises [0xFF; 0xD8; 0xFF; 0xE0] Image)).
Proof.
  split; [discriminate|].
  apply (validate_content_type_accepts_iff [0xFF; 0xD8; 0xFF; 0xE0] Image []).
  discriminate.
Defined.

End ValidatorProps.

(** ** The asset cache *)

Module CacheProps.

Import Scraper Examples.



(** After a commit the URL (stripped of surrounding white space, and
    unless that leaves nothing) maps to the committed path. *)
Lemma cache_commit_lookup (st : scraper) (url p : pystr) :
  strip url <> [] ->
  asset_cache (cache_downloaded_asset st url p) !! strip url = Some p.
Proof.
  intros Hne. unfold cache_downloaded_asset.
  destruct (strip url) as [|c k] eqn:Hs; [congruence|].
  simpl. apply lookup_insert_eq.
Qed.

End CacheProps.

(** ** The fetch layer *)

Module FetchProps.

Import Urllib Url Scraper Examples.

Lemma gets_of_app url l1 l2 :
  gets_of url (l1 ++ l2) = (gets_of url l1 + gets_of url l2)%nat.
Proof. unfold gets_of. rewrite List.filter_app, length_app. reflexivity. Qed.

Lemma gets_of_get url : gets_of url [Get url] = 1%nat.
Proof.
  unfold gets_of. simpl. unfold eqb_str.
  rewrite bool_decide_eq_true_2 by reflexivity. reflexivity.
Qed.

Lemma gets_of_head_probe E url full_url : gets_of url (head_probe E full_url) = 0%nat.
Proof.
  unfold head_probe.
  destruct (generate_unique_filename _ _ _) as [fn|]; [|reflexivity].
  destruct (has_char c_dot fn); reflexivity.
Qed.

Lemma failed_once_record st st1 sent :
  download_failures st1 = download_failures st ->
  files st1 = files st ->
  asset_cache st1 = asset_cache st ->
  requests st1 = requests st ++ sent ->
  failed_once st sent (record_download_failure st1, None).
Proof.
  intros Hf Hfi Hc Hr. unfold failed_once; simpl. rewrite Hf.
  repeat split; assumption.
Qed.

Lemma fetch_failure_cases E full_url r :
  fetch_failure E full_url r = true ->
  r = ClientError \/ r = Timeout
  \/ exists status ct body, r = Reply status ct body
     /\ ((status =? 403) || (status =? 404) || (status =? 429) = true
         \/ exists ty,
              get_expected_content_type (netloc_rejected E) full_url = Returns ty
              /\ Validator.validate_content_type body ty (header_or_empty ct) = false).
Proof.
  unfold fetch_failure, reply_fails_immediately, reply_is_rejected.
  destruct r as [status ct body| |]; [|auto|auto].
  intros H. right; right. exists status, ct, body. split; [reflexivity|].
  apply orb_true_iff in H as [H|H]; [left; exact H|right].
  destruct (get_expected_content_type _ _) as [ty|]; [|discriminate].
  exists ty. split; [reflexivity|]. apply negb_true_iff in H. exact H.
Qed.

(** [_download_asset_async] on a failing reply. *)
Lemma download_asset_async_failure E st asset_url base_url banner_dir reply :
  let full_url := normalize_url' E asset_url (Some base_url) in
  asset_cache st !! full_url = None ->
  generate_unique_filename (netloc_rejected E) (md5_hexdigest E) full_url <> Raises ->
  fetch_failure E full_url reply = true ->
  http E (requests st) (Get full_url) = reply ->
  failed_once st [Get full_url]
    (download_asset_async E st asset_url base_url banner_dir).
Proof.
  intros full_url Hcache Hname Hfail Hreply.
  unfold download_asset_async. fold full_url. rewrite Hcache.
  destruct (generate_unique_filename _ _ full_url) as [fn|]; [|congruence].
  unfold send. rewrite Hreply.
  set (st1 := with_requests st (requests st ++ [Get full_url])).
  assert (Hrec : failed_once st [Get full_url] (record_download_failure st1, None))
    by (apply failed_once_record; reflexivity).
  apply fetch_failure_cases in Hfail
    as [->|[->|(status & ct & body & -> & Hst)]]; [exact Hrec|exact Hrec|].
  destruct (status =? 403) eqn:H403; [exact Hrec|].
  destruct (status =? 404) eqn:H404; [exact Hrec|].
  destruct (status =? 429) eqn:H429; [exact Hrec|].
  destruct (400 <=? status); [exact Hrec|].
  destruct Hst as [Hst|(ty & Hty & Hval)]; [discriminate Hst|].
  rewrite Hty, Hval. exact Hrec.
Qed.

(** [_download_asset] on a failing reply. *)
Lemma download_asset_failure E st asset_url base_url banner_dir reply :
  let full_url := normalize_url' E asset_url (Some base_url) in
  asset_cache st !! full_url = None ->
  generate_unique_filename (netloc_rejected E) (md5_hexdigest E) full_url <> Raises ->
  fetch_failure E full_url reply = true ->
  http E (requests st ++ head_probe E full_url) (Get full_url) = reply ->
  failed_once st (head_probe E full_url ++ [Get full_url])
    (download_asset E st asset_url base_url banner_dir).
Proof.
  intros full_url Hcache Hname Hfail Hreply.
  unfold download_asset. fold full_url. rewrite Hcache.
  unfold head_probe in *.
  destruct (generate_unique_filename _ _ full_url) as [fn|]; [|congruence].
  assert (Htail : forall stp fn' probe,
    download_failures stp = download_failures st ->
    files stp = files st -> asset_cache stp = asset_cache st ->
    requests stp = requests st ++ probe ->
    http E (requests st ++ probe) (Get full_url) = reply ->
    failed_once st (probe ++ [Get full_url])
      (let assets_dir := get_asset_directory stp banner_dir in
       let filename := unique_name stp assets_dir fn' in
       let local_path := path_join assets_dir filename in
       let '(st, reply) := send E stp (Get full_url) in
       match reply with
       | ClientError => (record_download_failure st, None)
       | Timeout => (record_download_failure st, None)
       | Reply status content_type content =>
         if status =? 403 then (record_download_failure st, None)
         else if status =? 404 then (record_download_failure st, None)
         else if status =? 429 then (record_download_failure st, None)
         else if requests_status_error status then (record_download_failure st, None)
         else
           match get_expected_content_type (netloc_rejected E) full_url with
           | Raises => (record_download_failure st, None)
           | Returns expected_type =>
             if negb (Validator.validate_content_type content expected_type
                        (header_or_empty content_type))
             then (record_download_failure st, None)
             else if write_fails E local_path
             then (record_download_failure st, None)
             else
               let st := with_files st (<[local_path := Binary content]> (files st)) in
               let relative_path := get_asset_path_prefix st ++ filename in
               let st := cache_downloaded_asset st full_url relative_path in
               let st := save_global_asset_cache E st in
               (st, Some relative_path)
           end
       end)).
  { intros stp fn' probe Hp1 Hp2 Hp3 Hp4 Hr. cbv zeta. unfold send.
    rewrite Hp4, Hr.
    set (st1 := with_requests stp ((requests st ++ probe) ++ [Get full_url])).
    assert (Hrec : failed_once st (probe ++ [Get full_url])
                     (record_download_failure st1, None)).
    { apply failed_once_record; subst st1; simpl; try assumption.
      symmetry. apply app_assoc. }
    apply fetch_failure_cases in Hfail
      as [->|[->|(status & ct & body & -> & Hst)]]; [exact Hrec|exact Hrec|].
    destruct (status =? 403) eqn:H403; [exact Hrec|].
    destruct (status =? 404) eqn:H404; [exact Hrec|].
    destruct (status =? 429) eqn:H429; [exact Hrec|].
    destruct (requests_status_error status); [exact Hrec|].
    destruct Hst as [Hst|(ty & Hty & Hval)]; [discriminate Hst|].
    rewrite Hty, Hval. exact Hrec. }
  destruct (has_char c_dot fn).
  - apply (Htail st fn []); auto. rewrite app_nil_r. reflexivity.
  - unfold send at 1.
    destruct (http E (requests st) (Head full_url)) as [s ct b| |];
      [cbv zeta; destruct (guess_extension E _) as [[|c ext]|]| |];
      apply (Htail _ _ [Head full_url]); auto.
Qed.

(** C6.  A fetch whose request is answered by status 403, 404 or 429, by
    a connection error or a timeout, or by a body the validator rejects,
    returns no local path, adds exactly one to the failure counter, writes
    no file, commits no cache entry and sends its GET once; this holds for
    the asynchronous and for the sequential fetch (which may first send a
    HEAD to find an extension for the file name). *)
Theorem fetch_failure_reported_once :
  forall (E : env) (st : scraper) (asset_url base_url banner_dir : pystr)
         (reply : http_reply),
    let full_url := normalize_url' E asset_url (Some base_url) in
    asset_cache st !! full_url = None ->
    generate_unique_filename (netloc_rejected E) (md5_hexdigest E) full_url
      <> Raises ->
    fetch_failure E full_url reply = true ->
    (http E (requests st) (Get full_url) = reply ->
     let r := download_asset_async E st asset_url base_url banner_dir in
     failed_once st [Get full_url] r
     /\ gets_of full_url (requests (fst r)) = S (gets_of full_url (requests st)))
    /\ (http E (requests st ++ head_probe E full_url) (Get full_url) = reply ->
        let r := download_asset E st asset_url base_url banner_dir in
        failed_once st (head_probe E full_url ++ [Get full_url]) r
        /\ gets_of full_url (requests (fst r)) = S (gets_of full_url (requests st))).
Proof.
  intros E st asset_url base_url banner_dir reply full_url Hcache Hname Hfail.
  split; intros Hreply r; subst r.
  - pose proof (download_asset_async_failure E st asset_url base_url banner_dir
                  reply Hcache Hname Hfail Hreply) as H.
    split; [exact H|]. destruct H as (_ & _ & _ & _ & ->).
    rewrite gets_of_app, gets_of_get. lia.
  - pose proof (download_asset_failure E st asset_url base_url banner_dir
                  reply Hcache Hname Hfail Hreply) as H.
    split; [exact H|]. destruct H as (_ & _ & _ & _ & ->).
    rewrite !gets_of_app, gets_of_get, gets_of_head_probe. lia.
Qed.

Lemma fetch_failure_reported_once_witness :
  let E := world (Reply 404 (Some (py "text/html")) (py "not found")) in
  let st := fresh_scraper true in
  let url := py "https://example.com/a.png" in
  let r := download_asset_async E st url [] (py "out/banner") in
  failed_once st [Get url] r
  /\ gets_of url (requests (fst r)) = S (gets_of url (requests st)).
Proof.
  intros E st url.
  apply (fetch_failure_reported_once E st url [] (py "out/banner")
           (Reply 404 (Some (py "text/html")) (py "not found"))).
  - vm_compute. reflexivity.
  - vm_compute. discriminate.
  - vm_compute. reflexivity.
  - vm_compute. reflexivity.
Defined.

(** The parallel batch counts the fetches that returned nothing once
    more after they have all finished, so a failed fetch of a batch adds
    two to the counter of the attempt: one in the fetch, one in the batch.
    The attempt only tests the counter against zero. *)
Example parallel_batch_counts_failure_again :
  let E := world (Reply 404 None []) in
  let url := py "https://example.com/a.png" in
  let r := download_assets_parallel E (fresh_scraper true) [url] []
             (py "out/banner") in
  snd r = []
  /\ gets_of url (requests (fst r)) = 1%nat
  /\ download_failures (fst r) = 2%nat.
Proof. vm_compute. repeat split. Qed.

End FetchProps.

(** ** The attempt controller *)

Module ControllerProps.

Import Urllib Url Scraper Examples.

Lemma fold_left_fixed {A B} (f : A -> B -> A) (l : list B) (a : A) :
  (forall x, In x l -> f a x = a) -> fold_left f l a = a.
Proof.
  induction l as [|x l IH]; intros H; simpl; [reflexivity|].
  rewrite (H x) by (left; reflexivity). apply IH.
  intros y Hy. apply H. right. exact Hy.
Qed.

Lemma combine_seq_lookup {A} (l : list A) (start i : nat) (x : A) :
  In (i, x) (combine (seq start (length l)) l) ->
  (start <= i)%nat /\ l !! (i - start)%nat = Some x.
Proof.
  revert start. induction l as [|y l IH]; intros start; simpl; [tauto|].
  intros [H|H].
  - inversion H; subst. split; [lia|]. rewrite Nat.sub_diag. reflexivity.
  - apply IH in H as [Hle Hl]. split; [lia|].
    replace (i - start)%nat with (S (i - S start)) by lia. exact Hl.
Qed.

Lemma find_all_lookup tag_name (s : soup) i e :
  In (i, e) (find_all tag_name s) -> s !! i = Some e.
Proof.
  unfold find_all. intros H. apply List.filter_In in H as [H _].
  apply combine_seq_lookup in H as [_ H]. rewrite Nat.sub_0_r in H. exact H.
Qed.

Lemma attribute_sites_lookup table (s : soup) i e attr :
  In (i, e, attr) (attribute_sites table s) -> s !! i = Some e.
Proof.
  unfold attribute_sites. intros H.
  apply in_flat_map in H as (ta & _ & H).
  apply in_flat_map in H as ([j e'] & Hie & H).
  apply in_map_iff in H as (a & Heq & _). simpl in Heq.
  inversion Heq; subst. eapply find_all_lookup. exact Hie.
Qed.

Lemma attribute_sites_parallel_sequential (s : soup) site :
  In site (attribute_sites url_attributes_parallel s) ->
  In site (attribute_sites url_attributes_sequential s).
Proof.
  unfold attribute_sites. intros H.
  apply in_flat_map in H as (ta & Hta & H).
  apply in_flat_map. exists ta. split; [|exact H].
  simpl in Hta |- *. intuition.
Qed.

Section NoReferences.

Variable E : env.
Variable s : soup.
Hypothesis Hnone : no_external_references s = true.

Lemma no_site_is_reference site :
  In site (attribute_sites url_attributes_sequential s) ->
  site_is_reference site = false.
Proof.
  intros Hin. unfold no_external_references in Hnone.
  apply andb_true_iff in Hnone as [H _].
  rewrite forallb_forall in H. apply negb_true_iff. apply H. exact Hin.
Qed.

Lemma no_stylesheet_is_reference link :
  In link (find_stylesheets s) -> stylesheet_is_reference link = false.
Proof.
  intros Hin. unfold no_external_references in Hnone.
  apply andb_true_iff in Hnone as [_ H].
  rewrite forallb_forall in H. apply negb_true_iff. apply H. exact Hin.
Qed.

Lemma collect_all_assets_none st base_url :
  collect_all_assets E st s base_url = (st, []).
Proof.
  unfold collect_all_assets.
  rewrite (fold_left_fixed (collect_site E base_url)).
  - apply fold_left_fixed. intros link Hin.
    pose proof (no_stylesheet_is_reference link Hin) as H.
    unfold stylesheet_is_reference in H. unfold collect_stylesheet.
    destruct (get_attr (snd link) (py "href")) as [[|c h]|];
      [reflexivity|discriminate H|reflexivity].
  - intros [[i e] attr] Hin.
    apply attribute_sites_parallel_sequential in Hin.
    pose proof (no_site_is_reference _ Hin) as H.
    unfold site_is_reference in H; simpl in H. unfold collect_site.
    destruct (get_attr e attr) as [u|]; [|reflexivity].
    apply negb_false_iff in H. rewrite H. reflexivity.
Qed.

Lemma attempt_parallel_none st url banner_dir :
  attempt_parallel E st s url banner_dir = (st, s, []).
Proof.
  unfold attempt_parallel. rewrite collect_all_assets_none. reflexivity.
Qed.

Lemma normalize_urls_in_html_none st base_url banner_dir :
  normalize_urls_in_html E st s base_url banner_dir = (st, s, Returns []).
Proof.
  unfold normalize_urls_in_html.
  rewrite (fold_left_fixed (download_site E base_url banner_dir)).
  - rewrite (fold_left_fixed (process_stylesheet E base_url banner_dir));
      [reflexivity|].
    intros link Hin. pose proof (no_stylesheet_is_reference link Hin) as H.
    unfold stylesheet_is_reference in H. unfold process_stylesheet.
    destruct (get_attr (snd link) (py "href")) as [[|c h]|];
      [reflexivity|discriminate H|reflexivity].
  - intros [[i e] attr] Hin.
    pose proof (no_site_is_reference _ Hin) as H.
    unfold site_is_reference in H; simpl in H. unfold download_site.
    rewrite (attribute_sites_lookup _ _ _ _ _ Hin).
    destruct (eqb_str (tag e) (py "link") && is_stylesheet_link e); [reflexivity|].
    destruct (get_attr e attr) as [u|]; [|reflexivity].
    apply negb_false_iff in H. rewrite H. reflexivity.
Qed.

Lemma attempt_none st url banner_dir :
  attempt E st s url banner_dir
  = (reset_download_failure_tracking st, s, Returns true).
Proof.
  unfold attempt.
  destruct (parallel_downloads (reset_download_failure_tracking st)).
  - rewrite attempt_parallel_none. reflexivity.
  - rewrite normalize_urls_in_html_none. reflexivity.
Qed.

End NoReferences.

(** C8, as stated, fails in its last part: for a markup without any
    element the capture completes and no manifest exists afterwards. *)
Lemma no_references_no_manifest_written :
  let E := world ClientError in
  let banner_dir := py "out/banner/300x250" in
  let r := download_assets_with_retry E 3 (fresh_scraper true) []
             (py "https://example.com/banner/index.html") banner_dir in
  snd r = true
  /\ files (fst (fst r)) !! manifest_path banner_dir <> Some (JsonObject []).
Proof. vm_compute. split; [reflexivity|discriminate]. Qed.

(** C8, amended.  A capture whose markup has no external reference
    completes at its first attempt, in both download modes, without any
    request; it writes no file, so no manifest is written for it, and the
    document is left as it was. *)
Theorem no_references_complete_without_fetch :
  forall (E : env) (max_retries : nat) (st : scraper) (s : soup)
         (url banner_dir : pystr),
    no_external_references s = true ->
    (0 < max_retries)%nat ->
    let r := download_assets_with_retry E max_retries st s url banner_dir in
    snd r = true
    /\ requests (fst (fst r)) = requests st
    /\ files (fst (fst r)) = files st
    /\ asset_cache (fst (fst r)) = asset_cache st
    /\ snd (fst r) = s.
Proof.
  intros E max_retries st s url banner_dir Hnone Hpos r. subst r.
  destruct max_retries as [|n]; [lia|].
  simpl. rewrite (attempt_none E s Hnone). simpl. repeat split; reflexivity.
Qed.

Lemma no_references_complete_without_fetch_witness :
  let E := world ClientError in
  let st := fresh_scraper false in
  let s := [img "data:image/png;base64,AAAA"] in
  let r := download_assets_with_retry E 3 st s (py "https://example.com/")
             (py "out/banner") in
  snd r = true
  /\ requests (fst (fst r)) = requests st
  /\ files (fst (fst r)) = files st
  /\ asset_cache (fst (fst r)) = asset_cache st
  /\ snd (fst r) = s.
Proof.
  intros E st s.
  apply (no_references_complete_without_fetch E 3 st s (py "https://example.com/")
           (py "out/banner")).
  - vm_compute. reflexivity.
  - lia.
Defined.

End ControllerProps.

(** ** Dictionaries *)

Module DictProps.

Section DictProps.

Context {V : Type}.
Implicit Types (d : Dict.t V) (k : pystr) (v : V).

Lemma mem_keys k d : Dict.mem k d = true <-> In k (Dict.keys d).
Proof.
  unfold Dict.mem. induction d as [|[k' v'] d IH]; simpl.
  - split; [discriminate|tauto].
  - destruct (bool_decide (k' = k)) eqn:Hk.
    + apply bool_decide_eq_true in Hk. split; [intros _; left; exact Hk|reflexivity].
    + apply bool_decide_eq_false in Hk. rewrite IH. split; [tauto|].
      intros [H|H]; [contradiction|exact H].
Qed.

Lemma keys_set k v d :
  Dict.keys (Dict.set k v d)
  = if Dict.mem k d then Dict.keys d else Dict.keys d ++ [k].
Proof.
  unfold Dict.mem. induction d as [|[k' v'] d IH]; simpl; [reflexivity|].
  destruct (bool_decide (k' = k)) eqn:Hk; simpl.
  - apply bool_decide_eq_true in Hk. subst. reflexivity.
  - rewrite IH. destruct (Dict.get k d); reflexivity.
Qed.

Lemma length_set k v d :
  length (Dict.set k v d)
  = if Dict.mem k d then length d else S (length d).
Proof.
  pose proof (keys_set k v d) as H. apply (f_equal (@length _)) in H.
  unfold Dict.keys in H. rewrite length_map in H. rewrite H.
  destruct (Dict.mem k d); rewrite ?length_app, length_map; simpl; lia.
Qed.

Lemma keys_nodup_set k v d :
  NoDup (Dict.keys d) -> NoDup (Dict.keys (Dict.set k v d)).
Proof.
  intros Hd. rewrite keys_set. destruct (Dict.mem k d) eqn:Hm; [exact Hd|].
  apply NoDup_app. split; [exact Hd|]. split; [|apply NoDup_singleton].
  intros x Hx Hx'. apply list_elem_of_In in Hx, Hx'.
  destruct Hx' as [<-|[]]. apply mem_keys in Hx. congruence.
Qed.

End DictProps.

End DictProps.

(** ** The unified pass *)

Module UnifiedProps.

Import Urllib Url Scraper Examples DictProps.

Section Collect.

Variable E : env.

Lemma update_entry_keys k f (d : Dict.t asset_info) :
  Dict.keys (update_entry k f d) = Dict.keys d.
Proof.
  unfold update_entry. destruct (Dict.get k d) eqn:Hg; [|reflexivity].
  rewrite keys_set. unfold Dict.mem. rewrite Hg. reflexivity.
Qed.

Lemma set_default_keys k v (d : Dict.t asset_info) :
  Dict.keys (set_default k v d)
  = if Dict.mem k d then Dict.keys d else Dict.keys d ++ [k].
Proof.
  unfold set_default. destruct (Dict.mem k d) eqn:Hm; [reflexivity|].
  rewrite keys_set, Hm. reflexivity.
Qed.

Lemma set_default_mem k v (d : Dict.t asset_info) :
  In k (Dict.keys (set_default k v d)).
Proof.
  rewrite set_default_keys. destruct (Dict.mem k d) eqn:Hm.
  - apply mem_keys. exact Hm.
  - apply in_or_app. right. left. reflexivity.
Qed.

Lemma extends_refl d : extends d d.
Proof. split; auto. Qed.

Lemma extends_trans d1 d2 d3 : extends d1 d2 -> extends d2 d3 -> extends d1 d3.
Proof. intros [A B] [C D]. split; auto. Qed.

Lemma extends_update_entry k f d : extends d (update_entry k f d).
Proof. unfold extends. rewrite update_entry_keys. auto. Qed.

Lemma extends_set_default k v d : extends d (set_default k v d).
Proof.
  unfold extends. rewrite set_default_keys.
  destruct (Dict.mem k d) eqn:Hm; [auto|]. split.
  - intros x Hx. apply in_or_app. left. exact Hx.
  - intros Hd. apply NoDup_app. split; [exact Hd|].
    split; [|apply NoDup_singleton].
    intros x Hx Hx'. apply list_elem_of_In in Hx, Hx'.
    destruct Hx' as [<-|[]]. apply mem_keys in Hx. congruence.
Qed.

Lemma extends_collect_site base_url d site :
  extends d (collect_site E base_url d site).
Proof.
  destruct site as [[i e] attr]. unfold collect_site.
  destruct (get_attr e attr) as [u|]; [|apply extends_refl].
  destruct (non_fetchable u); [apply extends_refl|].
  eapply extends_trans; [apply extends_set_default|apply extends_update_entry].
Qed.

Lemma extends_collect_css_refs css matches n d :
  extends d (collect_css_refs E css matches n d).
Proof.
  revert n d. induction matches as [|m ms IH]; intros n d;
    cbn [collect_css_refs]; [apply extends_refl|].
  eapply extends_trans; [|apply IH].
  destruct (startswith_any [py "data:"; py "#"] m); [apply extends_refl|].
  eapply extends_trans; [apply extends_set_default|apply extends_update_entry].
Qed.

Lemma extends_collect_stylesheet base_url st d link :
  extends d (snd (collect_stylesheet E base_url (st, d) link)).
Proof.
  unfold collect_stylesheet.
  destruct (get_attr (snd link) (py "href")) as [[|c h]|]; try apply extends_refl.
  unfold send.
  destruct (http E (requests st) _) as [status ct body| |]; simpl.
  - destruct (requests_status_error status); simpl.
    + eapply extends_trans; [apply extends_set_default|apply extends_update_entry].
    + eapply extends_trans; [apply extends_set_default|].
      eapply extends_trans; [apply extends_update_entry|].
      apply extends_collect_css_refs.
  - eapply extends_trans; [apply extends_set_default|apply extends_update_entry].
  - eapply extends_trans; [apply extends_set_default|apply extends_update_entry].
Qed.

Lemma extends_fold_sites base_url sites d :
  extends d (fold_left (collect_site E base_url) sites d).
Proof.
  revert d. induction sites as [|x l IH]; intros d; cbn [fold_left];
    [apply extends_refl|].
  eapply extends_trans; [apply extends_collect_site|apply IH].
Qed.

Lemma extends_fold_stylesheets base_url links st d :
  extends d (snd (fold_left (collect_stylesheet E base_url) links (st, d))).
Proof.
  revert st d. induction links as [|x l IH]; intros st d; cbn [fold_left];
    [apply extends_refl|].
  destruct (collect_stylesheet E base_url (st, d) x) as [st' d'] eqn:Hc.
  eapply extends_trans; [|apply IH].
  pose proof (extends_collect_stylesheet base_url st d x) as H.
  rewrite Hc in H. exact H.
Qed.

(** The collection has one entry per canonical URL. *)
Lemma collect_all_assets_keys_nodup st s base_url :
  NoDup (Dict.keys (snd (collect_all_assets E st s base_url))).
Proof.
  unfold collect_all_assets.
  apply (extends_fold_stylesheets base_url). apply (extends_fold_sites base_url).
  apply NoDup_nil_2.
Qed.

Lemma collect_site_covers base_url d i e attr u :
  get_attr e attr = Some u -> non_fetchable u = false ->
  In (normalize_url' E u (Some base_url))
     (Dict.keys (collect_site E base_url d (i, e, attr))).
Proof.
  intros Hu Hf. unfold collect_site. rewrite Hu, Hf.
  rewrite update_entry_keys. apply set_default_mem.
Qed.

Lemma fold_sites_covers base_url sites d i e attr u :
  In (i, e, attr) sites ->
  get_attr e attr = Some u -> non_fetchable u = false ->
  In (normalize_url' E u (Some base_url))
     (Dict.keys (fold_left (collect_site E base_url) sites d)).
Proof.
  revert d. induction sites as [|x l IH]; intros d Hin Hu Hf; [destruct Hin|].
  cbn [fold_left]. destruct Hin as [->|Hin].
  - apply (extends_fold_sites base_url). apply collect_site_covers; assumption.
  - apply IH; assumption.
Qed.

(** Every reference of an HTML element is filed under its canonical URL. *)
Lemma collect_all_assets_covers st s base_url i e attr u :
  In (i, e, attr) (attribute_sites url_attributes_parallel s) ->
  get_attr e attr = Some u -> non_fetchable u = false ->
  In (normalize_url' E u (Some base_url))
     (Dict.keys (snd (collect_all_assets E st s base_url))).
Proof.
  intros Hin Hu Hf. unfold collect_all_assets.
  apply (extends_fold_stylesheets base_url).
  eapply fold_sites_covers; eassumption.
Qed.

End Collect.

Lemma sublist_list_filter {A} (f : A -> bool) (l : list A) :
  sublist (List.filter f l) l.
Proof.
  induction l as [|x l IH]; simpl; [constructor|].
  destruct (f x); [apply sublist_skip|apply sublist_cons]; exact IH.
Qed.

Section Download.

Variable E : env.

Lemma requests_record_failures n st :
  requests (record_failures n st) = requests st.
Proof. revert st. induction n as [|n IH]; intros st; simpl; [|rewrite IH]; reflexivity. Qed.

Lemma requests_save_global_asset_cache st :
  requests (save_global_asset_cache E st) = requests st.
Proof.
  unfold save_global_asset_cache.
  destruct (global_assets st); [|reflexivity].
  destruct (write_fails E _); reflexivity.
Qed.

Lemma requests_cache_downloaded_asset st url p :
  requests (cache_downloaded_asset st url p) = requests st.
Proof. unfold cache_downloaded_asset. destruct (strip url); reflexivity. Qed.

(** A fetch whose canonical URL is in the cache returns the cached path
    and does nothing else. *)
Lemma download_asset_async_cached st asset_url base_url banner_dir p :
  asset_cache st !! normalize_url' E asset_url (Some base_url) = Some p ->
  download_asset_async E st asset_url base_url banner_dir = (st, Some p).
Proof. intros H. unfold download_asset_async. rewrite H. reflexivity. Qed.

(** One fetch sends nothing, or one GET for the canonical URL. *)
Lemma download_asset_async_requests st asset_url base_url banner_dir :
  let full_url := normalize_url' E asset_url (Some base_url) in
  let r := download_asset_async E st asset_url base_url banner_dir in
  requests (fst r) = requests st
  \/ requests (fst r) = requests st ++ [Get full_url].
Proof.
  intros full_url r. subst r. unfold download_asset_async. fold full_url.
  destruct (asset_cache st !! full_url); [left; reflexivity|].
  destruct (generate_unique_filename _ _ full_url); [|left; reflexivity].
  unfold send. right.
  destruct (http E (requests st) (Get full_url)) as [status ct body| |];
    try reflexivity.
  repeat match goal with
         | |- context [if ?b then _ else _] => destruct b; try reflexivity
         | |- context [match ?x with Returns _ => _ | Raises => _ end] =>
           destruct x; try reflexivity
         end.
  cbn [fst]. rewrite requests_cache_downloaded_asset. reflexivity.
Qed.

(** A task run alone, its steps one after the other, is the call of
    [_download_asset_async]. *)
Lemma download_asset_async_steps st asset_url base_url banner_dir :
  download_asset_async E st asset_url base_url banner_dir
  = match task_start E st asset_url base_url banner_dir with
    | (st1, inl r) => (st1, r)
    | (st1, inr t) =>
      match task_resume E st1 t with
      | (st2, inl r) => (st2, r)
      | (st2, inr t') =>
        match task_resume E st2 t' with
        | (st3, inl r) => (st3, r)
        | (st3, inr _) => (st3, None)
        end
      end
    end.
Proof.
  unfold download_asset_async, task_start.
  destruct (asset_cache st !! _); [reflexivity|].
  destruct (generate_unique_filename _ _ _); [|reflexivity].
  unfold send. cbv zeta. unfold task_resume at 1.
  cbn [task_stage_of task_full_url task_local_path task_relative_path].
  destruct (http E (requests st) _) as [status ct body| |]; try reflexivity.
  repeat match goal with
         | |- context [if ?b then _ else _] => destruct b; try reflexivity
         | |- context [match ?x with Returns _ => _ | Raises => _ end] =>
           destruct x; try reflexivity
         end.
Qed.

(** The first step of a task sends nothing, or one GET for the canonical
    URL; the later steps send nothing. *)
Lemma task_start_requests st asset_url base_url banner_dir :
  let r := task_start E st asset_url base_url banner_dir in
  requests (fst r) = requests st
  \/ requests (fst r)
     = requests st ++ [Get (normalize_url' E asset_url (Some base_url))].
Proof.
  cbv zeta. unfold task_start.
  destruct (asset_cache st !! _); [left; reflexivity|].
  destruct (generate_unique_filename _ _ _); [|left; reflexivity].
  right. reflexivity.
Qed.

Lemma task_resume_requests st t :
  requests (fst (task_resume E st t)) = requests st.
Proof.
  unfold task_resume. destruct (task_stage_of t) as [reply|].
  - destruct reply as [status ct body| |]; try reflexivity.
    repeat match goal with
           | |- context [if ?b then _ else _] => destruct b; try reflexivity
           | |- context [match ?x with Returns _ => _ | Raises => _ end] =>
             destruct x; try reflexivity
           end.
  - cbn [fst]. apply requests_cache_downloaded_asset.
Qed.

Lemma start_task_requests st0 urls base_url banner_dir b i b' :
  start_task E base_url banner_dir b i = Some b' ->
  requests_so_far E st0 urls base_url b -> requests_so_far E st0 urls base_url b'.
Proof.
  unfold start_task. intros Hs (fetched & Hsub & Hreq).
  destruct (length (running b) <? max_concurrent)%nat; [|discriminate].
  destruct (waiting b !! i) as [url|] eqn:Hi; [|discriminate].
  pose proof (task_start_requests (batch_state b) url base_url banner_dir)
    as Hone. cbv zeta in Hone.
  destruct (task_start E (batch_state b) url base_url banner_dir) as [st r].
  cbn [fst] in Hone.
  pose proof (delete_Permutation (waiting b) i url Hi) as Hperm.
  assert (Hw : forall r', waiting
             (match r' with
              | inl local_path =>
                {| batch_state := st; waiting := delete i (waiting b);
                   running := running b;
                   batch_downloaded :=
                     record_result url local_path (batch_downloaded b) |}
              | inr t =>
                {| batch_state := st; waiting := delete i (waiting b);
                   running := running b ++ [t];
                   batch_downloaded := batch_downloaded b |}
              end) = delete i (waiting b))
    by (intros [?|?]; reflexivity).
  assert (Hst : forall r', batch_state
             (match r' with
              | inl local_path =>
                {| batch_state := st; waiting := delete i (waiting b);
                   running := running b;
                   batch_downloaded :=
                     record_result url local_path (batch_downloaded b) |}
              | inr t =>
                {| batch_state := st; waiting := delete i (waiting b);
                   running := running b ++ [t];
                   batch_downloaded := batch_downloaded b |}
              end) = st)
    by (intros [?|?]; reflexivity).
  injection Hs as <-. unfold requests_so_far. rewrite Hw, Hst.
  destruct Hone as [H1|H1].
  - exists fetched. split; [|rewrite H1; exact Hreq].
    etransitivity; [|exact Hsub]. apply submseteq_app; [reflexivity|].
    apply sublist_submseteq, sublist_delete.
  - exists (fetched ++ [url]). split.
    + etransitivity; [|exact Hsub]. rewrite <- app_assoc. cbn [app].
      apply submseteq_app; [reflexivity|].
      apply Permutation_submseteq. symmetry. exact Hperm.
    + rewrite H1, Hreq, List.map_app, <- app_assoc. reflexivity.
Qed.

Lemma resume_task_requests st0 urls base_url b i b' :
  resume_task E b i = Some b' ->
  requests_so_far E st0 urls base_url b -> requests_so_far E st0 urls base_url b'.
Proof.
  unfold resume_task. intros Hs (fetched & Hsub & Hreq).
  destruct (running b !! i) as [t|]; [|discriminate].
  pose proof (task_resume_requests (batch_state b) t) as Hone.
  destruct (task_resume E (batch_state b) t) as [st r]. cbn [fst] in Hone.
  injection Hs as <-. exists fetched.
  destruct r; cbn [waiting batch_state]; (split; [exact Hsub|]);
    rewrite Hone; exact Hreq.
Qed.

Lemma step_requests st0 urls base_url banner_dir a b :
  requests_so_far E st0 urls base_url b ->
  requests_so_far E st0 urls base_url (step E base_url banner_dir a b).
Proof.
  intros H. unfold step.
  destruct (match a with
            | Start i => start_task E base_url banner_dir b i
            | Resume i => resume_task E b i
            end) as [b'|] eqn:Ha.
  - destruct a; [eapply start_task_requests|eapply resume_task_requests];
      eassumption.
  - destruct (resume_task E b 0) as [b'|] eqn:Hr;
      [eapply resume_task_requests; eassumption|].
    destruct (start_task E base_url banner_dir b 0) as [b'|] eqn:Hs;
      [eapply start_task_requests; eassumption|exact H].
Qed.

Lemma run_tasks_requests st0 urls base_url banner_dir choice fuel :
  forall n b,
    requests_so_far E st0 urls base_url b ->
    requests_so_far E st0 urls base_url
      (run_tasks E fuel choice n base_url banner_dir b).
Proof.
  induction fuel as [|fuel IH]; intros n b H; [exact H|].
  cbn [run_tasks].
  destruct (waiting b) as [|w ws] eqn:Hw, (running b) as [|t ts] eqn:Hr;
    try exact H; apply IH, step_requests, H.
Qed.

(** The tasks of one batch send one GET each for some of the URLs they
    were given, whatever the order in which they run. *)
Lemma download_each_requests urls : forall st base_url banner_dir acc,
  exists fetched,
    fetched ⊆+ urls
    /\ requests (fst (download_each E st urls base_url banner_dir acc))
       = requests st
         ++ List.map (fun k => Get (normalize_url' E k (Some base_url))) fetched.
Proof.
  intros st base_url banner_dir acc. unfold download_each. cbn [fst].
  destruct (run_tasks_requests st urls base_url banner_dir
              (schedule E (requests st)) (3 * length urls) 0
              {| batch_state := st; waiting := urls; running := [];
                 batch_downloaded := acc |})
    as (fetched & Hsub & Hreq).
  { exists []. split; [reflexivity|]. cbn. rewrite app_nil_r. reflexivity. }
  exists fetched. split; [|exact Hreq].
  etransitivity; [|exact Hsub]. apply submseteq_inserts_r. reflexivity.
Qed.

(** *** The loop ends *)

Lemma list_sum_cons (a : nat) (r : list nat) :
  list_sum (a :: r) = (a + list_sum r)%nat.
Proof. reflexivity. Qed.

Lemma list_sum_delete (l : list task) i t :
  l !! i = Some t ->
  list_sum (List.map steps_left l)
  = (steps_left t + list_sum (List.map steps_left (delete i l)))%nat.
Proof.
  revert i. induction l as [|x l IH]; intros [|i] H; try discriminate.
  - injection H as ->. reflexivity.
  - change (delete (S i) (x :: l)) with (x :: delete i l).
    change (l !! i = Some t) in H. cbn [List.map].
    rewrite !list_sum_cons, (IH i H). lia.
Qed.

Lemma list_sum_insert (l : list task) i t t' :
  l !! i = Some t ->
  (list_sum (List.map steps_left (<[i := t']> l)) + steps_left t
   = list_sum (List.map steps_left l) + steps_left t')%nat.
Proof.
  revert i. induction l as [|x l IH]; intros [|i] H; try discriminate.
  - injection H as ->. change (<[0%nat := t']> (t :: l)) with (t' :: l).
    cbn [List.map]. rewrite !list_sum_cons. lia.
  - change (<[S i := t']> (x :: l)) with (x :: <[i := t']> l).
    change (l !! i = Some t) in H. cbn [List.map].
    rewrite !list_sum_cons. specialize (IH i H). lia.
Qed.

Lemma steps_left_pos t : (1 <= steps_left t)%nat.
Proof. unfold steps_left. destruct (task_stage_of t); lia. Qed.

Lemma task_start_steps st asset_url base_url banner_dir st' t :
  task_start E st asset_url base_url banner_dir = (st', inr t) ->
  steps_left t = 2%nat.
Proof.
  unfold task_start.
  destruct (asset_cache st !! _); [discriminate|].
  destruct (generate_unique_filename _ _ _); [|discriminate].
  unfold send. cbv zeta. intros [= _ <-]. reflexivity.
Qed.

Lemma task_resume_steps st t st' t' :
  task_resume E st t = (st', inr t') ->
  (S (steps_left t') = steps_left t)%nat.
Proof.
  unfold task_resume. intros H.
  assert (Hst : steps_left t = 2%nat /\ steps_left t' = 1%nat); [|lia].
  unfold steps_left at 1.
  destruct (task_stage_of t) as [reply|]; [|discriminate].
  split; [reflexivity|].
  destruct reply as [status ct body| |]; try discriminate.
  repeat match type of H with
         | context [if ?b then _ else _] => destruct b; try discriminate
         | context [match ?x with Returns _ => _ | Raises => _ end] =>
           destruct x; try discriminate
         end.
  injection H as _ <-. reflexivity.
Qed.

Lemma start_task_work base_url banner_dir b i b' :
  start_task E base_url banner_dir b i = Some b' ->
  (work_left b' < work_left b)%nat.
Proof.
  unfold start_task.
  destruct (length (running b) <? max_concurrent)%nat; [|discriminate].
  destruct (waiting b !! i) as [url|] eqn:Hi; [|discriminate].
  pose proof (length_delete (waiting b) i (mk_is_Some _ _ Hi)) as Hlen.
  pose proof (lookup_lt_Some _ _ _ Hi) as Hlt.
  destruct (task_start E (batch_state b) url base_url banner_dir)
    as [st [r|t]] eqn:Hs; intros [= <-]; unfold work_left;
    cbn [waiting running].
  - rewrite Hlen. lia.
  - rewrite Hlen, List.map_app, list_sum_app.
    change (list_sum (List.map steps_left [t])) with (steps_left t + 0)%nat.
    rewrite (task_start_steps _ _ _ _ _ _ Hs). lia.
Qed.

Lemma resume_task_work b i b' :
  resume_task E b i = Some b' -> (work_left b' < work_left b)%nat.
Proof.
  unfold resume_task.
  destruct (running b !! i) as [t|] eqn:Hi; [|discriminate].
  destruct (task_resume E (batch_state b) t) as [st [r|t']] eqn:Hs;
    intros [= <-]; unfold work_left; cbn [waiting running].
  - rewrite (list_sum_delete _ _ _ Hi). pose proof (steps_left_pos t). lia.
  - pose proof (list_sum_insert _ _ _ t' Hi) as Hsum.
    pose proof (task_resume_steps _ _ _ _ Hs). lia.
Qed.

Lemma step_work base_url banner_dir a b :
  (0 < work_left b)%nat ->
  (work_left (step E base_url banner_dir a b) < work_left b)%nat.
Proof.
  intros Hpos. unfold step.
  destruct (match a with
            | Start i => start_task E base_url banner_dir b i
            | Resume i => resume_task E b i
            end) as [b'|] eqn:Ha.
  - destruct a; [eapply start_task_work|eapply resume_task_work]; eassumption.
  - destruct (resume_task E b 0) as [b'|] eqn:Hr;
      [eapply resume_task_work; eassumption|].
    destruct (start_task E base_url banner_dir b 0) as [b'|] eqn:Hs;
      [eapply start_task_work; eassumption|].
    exfalso. unfold resume_task in Hr. unfold start_task in Hs.
    destruct (running b) as [|t ts] eqn:Hrun.
    + cbn in Hs. destruct (waiting b) as [|u us] eqn:Hw.
      * unfold work_left in Hpos. rewrite Hw, Hrun in Hpos. cbn in Hpos. lia.
      * cbn in Hs.
        destruct (task_start E (batch_state b) u base_url banner_dir);
          discriminate.
    + cbn in Hr. destruct (task_resume E (batch_state b) t); discriminate.
Qed.

(** With three steps per task the loop runs until every task has ended. *)
Lemma run_tasks_ends choice base_url banner_dir fuel : forall n b,
  (work_left b <= fuel)%nat ->
  let b' := run_tasks E fuel choice n base_url banner_dir b in
  waiting b' = [] /\ running b' = [].
Proof.
  induction fuel as [|fuel IH]; intros n b Hw; cbv zeta.
  - cbn [run_tasks]. unfold work_left in Hw.
    destruct (waiting b) as [|u us]; [|cbn in Hw; lia].
    destruct (running b) as [|t ts]; [split; reflexivity|].
    cbn in Hw. pose proof (steps_left_pos t). lia.
  - cbn [run_tasks].
    destruct (waiting b) as [|u us] eqn:Hwait,
             (running b) as [|t ts] eqn:Hrun; [split; assumption|..];
      apply IH;
      (assert (Hpos : (0 < work_left b)%nat);
       [unfold work_left; rewrite Hwait, Hrun; cbn;
        try pose proof (steps_left_pos t); lia|]);
      pose proof (step_work base_url banner_dir (choice n) b Hpos); lia.
Qed.

Lemma download_each_ends st urls base_url banner_dir acc :
  let b := run_tasks E (3 * length urls) (schedule E (requests st)) 0
             base_url banner_dir
             {| batch_state := st; waiting := urls; running := [];
                batch_downloaded := acc |} in
  waiting b = [] /\ running b = [].
Proof.
  apply run_tasks_ends. unfold work_left. cbn. lia.
Qed.

Lemma download_assets_parallel_requests st urls base_url banner_dir :
  exists fetched,
    fetched ⊆+ urls
    /\ requests (fst (download_assets_parallel E st urls base_url banner_dir))
       = requests st
         ++ List.map (fun k => Get (normalize_url' E k (Some base_url))) fetched.
Proof.
  unfold download_assets_parallel.
  set (downloadable := List.filter (fun url => negb (non_fetchable url)) urls).
  assert (Hsub : downloadable ⊆+ urls)
    by apply sublist_submseteq, sublist_list_filter.
  destruct downloadable as [|u0 us] eqn:Hd.
  - exists []. split; [apply submseteq_nil_l|]. simpl. rewrite app_nil_r.
    reflexivity.
  - destruct (download_each_requests (u0 :: us) st base_url banner_dir [])
      as (fetched & Hf & Hreq).
    destruct (download_each E st (u0 :: us) base_url banner_dir []) as [st1 d].
    cbn [fst] in *. exists fetched.
    split; [etransitivity; eassumption|].
    rewrite requests_record_failures, requests_save_global_asset_cache.
    exact Hreq.
Qed.

Lemma download_all_assets_unified_requests st all_assets banner_dir :
  exists fetched,
    fetched ⊆+ Dict.keys all_assets
    /\ requests (fst (download_all_assets_unified E st all_assets banner_dir))
       = requests st
         ++ List.map (fun k => Get (normalize_url' E k (Some []))) fetched.
Proof.
  unfold download_all_assets_unified.
  set (downloadable := List.filter _ (Dict.keys all_assets)).
  assert (Hsub : downloadable ⊆+ Dict.keys all_assets)
    by apply sublist_submseteq, sublist_list_filter.
  destruct downloadable as [|u0 us] eqn:Hd.
  - exists []. split; [apply submseteq_nil_l|]. simpl. rewrite app_nil_r.
    reflexivity.
  - destruct (download_assets_parallel_requests st (u0 :: us) [] banner_dir)
      as (fetched & Hf & Hreq).
    exists fetched. split; [etransitivity; eassumption|exact Hreq].
Qed.

End Download.

(** C2, as stated, fails for a stylesheet: it is fetched while the
    collection is built and again by the download of the collected
    entries, two GET requests for one canonical URL in one batch. *)
Lemma stylesheet_fetched_twice_in_one_batch :
  let E := world (Reply 200 (Some (py "text/css")) (py "body { margin: 0 }")) in
  let url := py "https://example.com/banner/style.css" in
  let r := attempt_parallel E (fresh_scraper true) [stylesheet_link "style.css"]
             (py "https://example.com/banner/index.html") (py "out/banner") in
  gets_of url (requests (fst (fst r))) = 2%nat.
Proof. vm_compute. reflexivity. Qed.

(** The sequential pass reads and stores the same stylesheet with one
    GET. *)
Example stylesheet_fetched_once_sequentially :
  let E := world (Reply 200 (Some (py "text/css")) (py "body { margin: 0 }")) in
  let url := py "https://example.com/banner/style.css" in
  let r := normalize_urls_in_html E (fresh_scraper false)
             [stylesheet_link "style.css"]
             (py "https://example.com/banner/index.html") (py "out/banner") in
  gets_of url (requests (fst (fst r))) = 1%nat
  /\ snd (fst r) = [stylesheet_link "assets/d41d8cd98f00.css"].
Proof. vm_compute. split; reflexivity. Qed.

(** Two collected entries that the download normalises to one URL are
    fetched by two tasks of the batch.  Each task looks the cache up and
    chooses its file name before the other has written its file, so both
    send their GET and both write the same file. *)
Example twin_tasks_fetch_twice :
  let E := world (Reply 200 (Some (py "image/png")) (py "not checked")) in
  let url := py "https://fonts.googleapis.com/a.png#b" in
  let r := attempt_parallel E (fresh_scraper true)
             [img "https://fonts.googleapis.com/a.png?%23b";
              img "https://fonts.googleapis.com/a.png#b"]
             (py "https://example.com/banner/index.html") (py "out/banner") in
  gets_of url (requests (fst (fst r))) = 2%nat
  /\ List.map fst (map_to_list (files (fst (fst r))))
     = [py "out/banner/assets/d41d8cd98f00.png"]
  /\ snd (fst r) = [img "assets/d41d8cd98f00.png"; img "assets/d41d8cd98f00.png"].
Proof. vm_compute. repeat split. Qed.

(** What does hold of a batch: the asset collection, keyed by normalized
    URL, holds one entry per canonical URL and every fetchable attribute
    reference resolves to an entry; the unified download sends GETs only
    for collected entries, at most one per entry, in the order in which
    the event loop starts the tasks; and a fetch whose canonical URL is
    already in the asset cache returns the cached local path and sends
    nothing.  The GET by which the collection reads a stylesheet is not
    among these: it comes on top, as the example above shows. *)
Theorem one_entry_one_fetch_per_canonical_url :
  forall (E : env) (st : scraper) (s : soup) (url banner_dir : pystr),
    let c := collect_all_assets E st s url in
    let d := download_all_assets_unified E (fst c) (snd c) banner_dir in
    NoDup (Dict.keys (snd c))
    /\ (forall i e attr u,
          In (i, e, attr) (attribute_sites url_attributes_parallel s) ->
          get_attr e attr = Some u -> non_fetchable u = false ->
          In (normalize_url' E u (Some url)) (Dict.keys (snd c)))
    /\ (exists fetched,
          fetched ⊆+ Dict.keys (snd c)
          /\ requests (fst d)
             = requests (fst c)
               ++ List.map (fun k => Get (normalize_url' E k (Some []))) fetched)
    /\ (forall st' asset_url base_url p,
          asset_cache st' !! normalize_url' E asset_url (Some base_url) = Some p ->
          download_asset_async E st' asset_url base_url banner_dir = (st', Some p)).
Proof.
  intros E st s url banner_dir c d. subst c d. repeat split.
  - apply collect_all_assets_keys_nodup.
  - intros i e attr u. apply collect_all_assets_covers.
  - apply download_all_assets_unified_requests.
  - intros st' asset_url base_url p. apply download_asset_async_cached.
Qed.

(** An image referenced twice is collected once and fetched once, and
    both references are rewritten to the same local file. *)
Example image_referenced_twice_fetched_once :
  let E := world (Reply 200 (Some (py "image/png")) (py "not checked")) in
  let url := py "https://example.com/banner/a.png" in
  let r := attempt_parallel E (fresh_scraper true) [img "a.png"; img "./a.png"]
             (py "https://example.com/banner/index.html") (py "out/banner") in
  gets_of url (requests (fst (fst r))) = 1%nat
  /\ snd (fst r) = [img "assets/d41d8cd98f00.png"; img "assets/d41d8cd98f00.png"].
Proof. vm_compute. split; reflexivity. Qed.

(** C10.  In the parallel mode, when fewer than 80% of the collected
    unique assets were downloaded in the attempt, nothing is rewritten:
    the document the pass works on keeps its original URLs, no stylesheet
    is written after the downloads, and the attempt reports the download
    mapping.  So a rewritten reference implies that at least 80% of the
    assets were downloaded. *)
Theorem below_threshold_nothing_rewritten :
  forall (E : env) (st : scraper) (s : soup) (url banner_dir : pystr),
    let c := collect_all_assets E st s url in
    let d := download_all_assets_unified E (fst c) (snd c) banner_dir in
    let r := attempt_parallel E st s url banner_dir in
    (5 * length (snd d) < 4 * length (snd c))%nat ->
    snd (fst r) = s
    /\ files (fst (fst r)) = files (fst d)
    /\ snd r = snd d.
Proof.
  intros E st s url banner_dir c d r Hlow. subst r. unfold attempt_parallel.
  fold c. destruct c as [st1 all_assets]. cbn [fst snd] in *.
  fold d. destruct d as [st2 downloaded]. cbn [fst snd] in *.
  unfold success_threshold_met.
  destruct (Nat.leb_spec (4 * length all_assets) (5 * length downloaded));
    [lia|]. repeat split; reflexivity.
Qed.

Lemma below_threshold_nothing_rewritten_witness :
  let E := world (Reply 404 None []) in
  let st := fresh_scraper true in
  let s := [img "a.png"; img "b.png"] in
  let url := py "https://example.com/banner/index.html" in
  let c := collect_all_assets E st s url in
  let d := download_all_assets_unified E (fst c) (snd c) (py "out/banner") in
  let r := attempt_parallel E st s url (py "out/banner") in
  snd (fst r) = s /\ files (fst (fst r)) = files (fst d) /\ snd r = snd d.
Proof.
  intros E st s url.
  apply (below_threshold_nothing_rewritten E st s url (py "out/banner")).
  vm_compute. lia.
Defined.

(** At or above the threshold the rewriting pass runs. *)
Lemma at_threshold_rewritten E st s url banner_dir :
  let c := collect_all_assets E st s url in
  let d := download_all_assets_unified E (fst c) (snd c) banner_dir in
  (4 * length (snd c) <= 5 * length (snd d))%nat ->
  attempt_parallel E st s url banner_dir
  = update_html_with_unified_assets E (fst d) s (snd c) (snd d) banner_dir.
Proof.
  intros c d Hok. unfold attempt_parallel.
  fold c. destruct c as [st1 all_assets]. cbn [fst snd] in *.
  fold d. destruct d as [st2 downloaded]. cbn [fst snd] in *.
  unfold success_threshold_met.
  destruct (Nat.leb_spec (4 * length all_assets) (5 * length downloaded));
    [reflexivity|lia].
Qed.

End UnifiedProps.

(** ** UTF-8 *)

Module Utf8Props.

Import Utf8.

(** Decides the comparisons of a goal from the arithmetic hypotheses. *)
Ltac ntests :=
  repeat match goal with
         | |- context [(?a <? ?b)] => destruct (N.ltb_spec a b); try lia
         | |- context [(?a <=? ?b)] => destruct (N.leb_spec a b); try lia
         | |- context [(?a =? ?b)] => destruct (N.eqb_spec a b); try lia
         end.

Lemma scan_1 b r : b < 0x80 -> scan (b :: r) = Some b :: scan r.
Proof. intros H. cbn [scan]. ntests. reflexivity. Qed.

Lemma scan_2 b0 b1 r :
  0xC2 <= b0 < 0xE0 -> 0x80 <= b1 < 0xC0 ->
  scan (b0 :: b1 :: r) = Some ((b0 - 0xC0) * 64 + (b1 - 0x80)) :: scan r.
Proof. intros H0 H1. cbn [scan]. unfold is_cont. ntests. reflexivity. Qed.

Lemma scan_3 b0 b1 b2 r :
  0xE0 <= b0 < 0xF0 -> 0x80 <= b1 < 0xC0 -> 0x80 <= b2 < 0xC0 ->
  (b0 = 0xE0 -> 0xA0 <= b1) -> (b0 = 0xED -> b1 < 0xA0) ->
  scan (b0 :: b1 :: b2 :: r)
  = Some ((b0 - 0xE0) * 4096 + (b1 - 0x80) * 64 + (b2 - 0x80)) :: scan r.
Proof.
  intros H0 H1 H2 He0 Hed. cbn [scan]. unfold second3_ok, is_cont.
  ntests; reflexivity.
Qed.

Lemma scan_4 b0 b1 b2 b3 r :
  0xF0 <= b0 < 0xF5 -> 0x80 <= b1 < 0xC0 -> 0x80 <= b2 < 0xC0 ->
  0x80 <= b3 < 0xC0 ->
  (b0 = 0xF0 -> 0x90 <= b1) -> (b0 = 0xF4 -> b1 < 0x90) ->
  scan (b0 :: b1 :: b2 :: b3 :: r)
  = Some ((b0 - 0xF0) * 262144 + (b1 - 0x80) * 4096 + (b2 - 0x80) * 64
          + (b3 - 0x80)) :: scan r.
Proof.
  intros H0 H1 H2 H3 Hf0 Hf4. cbn [scan]. unfold second4_ok, is_cont.
  ntests; reflexivity.
Qed.

(** Quotients and remainders of a code point by the powers of 64. *)
Lemma digits64 c :
  exists q1 r1 q2 r2 q3 r3,
    c = 64 * q1 + r1 /\ r1 < 64 /\ q1 = 64 * q2 + r2 /\ r2 < 64
    /\ q2 = 64 * q3 + r3 /\ r3 < 64
    /\ c / 64 = q1 /\ c mod 64 = r1 /\ (c / 64) mod 64 = r2
    /\ c / 4096 = q2 /\ (c / 4096) mod 64 = r3 /\ c / 262144 = q3.
Proof.
  assert (H2 : c / 4096 = c / 64 / 64) by (rewrite N.Div0.div_div; reflexivity).
  assert (H3 : c / 262144 = c / 4096 / 64) by (rewrite N.Div0.div_div; reflexivity).
  exists (c / 64), (c mod 64), (c / 4096), ((c / 64) mod 64),
         (c / 262144), ((c / 4096) mod 64).
  repeat split; try reflexivity.
  - apply N.div_mod. discriminate.
  - apply N.mod_lt. discriminate.
  - rewrite H2. apply N.div_mod. discriminate.
  - apply N.mod_lt. discriminate.
  - rewrite H3. apply N.div_mod. discriminate.
  - apply N.mod_lt. discriminate.
Qed.

Ltac digits c :=
  destruct (digits64 c)
    as (q1 & r1 & q2 & r2 & q3 & r3 & Hc1 & Hr1 & Hc2 & Hr2 & Hc3 & Hr3
        & -> & -> & -> & -> & -> & ->).

(** The decoder reads back what the encoder wrote. *)
Lemma scan_encode_char c b r :
  encode_char c = Some b -> scan (b ++ r) = Some c :: scan r.
Proof.
  unfold encode_char. digits c.
  destruct (N.ltb_spec c 0x80).
  { intros [= <-]. apply scan_1. assumption. }
  destruct (N.ltb_spec c 0x800).
  { intros [= <-]. cbn [app]. rewrite scan_2 by lia. f_equal. f_equal. lia. }
  destruct (N.leb_spec 0xD800 c), (N.ltb_spec c 0xE000); cbn [andb];
    try discriminate;
    (destruct (N.ltb_spec c 0x10000);
     [intros [= <-]; cbn [app]; rewrite scan_3 by lia; do 2 f_equal; lia|]);
    (destruct (N.ltb_spec c 0x110000); [|discriminate]);
    intros [= <-]; cbn [app]; rewrite scan_4 by lia; do 2 f_equal; lia.
Qed.

Lemma encode_char_bytes c b :
  encode_char c = Some b -> Forall (fun x => x < 256) b.
Proof.
  unfold encode_char. digits c.
  destruct (N.ltb_spec c 0x80).
  { intros [= <-]. repeat constructor. lia. }
  destruct (N.ltb_spec c 0x800).
  { intros [= <-]. repeat constructor; lia. }
  destruct (N.leb_spec 0xD800 c), (N.ltb_spec c 0xE000); cbn [andb];
    try discriminate;
    (destruct (N.ltb_spec c 0x10000);
     [intros [= <-]; repeat constructor; lia|]);
    (destruct (N.ltb_spec c 0x110000); [|discriminate]);
    intros [= <-]; repeat constructor; lia.
Qed.

Lemma encode_cons c s bs :
  encode (c :: s) = Returns bs ->
  exists b bs', encode_char c = Some b /\ encode s = Returns bs' /\ bs = b ++ bs'.
Proof.
  cbn [encode]. destruct (encode_char c) as [b|]; [|discriminate].
  destruct (encode s) as [bs'|]; [|discriminate].
  intros [= <-]. eauto.
Qed.

Lemma encode_bytes s bs :
  encode s = Returns bs -> Forall (fun x => x < 256) bs.
Proof.
  revert bs. induction s as [|c s IH]; intros bs.
  - intros [= <-]. constructor.
  - intros H. apply encode_cons in H as (b & bs' & Hb & Hs & ->).
    apply Forall_app. split; [eapply encode_char_bytes; eassumption|auto].
Qed.

(** Decoding an encoded string gives the string back. *)
Lemma decode_replace_encode s bs :
  encode s = Returns bs -> decode_replace bs = s.
Proof.
  revert bs. induction s as [|c s IH]; intros bs.
  - intros [= <-]. reflexivity.
  - intros H. apply encode_cons in H as (b & bs' & Hb & Hs & ->).
    unfold decode_replace. rewrite (scan_encode_char c b bs' Hb).
    cbn [List.map]. f_equal. apply IH. exact Hs.
Qed.

Lemma scan_ascii bs :
  Forall (fun b => b < 128) bs -> scan bs = List.map Some bs.
Proof.
  induction 1 as [|b bs Hb _ IH]; [reflexivity|].
  rewrite scan_1 by lia. cbn [List.map]. f_equal. exact IH.
Qed.

Lemma decode_replace_ascii bs :
  Forall (fun b => b < 128) bs -> decode_replace bs = bs.
Proof.
  intros H. unfold decode_replace. rewrite scan_ascii by exact H.
  rewrite List.map_map. apply List.map_id.
Qed.

(** Every step of the decoder reads at least one byte. *)
Lemma scan_length_bound n : forall bs,
  (length bs <= n)%nat -> (length (scan bs) <= length bs)%nat.
Proof.
  induction n as [|n IH]; intros bs Hn.
  - destruct bs; [simpl; lia|simpl in Hn; lia].
  - destruct bs as [|b0 r0]; [simpl; lia|]. simpl in Hn.
    assert (Hr : forall r, (length r <= length r0)%nat ->
                           (length (scan r) <= length r)%nat)
      by (intros r Hle; apply IH; lia).
    cbn [scan].
    repeat match goal with
           | |- context [if ?b then _ else _] => destruct b
           | |- context [match ?l with [] => _ | _ :: _ => _ end] =>
             destruct l
           end;
      cbn [length] in *;
      repeat match goal with
             | |- context [scan ?r] =>
               lazymatch goal with
               | H : (length (scan r) <= length r)%nat |- _ => fail
               | _ => pose proof (Hr r ltac:(cbn [length]; lia))
               end
             end;
      cbn [length] in *; lia.
Qed.

Lemma scan_length bs : (length (scan bs) <= length bs)%nat.
Proof. apply (scan_length_bound (length bs)). lia. Qed.

Lemma decode_replace_length bs : (length (decode_replace bs) <= length bs)%nat.
Proof. unfold decode_replace. rewrite length_map. apply scan_length. Qed.

End Utf8Props.

(** ** Percent-encoding *)

Module QuoteProps.

Import Utf8 Utf8Props Urllib UrlShapes.

(** [unquote_to_bytes] leaves the string as it is or shortens it by two
    bytes at least. *)
Lemma unquote_to_bytes_shrinks n : forall s,
  (length s <= n)%nat ->
  unquote_to_bytes s = s \/ (length (unquote_to_bytes s) + 2 <= length s)%nat.
Proof.
  induction n as [|n IH]; intros s Hn.
  - destruct s; [left; reflexivity|simpl in Hn; lia].
  - destruct s as [|c r]; [left; reflexivity|]. simpl in Hn.
    assert (Hr : unquote_to_bytes r = r
                 \/ (length (unquote_to_bytes r) + 2 <= length r)%nat)
      by (apply IH; lia).
    assert (Hkeep : c :: unquote_to_bytes r = c :: r
                    \/ (length (c :: unquote_to_bytes r) + 2 <= length (c :: r))%nat).
    { destruct Hr as [->|Hr]; [left; reflexivity|right; simpl; lia]. }
    cbn [unquote_to_bytes].
    destruct (c =? c_percent); [|exact Hkeep].
    destruct r as [|h1 [|h2 r']]; try exact Hkeep.
    destruct (hexval h1); [|exact Hkeep].
    destruct (hexval h2); [|exact Hkeep].
    right. cbn [length] in *.
    destruct (IH r' ltac:(lia)) as [->|H]; lia.
Qed.

Lemma unquote_to_bytes_length s :
  (length (unquote_to_bytes s) <= length s)%nat.
Proof.
  destruct (unquote_to_bytes_shrinks (length s) s ltac:(lia)) as [->|H]; lia.
Qed.

Lemma unquote_to_bytes_same_length s :
  length (unquote_to_bytes s) = length s -> unquote_to_bytes s = s.
Proof.
  destruct (unquote_to_bytes_shrinks (length s) s ltac:(lia)) as [->|H];
    [reflexivity|lia].
Qed.

(** The decoded form of a run of ASCII characters is the run itself or is
    shorter. *)
Lemma decode_run_shrinks run :
  is_ascii run ->
  let d := decode_replace (unquote_to_bytes run) in
  (length d <= length run)%nat /\ (length d = length run -> d = run).
Proof.
  intros Hrun d. subst d.
  pose proof (decode_replace_length (unquote_to_bytes run)) as H1.
  pose proof (unquote_to_bytes_length run) as H2.
  split; [lia|]. intros Heq.
  rewrite unquote_to_bytes_same_length by lia.
  apply decode_replace_ascii. exact Hrun.
Qed.

Lemma unquote_runs_shrinks s : forall run,
  is_ascii run ->
  (length (unquote_runs s run) <= length run + length s)%nat
  /\ (length (unquote_runs s run) = (length run + length s)%nat ->
      unquote_runs s run = run ++ s).
Proof.
  induction s as [|c r IH]; intros run Hrun; cbn [unquote_runs].
  - destruct (decode_run_shrinks run Hrun) as [H1 H2].
    rewrite Nat.add_0_r, app_nil_r. split; assumption.
  - destruct (N.ltb_spec c 128) as [Hc|Hc].
    + assert (Hrun' : is_ascii (run ++ [c])).
      { apply Forall_app. split; [exact Hrun|]. repeat constructor. exact Hc. }
      destruct (IH _ Hrun') as [H1 H2].
      rewrite length_app in H1, H2. cbn [length] in *.
      rewrite <- app_assoc in H2. cbn [app] in H2.
      split; [lia|]. intros Heq. apply H2. lia.
    + destruct (decode_run_shrinks run Hrun) as [H1 H2].
      destruct (IH [] ltac:(constructor)) as [H3 H4].
      cbn [length app] in *. rewrite length_app. cbn [length].
      split; [lia|]. intros Heq.
      rewrite H2 by lia. rewrite H4 by lia. reflexivity.
Qed.

(** [unquote] leaves the string as it is or shortens it. *)
Lemma unquote_shrinks s :
  (length (unquote s) <= length s)%nat
  /\ (length (unquote s) = length s -> unquote s = s).
Proof.
  unfold unquote. destruct (has_char c_percent s); [|split; [lia|reflexivity]].
  destruct (unquote_runs_shrinks s [] ltac:(constructor)) as [H1 H2].
  cbn [length app] in *. split; [lia|]. intros Heq. apply H2. lia.
Qed.

Lemma unquote_to_bytes_no_percent s :
  has_char c_percent s = false -> unquote_to_bytes s = s.
Proof.
  unfold has_char. induction s as [|c r IH]; [reflexivity|].
  cbn [existsb unquote_to_bytes]. intros H.
  apply orb_false_iff in H as [Hc Hr].
  rewrite N.eqb_sym in Hc. rewrite Hc. f_equal. apply IH. exact Hr.
Qed.

Lemma unquote_runs_ascii s : forall run,
  is_ascii s ->
  unquote_runs s run = decode_replace (unquote_to_bytes (run ++ s)).
Proof.
  induction s as [|c r IH]; intros run Hs; cbn [unquote_runs].
  - rewrite app_nil_r. reflexivity.
  - inversion Hs as [|? ? Hc Hr]; subst.
    destruct (N.ltb_spec c 128); [|lia].
    rewrite IH by exact Hr. rewrite <- app_assoc. reflexivity.
Qed.

(** On an ASCII string [unquote] is percent-decoding followed by UTF-8
    decoding. *)
Lemma unquote_ascii s :
  is_ascii s -> unquote s = decode_replace (unquote_to_bytes s).
Proof.
  intros Hs. unfold unquote. destruct (has_char c_percent s) eqn:Hp.
  - apply (unquote_runs_ascii s [] Hs).
  - rewrite unquote_to_bytes_no_percent by exact Hp.
    symmetry. apply decode_replace_ascii. exact Hs.
Qed.

Lemma safe_set_path : safe_set (py "-._~").
Proof. split; [repeat constructor|reflexivity]. Qed.

Lemma safe_set_query : safe_set (py "=&").
Proof. split; [repeat constructor|reflexivity]. Qed.

Lemma has_char_In c s : has_char c s = true <-> In c s.
Proof.
  unfold has_char. rewrite existsb_exists. split.
  - intros (x & Hx & Heq). apply N.eqb_eq in Heq. subst. exact Hx.
  - intros H. exists c. split; [exact H|apply N.eqb_refl].
Qed.

Lemma always_safe_ascii c : always_safe c = true -> c < 128 /\ c <> c_percent.
Proof.
  unfold always_safe, is_ascii_alpha, is_digit, c_percent.
  intros H. repeat (apply orb_true_iff in H as [H|H]);
    repeat (apply andb_true_iff in H as [? H]);
    repeat match goal with
           | H : (_ <=? _) = true |- _ => apply N.leb_le in H
           | H : (_ =? _) = true |- _ => apply N.eqb_eq in H
           end; lia.
Qed.

Lemma hexval_hexdigit n : n < 16 -> hexval (hexdigit n) = Some n.
Proof.
  intros Hn. unfold hexval, hexdigit, is_digit.
  destruct (N.ltb_spec n 10).
  - destruct (N.leb_spec 48 (48 + n)), (N.leb_spec (48 + n) 57); try lia.
    cbn [andb]. f_equal. lia.
  - destruct (N.leb_spec 48 (55 + n)), (N.leb_spec (55 + n) 57); try lia;
      cbn [andb];
      destruct (N.leb_spec 65 (55 + n)), (N.leb_spec (55 + n) 70); try lia;
      cbn [andb]; f_equal; lia.
Qed.

Lemma hexdigit_ascii n : n < 16 -> hexdigit n < 128.
Proof. intros Hn. unfold hexdigit. destruct (n <? 10); lia. Qed.

Lemma byte_digits b :
  b < 256 -> exists hi lo, b / 16 = hi /\ b mod 16 = lo /\ hi < 16 /\ lo < 16
                           /\ b = 16 * hi + lo.
Proof.
  intros Hb. exists (b / 16), (b mod 16).
  pose proof (N.div_mod b 16 ltac:(discriminate)) as H.
  pose proof (N.mod_lt b 16 ltac:(discriminate)) as H'.
  repeat split; try assumption.
  apply N.Div0.div_lt_upper_bound. exact Hb.
Qed.

(** Percent-decoding undoes [quote_from_bytes]. *)
Lemma unquote_to_bytes_quote bs safe :
  safe_set safe -> Forall (fun b => b < 256) bs ->
  unquote_to_bytes (quote_from_bytes bs safe) = bs.
Proof.
  intros [Hsafe Hpct]. unfold quote_from_bytes.
  induction 1 as [|b bs Hb _ IH]; [reflexivity|].
  cbn [flat_map].
  destruct (always_safe b || has_char b safe) eqn:Hs.
  - cbn [app unquote_to_bytes].
    assert (Hne : b <> c_percent).
    { apply orb_true_iff in Hs as [Hs|Hs].
      - apply always_safe_ascii in Hs. tauto.
      - intros ->. congruence. }
    apply N.eqb_neq in Hne. rewrite Hne. f_equal. exact IH.
  - destruct (byte_digits b Hb) as (hi & lo & -> & -> & Hhi & Hlo & ->).
    cbn [app unquote_to_bytes]. rewrite N.eqb_refl.
    rewrite !hexval_hexdigit by assumption. f_equal. exact IH.
Qed.

Lemma quote_from_bytes_ascii bs safe :
  safe_set safe -> Forall (fun b => b < 256) bs ->
  is_ascii (quote_from_bytes bs safe).
Proof.
  intros [Hsafe Hpct]. unfold quote_from_bytes.
  induction 1 as [|b bs Hb _ IH]; [constructor|].
  cbn [flat_map]. apply Forall_app. split; [|exact IH].
  destruct (always_safe b || has_char b safe) eqn:Hs.
  - repeat constructor. apply orb_true_iff in Hs as [Hs|Hs].
    + apply always_safe_ascii in Hs. tauto.
    + apply has_char_In in Hs. unfold is_ascii in Hsafe.
      rewrite List.Forall_forall in Hsafe. apply Hsafe. exact Hs.
  - destruct (byte_digits b Hb) as (hi & lo & -> & -> & Hhi & Hlo & _).
    repeat constructor; try (apply hexdigit_ascii; assumption).
Qed.

(** [unquote] undoes [quote]. *)
Lemma unquote_quote s safe q :
  safe_set safe -> quote s safe = Returns q -> unquote q = s.
Proof.
  intros Hsafe. unfold quote.
  destruct (encode s) as [bs|] eqn:He; [|discriminate].
  intros [= <-]. pose proof (encode_bytes s bs He) as Hbs.
  rewrite unquote_ascii by (apply quote_from_bytes_ascii; assumption).
  rewrite unquote_to_bytes_quote by assumption.
  apply decode_replace_encode. exact He.
Qed.

End QuoteProps.

(** ** Re-encoding of path and query *)

Module EncodeProps.

Import Utf8 Utf8Props Urllib UrlShapes QuoteProps Url.

Lemma eqb_str_true a b : eqb_str a b = true <-> a = b.
Proof. unfold eqb_str. apply bool_decide_eq_true. Qed.

Lemma eqb_str_false a b : eqb_str a b = false <-> a <> b.
Proof. unfold eqb_str. apply bool_decide_eq_false. Qed.

Lemma eqb_str_refl a : eqb_str a a = true.
Proof. apply eqb_str_true. reflexivity. Qed.

(** *** The decoding loop *)

Lemma unquote_loop_of_fixed fuel s : unquote s = s -> unquote_loop fuel s = s.
Proof.
  intros H. destruct fuel as [|fuel]; [reflexivity|].
  cbn [unquote_loop]. rewrite H, eqb_str_refl. reflexivity.
Qed.

(** With more passes than the string has characters the loop ends on a
    string that [unquote] does not change: the [while] of the source
    terminates. *)
Lemma unquote_loop_reaches fuel : forall s,
  (length s < fuel)%nat -> unquote (unquote_loop fuel s) = unquote_loop fuel s.
Proof.
  induction fuel as [|fuel IH]; intros s Hlen; [lia|].
  cbn [unquote_loop]. destruct (eqb_str (unquote s) s) eqn:Heq.
  - apply eqb_str_true in Heq. exact Heq.
  - apply eqb_str_false in Heq. apply IH.
    destruct (unquote_shrinks s) as [H1 H2].
    destruct (Nat.eq_dec (length (unquote s)) (length s)) as [He|He];
      [elim Heq; apply H2; exact He|lia].
Qed.

Lemma decode_repeatedly_fixed s :
  unquote (decode_repeatedly s) = decode_repeatedly s.
Proof. unfold decode_repeatedly. apply unquote_loop_reaches. lia. Qed.

Lemma decode_repeatedly_of_fixed s : unquote s = s -> decode_repeatedly s = s.
Proof. apply unquote_loop_of_fixed. Qed.

(** One pass that lands on a fixed point ends the loop there. *)
Lemma decode_repeatedly_step q d :
  unquote q = d -> unquote d = d -> decode_repeatedly q = d.
Proof.
  intros Hq Hd. unfold decode_repeatedly. cbn [unquote_loop]. rewrite Hq.
  destruct (eqb_str d q) eqn:Heq.
  - apply eqb_str_true in Heq. congruence.
  - apply unquote_loop_of_fixed. exact Hd.
Qed.

(** *** Characters of a quoted string *)

Lemma hexdigit_always_safe n : n < 16 -> always_safe (hexdigit n) = true.
Proof.
  intros Hn. unfold always_safe, hexdigit, is_ascii_alpha, is_digit.
  destruct (N.ltb_spec n 10); ntests; try reflexivity; lia.
Qed.

Lemma quote_from_bytes_chars bs safe :
  Forall (fun b => b < 256) bs ->
  Forall (fun c => quoted_char safe c = true) (quote_from_bytes bs safe).
Proof.
  unfold quote_from_bytes. induction 1 as [|b bs Hb _ IH]; [constructor|].
  cbn [flat_map]. apply Forall_app. split; [|exact IH].
  unfold quoted_char.
  destruct (always_safe b || has_char b safe) eqn:Hs.
  - repeat constructor. rewrite Hs. reflexivity.
  - destruct (byte_digits b Hb) as (hi & lo & -> & -> & Hhi & Hlo & _).
    constructor; [rewrite N.eqb_refl; apply orb_true_r|].
    constructor; [rewrite hexdigit_always_safe by assumption; reflexivity|].
    constructor; [rewrite hexdigit_always_safe by assumption; reflexivity|].
    constructor.
Qed.

Lemma quote_chars s safe q :
  quote s safe = Returns q -> Forall (fun c => quoted_char safe c = true) q.
Proof.
  unfold quote. destruct (encode s) as [bs|] eqn:He; [|discriminate].
  intros [= <-]. apply quote_from_bytes_chars. eapply encode_bytes. exact He.
Qed.

(** A character that is not a quoted character does not occur. *)
Lemma quoted_lacks safe q (x : N) :
  Forall (fun c => quoted_char safe c = true) q ->
  quoted_char safe x = false -> has_char x q = false.
Proof.
  intros Hq Hx. apply not_true_is_false. intros H.
  apply has_char_In in H. rewrite List.Forall_forall in Hq.
  apply Hq in H. congruence.
Qed.

(** *** One segment *)

Lemma encode_part_chars part e :
  encode_part part = Returns e ->
  Forall (fun c => quoted_char (py "-._~") c = true) e.
Proof.
  unfold encode_part. destruct part as [|c p].
  - intros [= <-]. constructor.
  - apply quote_chars.
Qed.

(** A segment that was encoded encodes to itself. *)
Lemma encode_part_idempotent part e :
  encode_part part = Returns e -> encode_part e = Returns e.
Proof.
  unfold encode_part at 1. destruct part as [|c p].
  - intros [= <-]. reflexivity.
  - intros Hq. destruct e as [|c' e']; [reflexivity|].
    cbn [encode_part].
    rewrite (decode_repeatedly_step (c' :: e') (decode_repeatedly (c :: p))).
    + exact Hq.
    + eapply unquote_quote; [apply safe_set_path|exact Hq].
    + apply decode_repeatedly_fixed.
Qed.

(** *** Splitting and joining *)

Lemma split_all_not_nil sep s : split_all sep s <> [].
Proof.
  destruct s as [|c s]; cbn [split_all]; [discriminate|].
  destruct (c =? sep); [discriminate|].
  destruct (split_all sep s); discriminate.
Qed.

Lemma join_cons sep p q ps :
  join sep (p :: q :: ps) = p ++ sep ++ join sep (q :: ps).
Proof. reflexivity. Qed.

Lemma split_all_app_sep sep a s :
  has_char sep a = false ->
  split_all sep (a ++ sep :: s) = a :: split_all sep s.
Proof.
  unfold has_char. induction a as [|c a IH]; intros Ha.
  - cbn [app split_all]. rewrite N.eqb_refl. reflexivity.
  - cbn [existsb] in Ha. apply orb_false_iff in Ha as [Hc Ha].
    cbn [app split_all]. rewrite N.eqb_sym, Hc. rewrite IH by exact Ha.
    reflexivity.
Qed.

Lemma split_all_no_sep sep a : has_char sep a = false -> split_all sep a = [a].
Proof.
  unfold has_char. induction a as [|c a IH]; intros Ha; [reflexivity|].
  cbn [existsb] in Ha. apply orb_false_iff in Ha as [Hc Ha].
  cbn [split_all]. rewrite N.eqb_sym, Hc. rewrite IH by exact Ha. reflexivity.
Qed.

Lemma split_all_join sep es :
  es <> [] -> Forall (fun e => has_char sep e = false) es ->
  split_all sep (join [sep] es) = es.
Proof.
  intros Hne Hes. induction Hes as [|e es He Hes IH]; [congruence|].
  destruct es as [|e' es'].
  - cbn [join]. apply split_all_no_sep. exact He.
  - rewrite join_cons. cbn [app]. rewrite split_all_app_sep by exact He.
    f_equal. apply IH. discriminate.
Qed.

Lemma join_split_all sep s : join [sep] (split_all sep s) = s.
Proof.
  induction s as [|c s IH]; [reflexivity|]. cbn [split_all].
  destruct (c =? sep) eqn:Hc.
  - apply N.eqb_eq in Hc. subst c.
    pose proof (split_all_not_nil sep s) as Hne.
    destruct (split_all sep s) as [|p ps] eqn:Hs; [congruence|].
    rewrite join_cons. cbn [app]. rewrite IH. reflexivity.
  - pose proof (split_all_not_nil sep s) as Hne.
    destruct (split_all sep s) as [|p ps] eqn:Hs; [congruence|].
    destruct ps as [|p' ps'].
    + cbn [join] in *. congruence.
    + rewrite join_cons in *. cbn [app] in *. congruence.
Qed.

(** *** The path *)

Lemma encode_parts_idempotent parts es :
  encode_parts parts = Returns es -> encode_parts es = Returns es.
Proof.
  revert es. induction parts as [|p ps IH]; intros es; cbn [encode_parts].
  - intros [= <-]. reflexivity.
  - destruct (encode_part p) as [e|] eqn:He; [|discriminate].
    destruct (encode_parts ps) as [es'|]; [|discriminate].
    intros [= <-]. cbn [encode_parts].
    rewrite (encode_part_idempotent p e He), (IH es' eq_refl). reflexivity.
Qed.

Lemma encode_parts_chars parts es :
  encode_parts parts = Returns es ->
  Forall (fun e => Forall (fun c => quoted_char (py "-._~") c = true) e) es.
Proof.
  revert es. induction parts as [|p ps IH]; intros es; cbn [encode_parts].
  - intros [= <-]. constructor.
  - destruct (encode_part p) as [e|] eqn:He; [|discriminate].
    destruct (encode_parts ps) as [es'|]; [|discriminate].
    intros [= <-]. constructor; [eapply encode_part_chars; exact He|auto].
Qed.

Lemma encode_parts_not_nil parts es :
  encode_parts parts = Returns es -> parts <> [] -> es <> [].
Proof.
  destruct parts as [|p ps]; [congruence|]. cbn [encode_parts].
  destruct (encode_part p); [|discriminate].
  destruct (encode_parts ps); [|discriminate].
  intros [= <-] _. discriminate.
Qed.

(** A path that was encoded encodes to itself. *)
Lemma encode_path_idempotent p e :
  encode_path p = Returns e -> encode_path e = Returns e.
Proof.
  unfold encode_path.
  destruct (encode_parts (split_all c_slash p)) as [es|] eqn:Hes; [|discriminate].
  intros [= <-].
  rewrite split_all_join.
  - rewrite (encode_parts_idempotent _ _ Hes). reflexivity.
  - eapply encode_parts_not_nil; [exact Hes|apply split_all_not_nil].
  - eapply Forall_impl; [apply (encode_parts_chars _ _ Hes)|].
    intros part Hpart. eapply quoted_lacks; [exact Hpart|reflexivity].
Qed.

Lemma join_chars (P : N -> Prop) sep es :
  Forall P sep -> Forall (Forall P) es -> Forall P (join sep es).
Proof.
  intros Hsep. induction 1 as [|e es He Hes IH]; [constructor|].
  destruct es as [|e' es']; [exact He|].
  rewrite join_cons. repeat (apply Forall_app; split); assumption.
Qed.

Lemma encode_path_chars p e :
  encode_path p = Returns e -> Forall (fun c => path_char c = true) e.
Proof.
  unfold encode_path.
  destruct (encode_parts (split_all c_slash p)) as [es|] eqn:Hes; [|discriminate].
  intros [= <-]. apply join_chars.
  - repeat constructor.
  - eapply Forall_impl; [apply (encode_parts_chars _ _ Hes)|].
    intros part Hpart. eapply Forall_impl; [exact Hpart|].
    intros c Hc. unfold path_char. cbv beta in Hc. rewrite Hc. reflexivity.
Qed.

(** Encoding keeps the path empty, or rooted, when it was. *)
Lemma encode_path_nil e : encode_path [] = Returns e -> e = [].
Proof. cbn. intros [= <-]. reflexivity. Qed.

Lemma encode_path_rooted p e :
  encode_path (c_slash :: p) = Returns e -> exists e', e = c_slash :: e'.
Proof.
  unfold encode_path. cbn [split_all]. rewrite N.eqb_refl.
  cbn [encode_parts encode_part].
  pose proof (split_all_not_nil c_slash p) as Hne.
  destruct (encode_parts (split_all c_slash p)) as [es|] eqn:Hes; [|discriminate].
  intros [= <-].
  pose proof (encode_parts_not_nil _ _ Hes Hne) as Hne'.
  destruct es as [|e1 es]; [congruence|]. eauto.
Qed.

(** *** The query *)

Lemma encode_query_chars netloc q e :
  is_google_fonts netloc = false ->
  encode_query netloc q = Returns e ->
  Forall (fun c => quoted_char (py "=&") c = true) e.
Proof.
  intros Hg. unfold encode_query. destruct q as [|c q].
  - intros [= <-]. constructor.
  - rewrite Hg. apply quote_chars.
Qed.

(** A query that was encoded encodes to itself, outside the font service. *)
Lemma encode_query_idempotent netloc q e :
  is_google_fonts netloc = false ->
  encode_query netloc q = Returns e -> encode_query netloc e = Returns e.
Proof.
  intros Hg. unfold encode_query at 1. destruct q as [|c q].
  - intros [= <-]. reflexivity.
  - rewrite Hg. intros Hq. unfold encode_query. rewrite Hg.
    destruct e as [|c' e']; [reflexivity|].
    rewrite (unquote_quote _ _ _ safe_set_query Hq). exact Hq.
Qed.

End EncodeProps.

(** ** Splitting a URL *)

Module SplitProps.

Import Urllib UrlShapes QuoteProps.

Lemma has_char_app c a b : has_char c (a ++ b) = has_char c a || has_char c b.
Proof. unfold has_char. apply existsb_app. Qed.

Lemma has_char_cons c x s : has_char c (x :: s) = (c =? x) || has_char c s.
Proof. reflexivity. Qed.

Lemma has_char_rev c s : has_char c (rev s) = has_char c s.
Proof.
  induction s as [|x s IH]; [reflexivity|].
  cbn [rev]. rewrite has_char_app, IH, !has_char_cons. cbn [has_char existsb].
  rewrite orb_false_r. apply orb_comm.
Qed.

Lemma has_char_false_Forall c s :
  has_char c s = false <-> Forall (fun x => (c =? x) = false) s.
Proof.
  induction s as [|x s IH].
  - split; [constructor|reflexivity].
  - rewrite has_char_cons, orb_false_iff, IH. split.
    + intros [H1 H2]. constructor; assumption.
    + intros H. inversion H; subst. split; assumption.
Qed.

(** [break_at] splits the string before the first character that
    satisfies the test. *)
Lemma break_at_spec f s a b :
  break_at f s = (a, b) ->
  s = a ++ b
  /\ Forall (fun c => f c = false) a
  /\ (b = [] \/ exists c b', b = c :: b' /\ f c = true).
Proof.
  revert a b. induction s as [|c s IH]; intros a b; cbn [break_at].
  - intros [= <- <-]. repeat split; [constructor|left; reflexivity].
  - destruct (f c) eqn:Hc.
    + intros [= <- <-]. repeat split; [constructor|right; eauto].
    + destruct (break_at f s) as [a' b'].
      intros [= <- <-]. destruct (IH a' b' eq_refl) as (-> & Ha & Hb).
      repeat split; [constructor; assumption|exact Hb].
Qed.

Lemma break_at_app f a b :
  Forall (fun c => f c = false) a ->
  (b = [] \/ exists c b', b = c :: b' /\ f c = true) ->
  break_at f (a ++ b) = (a, b).
Proof.
  intros Ha Hb. induction Ha as [|c a Hc Ha IH]; cbn [app break_at].
  - destruct Hb as [->|(c & b' & -> & Hc)]; [reflexivity|].
    cbn [break_at]. rewrite Hc. reflexivity.
  - rewrite Hc, IH. reflexivity.
Qed.

Lemma break_at_app_l f a b :
  Forall (fun c => f c = false) a ->
  break_at f (a ++ b) = (a ++ fst (break_at f b), snd (break_at f b)).
Proof.
  intros Ha. induction Ha as [|c a Hc Ha IH]; cbn [app break_at].
  - destruct (break_at f b); reflexivity.
  - rewrite Hc, IH. reflexivity.
Qed.

Lemma split_first_found c a b :
  has_char c a = false -> split_first c (a ++ c :: b) = (a, Some b).
Proof.
  intros Ha. unfold split_first. rewrite break_at_app.
  - reflexivity.
  - apply has_char_false_Forall. exact Ha.
  - right. exists c, b. split; [reflexivity|apply N.eqb_refl].
Qed.

Lemma split_first_none c a :
  has_char c a = false -> split_first c a = (a, None).
Proof.
  intros Ha. unfold split_first.
  rewrite <- (app_nil_r a) at 1. rewrite break_at_app.
  - reflexivity.
  - apply has_char_false_Forall. exact Ha.
  - left. reflexivity.
Qed.

Lemma split_first_spec c s a ob :
  split_first c s = (a, ob) ->
  has_char c a = false
  /\ s = a ++ match ob with Some b => c :: b | None => [] end.
Proof.
  unfold split_first. destruct (break_at (N.eqb c) s) as [a' b'] eqn:Hb.
  apply break_at_spec in Hb as (-> & Ha & Hb).
  apply has_char_false_Forall in Ha.
  destruct b' as [|x b'].
  - intros [= <- <-]. split; [exact Ha|reflexivity].
  - intros [= <- <-]. split; [exact Ha|].
    destruct Hb as [Hb|(c' & b'' & [= <- <-] & Hc)]; [discriminate|].
    apply N.eqb_eq in Hc. subst. reflexivity.
Qed.

(** The parameters split off a path are what follows the first semicolon
    of its last segment. *)
Lemma splitparams_spec url p ps :
  splitparams url = (p, ps) ->
  (p = url /\ ps = [])
  \/ (url = p ++ c_semi :: ps /\ has_char c_slash ps = false).
Proof.
  unfold splitparams.
  destruct (break_at (N.eqb c_slash) (rev url)) as [rlast rhead] eqn:Hb.
  apply break_at_spec in Hb as (Hrev & Hlast & _).
  assert (Hurl : url = rev rhead ++ rev rlast).
  { rewrite <- rev_app_distr, <- Hrev, rev_involutive. reflexivity. }
  destruct (split_first c_semi (rev rlast)) as [a [ps'|]] eqn:Hs.
  - apply split_first_spec in Hs as [Ha Hl].
    intros [= <- <-]. right. split.
    + rewrite Hurl, Hl, app_assoc. reflexivity.
    + apply has_char_false_Forall in Hlast.
      rewrite <- has_char_rev, Hl, has_char_app, has_char_cons in Hlast.
      apply orb_false_iff in Hlast as [_ Hlast].
      apply orb_false_iff in Hlast as [_ Hlast]. exact Hlast.
  - intros [= <- <-]. left. split; reflexivity.
Qed.

Lemma last_segment_has c p :
  has_char c p = false -> has_char c (last_segment p) = false.
Proof.
  intros Hp. unfold last_segment.
  destruct (break_at (N.eqb c_slash) (rev p)) as [x y] eqn:Hb.
  apply break_at_spec in Hb as (Hrev & _ & _). cbn [fst].
  assert (H : has_char c (rev p) = false) by (rewrite has_char_rev; exact Hp).
  rewrite Hrev, has_char_app in H. apply orb_false_iff in H as [H _].
  rewrite has_char_rev. exact H.
Qed.

Lemma last_segment_app d e :
  has_char c_slash e = false ->
  last_segment ((d ++ [c_slash]) ++ e) = e.
Proof.
  intros He. unfold last_segment.
  rewrite !rev_app_distr. cbn [rev app].
  rewrite (break_at_app _ (rev e) (c_slash :: rev d)).
  - cbn [fst]. apply rev_involutive.
  - apply has_char_false_Forall. rewrite has_char_rev. exact He.
  - right. exists c_slash, (rev d). split; reflexivity.
Qed.

Lemma last_segment_whole e :
  has_char c_slash e = false -> last_segment e = e.
Proof.
  intros He. unfold last_segment.
  rewrite <- (app_nil_r (rev e)).
  rewrite (break_at_app _ (rev e) []).
  - cbn [fst]. apply rev_involutive.
  - apply has_char_false_Forall. rewrite has_char_rev. exact He.
  - left. reflexivity.
Qed.

Lemma splitparams_app p ps :
  has_char c_semi (last_segment p) = false -> has_char c_slash ps = false ->
  splitparams (p ++ c_semi :: ps) = (p, ps).
Proof.
  unfold last_segment. intros Hp Hps. unfold splitparams.
  rewrite rev_app_distr. cbn [rev].
  rewrite break_at_app_l.
  2:{ apply has_char_false_Forall. rewrite has_char_app, has_char_rev, Hps.
      reflexivity. }
  destruct (break_at (N.eqb c_slash) (rev p)) as [x y] eqn:Hb.
  apply break_at_spec in Hb as (Hrev & _ & _). cbn [fst snd] in *.
  rewrite !rev_app_distr. cbn [rev app]. rewrite rev_involutive.
  rewrite split_first_found by exact Hp.
  f_equal. rewrite <- rev_app_distr, <- Hrev, rev_involutive. reflexivity.
Qed.

Lemma splitparams_none p :
  has_char c_semi (last_segment p) = false -> splitparams p = (p, []).
Proof.
  unfold last_segment, splitparams. intros Hp.
  destruct (break_at (N.eqb c_slash) (rev p)) as [x y] eqn:Hb.
  cbn [fst] in Hp. rewrite split_first_none by exact Hp. reflexivity.
Qed.

End SplitProps.

(** ** What [urlparse] returns *)

Module ParseProps.

Import Urllib UrlShapes QuoteProps SplitProps.

Lemma clean_app a b : clean (a ++ b) <-> clean a /\ clean b.
Proof. apply Forall_app. Qed.

Lemma clean_cons c s : clean (c :: s) <-> unsafe_url_byte c = false /\ clean s.
Proof. unfold clean. apply (Forall_cons (fun x => unsafe_url_byte x = false)). Qed.

Lemma clean_nil : clean [].
Proof. constructor. Qed.

Lemma remove_unsafe_clean s : clean (remove_unsafe s).
Proof.
  unfold clean, remove_unsafe. apply List.Forall_forall. intros c Hc.
  apply List.filter_In in Hc as [_ Hc]. apply negb_true_iff. exact Hc.
Qed.

Lemma remove_unsafe_id s : clean s -> remove_unsafe s = s.
Proof.
  unfold remove_unsafe. induction 1 as [|c s Hc _ IH]; [reflexivity|].
  cbn [List.filter]. rewrite Hc. cbn [negb]. f_equal. exact IH.
Qed.

Lemma is_delim_Forall s :
  Forall (fun c => is_delim c = false) s <-> lacks_delims s.
Proof.
  unfold lacks_delims. rewrite !has_char_false_Forall. unfold is_delim. split.
  - intros H. repeat split; eapply Forall_impl; try exact H;
      intros c Hc; cbv beta in Hc; rewrite !orb_false_iff in Hc;
      rewrite N.eqb_sym; tauto.
  - intros (H1 & H2 & H3). rewrite List.Forall_forall in *. intros c Hc.
    rewrite (N.eqb_sym c c_slash), (N.eqb_sym c c_quest), (N.eqb_sym c c_hash).
    rewrite (H1 c Hc), (H2 c Hc), (H3 c Hc). reflexivity.
Qed.

Lemma lower_char_colon c :
  scheme_char c = true -> has_char c_colon (lower_char c) = false.
Proof.
  intros H. unfold lower_char.
  destruct ((65 <=? c) && (c <=? 90)) eqn:Hup.
  - apply andb_true_iff in Hup as [H1 H2]. apply N.leb_le in H1.
    unfold has_char. cbn [existsb]. rewrite orb_false_r.
    apply N.eqb_neq. unfold c_colon. lia.
  - destruct (c =? 304); [reflexivity|].
    destruct (c =? 8490); [reflexivity|].
    unfold has_char. cbn [existsb]. rewrite orb_false_r.
    apply N.eqb_neq. intros <-. discriminate H.
Qed.

Lemma lower_scheme_colon s :
  forallb scheme_char s = true -> has_char c_colon (lower s) = false.
Proof.
  unfold lower. induction s as [|c s IH]; [reflexivity|].
  cbn [forallb flat_map]. intros H. apply andb_true_iff in H as [Hc Hs].
  rewrite has_char_app, lower_char_colon, IH by assumption. reflexivity.
Qed.

Lemma split_first_head c x s a ob :
  split_first c (x :: s) = (a, ob) ->
  (x = c /\ a = []) \/ (x <> c /\ exists a', a = x :: a').
Proof.
  unfold split_first. cbn [break_at]. destruct (N.eqb_spec c x) as [->|Hne].
  - intros [= <- <-]. left. split; reflexivity.
  - destruct (break_at (N.eqb c) s) as [a' b'].
    destruct b'; intros [= <- <-]; right; split; try congruence; eauto.
Qed.

Section Split.

Variable nr : pystr -> bool.

Lemma split_scheme_spec U sc U1 :
  clean U -> split_scheme U [] = (sc, U1) ->
  has_char c_colon sc = false /\ clean U1.
Proof.
  intros HU. unfold split_scheme.
  destruct (break_at (N.eqb c_colon) U) as [pre rest] eqn:Hb.
  apply break_at_spec in Hb as (HUeq & _ & _).
  destruct pre as [|c0 pre]; [intros [= <- <-]; split; [reflexivity|exact HU]|].
  destruct rest as [|x rest]; [intros [= <- <-]; split; [reflexivity|exact HU]|].
  destruct (is_ascii_alpha c0 && forallb scheme_char (c0 :: pre)) eqn:Hok;
    intros [= <- <-]; [|split; [reflexivity|exact HU]].
  apply andb_true_iff in Hok as [_ Hok]. split.
  - apply (lower_scheme_colon (c0 :: pre)). exact Hok.
  - rewrite HUeq in HU. apply clean_app in HU as [_ HU].
    apply clean_cons in HU as [_ HU]. exact HU.
Qed.

Lemma split_netloc_spec U1 nl U2 :
  clean U1 ->
  (if eqb_str (take 2 U1) [c_slash; c_slash] then splitnetloc U1 else ([], U1))
  = (nl, U2) ->
  clean nl /\ clean U2 /\ lacks_delims nl
  /\ (nl <> [] -> U2 = [] \/ exists c u, U2 = c :: u /\ is_delim c = true).
Proof.
  intros HU1. destruct (eqb_str (take 2 U1) [c_slash; c_slash]) eqn:Hss.
  - unfold splitnetloc. intros Hnl.
    apply break_at_spec in Hnl as (Heq & Hn & Hrest).
    assert (HU1' : clean (drop 2 U1)).
    { rewrite <- (take_drop 2 U1) in HU1. apply clean_app in HU1. tauto. }
    rewrite Heq in HU1'. apply clean_app in HU1' as [Hc1 Hc2].
    apply is_delim_Forall in Hn.
    repeat split; try assumption; try apply Hn.
    intros _. exact Hrest.
  - intros [= <- <-]. repeat split; try assumption; try reflexivity.
    + constructor.
    + congruence.
Qed.

Lemma split_once_spec c s u f :
  split_once c s = (u, f) ->
  has_char c u = false /\ (s = u /\ f = [] \/ s = u ++ c :: f).
Proof.
  unfold split_once. destruct (split_first c s) as [u' o] eqn:Hs.
  apply split_first_spec in Hs as [Hu Heq].
  destruct o as [f'|]; intros [= <- <-]; (split; [exact Hu|]).
  - right. exact Heq.
  - left. rewrite app_nil_r in Heq. split; [exact Heq|reflexivity].
Qed.

Lemma split_once_clean c s u f :
  clean s -> split_once c s = (u, f) -> clean u /\ clean f.
Proof.
  intros Hs H. apply split_once_spec in H as [_ [[-> ->] | ->]].
  - split; [exact Hs|constructor].
  - apply clean_app in Hs as [A B]. apply clean_cons in B. tauto.
Qed.

Lemma split_once_head c x s u f :
  split_once c (x :: s) = (u, f) ->
  (x = c /\ u = []) \/ (x <> c /\ exists u', u = x :: u').
Proof.
  unfold split_once. destruct (split_first c (x :: s)) as [u' o] eqn:Hs.
  apply split_first_head in Hs. destruct o; intros [= <- <-]; exact Hs.
Qed.

Lemma urlsplit_well_split url r :
  urlsplit nr url [] = Returns r -> well_split nr r.
Proof.
  unfold urlsplit.
  set (U := remove_unsafe (lstrip_with c0_control_or_space url)).
  assert (HU : clean U) by apply remove_unsafe_clean.
  change (remove_unsafe
            (rstrip_with c0_control_or_space
               (lstrip_with c0_control_or_space []))) with ([] : pystr).
  destruct (split_scheme U []) as [sc U1] eqn:Hsc.
  apply (split_scheme_spec U sc U1 HU) in Hsc as [Hcolon HU1].
  destruct (if eqb_str (take 2 U1) [c_slash; c_slash] then splitnetloc U1
            else ([], U1)) as [nl U2] eqn:Hnl.
  apply (split_netloc_spec U1 nl U2 HU1) in Hnl as (Hnlc & HU2 & Hnld & Hnext).
  destruct (negb (bool_decide (nl = [])) && nr nl) eqn:Hrej;
    [intros Hr; discriminate Hr|].
  destruct (split_once c_hash U2) as [u1 fr] eqn:Hf.
  destruct (split_once c_quest u1) as [u2 q] eqn:Hq.
  intros [= <-].
  destruct (split_once_clean _ _ _ _ HU2 Hf) as [Hcu1 Hcf].
  destruct (split_once_clean _ _ _ _ Hcu1 Hq) as [Hcu2 Hcq].
  pose proof (split_once_spec _ _ _ _ Hf) as [Hu1h _].
  pose proof (split_once_spec _ _ _ _ Hq) as [Hu2q Hu1eq].
  assert (Hh : has_char c_hash u2 = false /\ has_char c_hash q = false).
  { destruct Hu1eq as [[-> ->] | ->]; [split; [exact Hu1h|reflexivity]|].
    rewrite has_char_app, has_char_cons in Hu1h.
    rewrite !orb_false_iff in Hu1h. tauto. }
  constructor; cbn [scheme netloc path params query fragment];
    try assumption; try tauto; try apply clean_nil;
    try (repeat split; reflexivity).
  - intros Hne. destruct (bool_decide (nl = [])) eqn:Hd.
    + apply bool_decide_eq_true in Hd. contradiction.
    + exact Hrej.
  - intros Hne. destruct (Hnext Hne) as [->|(c & u & -> & Hc)].
    + cbn in Hf. inversion Hf; subst. cbn in Hq. inversion Hq; subst.
      left. reflexivity.
    + apply split_once_head in Hf as [[-> ->] | [Hc1 (a1 & ->)]].
      { cbn in Hq. inversion Hq; subst. left. reflexivity. }
      apply split_once_head in Hq as [[-> ->] | [Hc2 (a2 & ->)]].
      { left. reflexivity. }
      right. exists a2. f_equal. unfold is_delim in Hc.
      rewrite !orb_true_iff, !N.eqb_eq in Hc.
      destruct Hc as [[Hc|Hc]|Hc]; congruence.
Qed.

Lemma urlparse_well_split url r :
  urlparse nr url [] = Returns r -> well_split nr r.
Proof.
  unfold urlparse. destruct (urlsplit nr url []) as [r0|] eqn:Hs; [|discriminate].
  apply urlsplit_well_split in Hs. destruct Hs.
  destruct (uses_params (scheme r0) && has_char c_semi (path r0)) eqn:Hp.
  2:{ intros [= <-]. constructor; assumption. }
  destruct (splitparams (path r0)) as [p ps] eqn:Hsp.
  intros [= <-].
  apply splitparams_spec in Hsp as [[-> ->]|[Heq Hps]].
  { destruct r0. cbn [scheme netloc path params query fragment] in *.
    constructor; cbn [scheme netloc path params query fragment];
      try assumption; try apply clean_nil; try (repeat split; reflexivity).
    intros H. congruence. }
  cbn [scheme netloc path params query fragment] in *.
  rewrite Heq in ws_path_clean0, ws_path_quest0, ws_path_hash0, ws_path_rooted0.
  apply clean_app in ws_path_clean0 as [Hcp Hcps].
  apply clean_cons in Hcps as [_ Hcps].
  rewrite has_char_app, has_char_cons in ws_path_quest0, ws_path_hash0.
  apply orb_false_iff in ws_path_quest0 as [Hq1 Hq2].
  apply orb_false_iff in Hq2 as [_ Hq2].
  apply orb_false_iff in ws_path_hash0 as [Hh1 Hh2].
  apply orb_false_iff in Hh2 as [_ Hh2].
  constructor; cbn [scheme netloc path params query fragment];
    try assumption.
  - intros Hne. destruct (ws_path_rooted0 Hne) as [H|(p' & H)].
    + destruct p; discriminate H.
    + destruct p as [|c p0]; [discriminate H|].
      inversion H; subst. right. eauto.
  - repeat split; assumption.
  - intros _. destruct (netloc r0) as [|c nl] eqn:Hnl; [right; reflexivity|].
    left. destruct (ws_path_rooted0 ltac:(discriminate)) as [H|(p' & H)].
    + destruct p; discriminate H.
    + destruct p; [discriminate H|discriminate].
Qed.

End Split.

End ParseProps.

(** ** Parsing what [urlunparse] wrote *)

Module ReparseProps.

Import Urllib UrlShapes QuoteProps SplitProps ParseProps.

Lemma bool_decide_nil_cons (x : N) (l : pystr)
    {H : Decision (x :: l = [])} :
  bool_decide (x :: l = []) = false.
Proof. apply bool_decide_eq_false. discriminate. Qed.

Lemma app_with_delim u d (s : pystr) {H : Decision (s = [])} :
  (if bool_decide (s = []) then u else u ++ d :: s) = u ++ with_delim d s.
Proof.
  destruct s.
  - rewrite bool_decide_eq_true_2 by reflexivity. cbn. rewrite app_nil_r.
    reflexivity.
  - rewrite bool_decide_eq_false_2 by discriminate. reflexivity.
Qed.

Lemma urlunparse_shape nr c :
  canonical nr c ->
  urlunparse c
  = scheme c ++ c_colon :: c_slash :: c_slash :: netloc c ++ tail_of c.
Proof.
  intros Hc. destruct Hc. destruct c as [sc nl p pa q fr].
  cbn [scheme netloc path params query fragment] in *.
  unfold urlunparse, urlunsplit, tail_of.
  cbn [scheme netloc path params query fragment].
  rewrite (app_with_delim p c_semi pa).
  set (u := p ++ with_delim c_semi pa).
  assert (Hu : rooted u).
  { subst u. destruct can_path_rooted0 as [->|(p' & ->)].
    - destruct pa as [|x pa]; [left; reflexivity|].
      exfalso. apply can_params_path0; [discriminate|reflexivity].
    - right. eexists. reflexivity. }
  destruct nl as [|n0 nl]; [congruence|].
  rewrite bool_decide_nil_cons. cbn [negb orb].
  match goal with
  | |- context [if ?cond then c_slash :: u else u] =>
    assert (Hroot : (if cond then c_slash :: u else u) = u)
      by (destruct Hu as [->|(u' & ->)]; reflexivity);
    rewrite Hroot
  end.
  match goal with
  | |- context [@bool_decide (sc = []) ?d] =>
    assert (Hsc : @bool_decide (sc = []) d = false)
      by (destruct can_scheme0 as [->| ->]; reflexivity);
    rewrite Hsc
  end.
  rewrite (app_with_delim _ c_quest q), (app_with_delim _ c_hash fr).
  cbn [app]. rewrite <- !app_assoc. cbn [app]. rewrite <- !app_assoc.
  reflexivity.
Qed.

Lemma with_delim_clean d s :
  unsafe_url_byte d = false -> clean s -> clean (with_delim d s).
Proof.
  intros Hd Hs. destruct s; [constructor|]. apply clean_cons. tauto.
Qed.

Lemma with_delim_has c d s :
  c <> d -> has_char c (with_delim d s) = has_char c s.
Proof.
  intros Hne. destruct s as [|x s]; [reflexivity|].
  cbn [with_delim]. rewrite (has_char_cons c d).
  apply N.eqb_neq in Hne. rewrite Hne. reflexivity.
Qed.

Lemma split_once_with_delim c u s :
  has_char c u = false -> split_once c (u ++ with_delim c s) = (u, s).
Proof.
  intros Hu. unfold split_once. destruct s as [|x s].
  - cbn [with_delim]. rewrite app_nil_r, split_first_none by exact Hu.
    reflexivity.
  - cbn [with_delim]. rewrite split_first_found by exact Hu. reflexivity.
Qed.

Lemma split_scheme_http rest :
  split_scheme (py "http" ++ c_colon :: rest) [] = (py "http", rest).
Proof. reflexivity. Qed.

Lemma split_scheme_https rest :
  split_scheme (py "https" ++ c_colon :: rest) [] = (py "https", rest).
Proof. reflexivity. Qed.

Section Reparse.

Variable nr : pystr -> bool.

(** Reading the URL written from canonical components gives the
    components back. *)
Lemma urlparse_urlunparse c :
  canonical nr c -> urlparse nr (urlunparse c) [] = Returns c.
Proof.
  intros Hc. rewrite (urlunparse_shape nr c Hc).
  destruct Hc. destruct c as [sc nl p pa q fr].
  cbn [scheme netloc path params query fragment] in *.
  set (T := tail_of (mkParse sc nl p pa q fr)).
  set (u := p ++ with_delim c_semi pa).
  assert (HT : T = u ++ with_delim c_quest q ++ with_delim c_hash fr)
    by reflexivity.
  assert (Hu_clean : clean u).
  { apply clean_app. split; [assumption|].
    apply with_delim_clean; [reflexivity|assumption]. }
  assert (HT_clean : clean T).
  { rewrite HT. repeat (apply clean_app; split); try assumption;
      apply with_delim_clean; try assumption; reflexivity. }
  destruct can_params_delims0 as (Hpa1 & Hpa2 & Hpa3).
  assert (Hu_quest : has_char c_quest u = false).
  { subst u. rewrite has_char_app, with_delim_has by discriminate.
    rewrite can_path_quest0, Hpa2. reflexivity. }
  assert (Hu_hash : has_char c_hash u = false).
  { subst u. rewrite has_char_app, with_delim_has by discriminate.
    rewrite can_path_hash0, Hpa3. reflexivity. }
  assert (Hu : rooted u).
  { subst u. destruct can_path_rooted0 as [->|(p' & ->)].
    - destruct pa as [|x pa]; [left; reflexivity|].
      exfalso. apply can_params_path0; [discriminate|reflexivity].
    - right. eexists. reflexivity. }
  assert (HT_next : T = [] \/ exists x t, T = x :: t /\ is_delim x = true).
  { rewrite HT. destruct Hu as [->|(u' & ->)].
    - cbn [app]. destruct q as [|x q].
      + cbn [with_delim app]. destruct fr as [|y fr]; [left; reflexivity|].
        right. exists c_hash, (y :: fr). split; reflexivity.
      + right. eexists c_quest, _. split; reflexivity.
    - right. eexists c_slash, _. split; reflexivity. }
  assert (Hrest_clean : clean (c_slash :: c_slash :: nl ++ T)).
  { apply clean_cons. split; [reflexivity|].
    apply clean_cons. split; [reflexivity|].
    apply clean_app. split; assumption. }
  unfold urlparse, urlsplit.
  change (remove_unsafe
            (rstrip_with c0_control_or_space
               (lstrip_with c0_control_or_space []))) with ([] : pystr).
  assert (Hstrip : remove_unsafe
                     (lstrip_with c0_control_or_space
                        (sc ++ c_colon :: c_slash :: c_slash :: nl ++ T))
                   = sc ++ c_colon :: c_slash :: c_slash :: nl ++ T).
  { destruct can_scheme0 as [->| ->]; cbn [py List.map list_ascii_of_string app];
      cbn [lstrip_with c0_control_or_space N_of_ascii N_of_digits];
      (rewrite remove_unsafe_id; [reflexivity|]);
      repeat (apply clean_cons; split; [reflexivity|]);
      apply clean_app; split; assumption. }
  rewrite Hstrip.
  assert (Hsplit : split_scheme (sc ++ c_colon :: c_slash :: c_slash :: nl ++ T) []
                   = (sc, c_slash :: c_slash :: nl ++ T)).
  { destruct can_scheme0 as [->| ->];
      [apply split_scheme_http|apply split_scheme_https]. }
  rewrite Hsplit.
  change (eqb_str (take 2 (c_slash :: c_slash :: nl ++ T)) [c_slash; c_slash])
    with true. cbv iota.
  unfold splitnetloc. change (drop 2 (c_slash :: c_slash :: nl ++ T)) with (nl ++ T).
  rewrite (break_at_app _ nl T).
  2:{ apply (proj2 (is_delim_Forall nl)). assumption. }
  2:{ exact HT_next. }
  assert (Hnl : bool_decide (nl = []) = false)
    by (apply bool_decide_eq_false; assumption).
  rewrite Hnl, can_netloc_ok0. cbn [negb andb].
  rewrite HT, app_assoc.
  rewrite split_once_with_delim.
  2:{ rewrite has_char_app, with_delim_has by discriminate.
      rewrite Hu_hash, can_query_hash0. reflexivity. }
  rewrite split_once_with_delim by exact Hu_quest.
  cbn [scheme path].
  assert (Hparams : uses_params sc = true)
    by (destruct can_scheme0 as [->| ->]; reflexivity).
  rewrite Hparams. cbn [andb]. subst u.
  destruct pa as [|x pa].
  - cbn [with_delim]. rewrite app_nil_r.
    destruct (has_char c_semi p); [|reflexivity].
    rewrite splitparams_none by assumption. reflexivity.
  - cbn [with_delim]. rewrite has_char_app, has_char_cons, N.eqb_refl.
    rewrite orb_true_r.
    rewrite splitparams_app by assumption. reflexivity.
Qed.

End Reparse.

End ReparseProps.
(** ** The URL normaliser *)

Module NormalizeProps.

Import Urllib UrlShapes Url QuoteProps EncodeProps SplitProps ParseProps ReparseProps.

Lemma chars_lack (P : N -> bool) q (x : N) :
  Forall (fun c => P c = true) q -> P x = false -> has_char x q = false.
Proof.
  intros Hq Hx. apply not_true_is_false. intros H.
  apply has_char_In in H. rewrite List.Forall_forall in Hq.
  apply Hq in H. congruence.
Qed.

Lemma chars_clean (P : N -> bool) q :
  Forall (fun c => P c = true) q ->
  P c_tab = false -> P c_lf = false -> P c_cr = false -> clean q.
Proof.
  intros Hq Ht Hl Hc. eapply Forall_impl; [exact Hq|].
  intros c HP. cbv beta in HP. unfold unsafe_url_byte.
  destruct (N.eqb_spec c c_tab) as [->|_]; [congruence|].
  destruct (N.eqb_spec c c_lf) as [->|_]; [congruence|].
  destruct (N.eqb_spec c c_cr) as [->|_]; [congruence|].
  reflexivity.
Qed.

Lemma urlunparse_netloc c :
  netloc c <> [] -> rooted (path c) -> (params c <> [] -> path c <> []) ->
  urlunparse c
  = scheme_prefix (scheme c) ++ c_slash :: c_slash :: netloc c ++ tail_of c.
Proof.
  destruct c as [sc nl p pa q fr].
  cbn [scheme netloc path params query fragment].
  intros Hnl Hp Hpa.
  unfold urlunparse, urlunsplit, tail_of.
  cbn [scheme netloc path params query fragment].
  rewrite (app_with_delim p c_semi pa).
  set (u := p ++ with_delim c_semi pa).
  assert (Hu : rooted u).
  { subst u. destruct Hp as [->|(p' & ->)].
    - destruct pa as [|x pa]; [left; reflexivity|].
      exfalso. apply Hpa; [discriminate|reflexivity].
    - right. eexists. reflexivity. }
  destruct nl as [|n0 nl]; [congruence|].
  rewrite bool_decide_nil_cons. cbn [negb orb].
  match goal with
  | |- context [if ?cond then c_slash :: u else u] =>
    assert (Hroot : (if cond then c_slash :: u else u) = u)
      by (destruct Hu as [->|(u' & ->)]; reflexivity);
    rewrite Hroot
  end.
  rewrite (app_with_delim _ c_quest q), (app_with_delim _ c_hash fr).
  destruct sc as [|s0 sc].
  - cbn [scheme_prefix]. rewrite bool_decide_eq_true_2 by reflexivity.
    cbn [app]. rewrite <- ?app_assoc. cbn [app]. rewrite <- ?app_assoc.
    reflexivity.
  - rewrite bool_decide_nil_cons. cbn [scheme_prefix].
    cbn [app]. rewrite <- ?app_assoc. cbn [app]. rewrite <- ?app_assoc.
    reflexivity.
Qed.

Ltac eqb_cases H :=
  repeat match type of H with
         | context [N.eqb ?a ?b] =>
           destruct (N.eqb_spec a b); cbn [andb orb] in H; try discriminate H
         end.

(** A written URL that starts with [http://] or [https://] has that
    scheme. *)
Lemma absolute_scheme sc rest :
  has_char c_colon sc = false ->
  is_absolute (scheme_prefix sc ++ c_slash :: c_slash :: rest) = true ->
  sc = py "http" \/ sc = py "https".
Proof.
  unfold is_absolute, startswith_any. cbn [existsb].
  change (py "http://") with [104; 116; 116; 112; 58; 47; 47].
  change (py "https://") with [104; 116; 116; 112; 115; 58; 47; 47].
  change (py "http") with [104; 116; 116; 112].
  change (py "https") with [104; 116; 116; 112; 115].
  unfold has_char.
  destruct sc as [|a [|b [|c [|d [|e [|f sc]]]]]];
    cbn [scheme_prefix app startswith existsb]; intros Hc H;
    change c_colon with 58 in *; change c_slash with 47 in *;
    eqb_cases H; subst; try discriminate Hc; auto.
Qed.

Section Normalize.

Variable nr : pystr -> bool.

Lemma non_fetchable_unchanged u b :
  non_fetchable u = true -> normalize_url nr u b = u.
Proof. intros H. unfold normalize_url. rewrite H. reflexivity. Qed.

Lemma resolve_raises_unchanged u b :
  resolve nr u b = Raises -> normalize_url nr u b = u.
Proof.
  intros H. unfold normalize_url. rewrite H. destruct (non_fetchable u); reflexivity.
Qed.

Lemma resolve_none_unchanged u b :
  resolve nr u b = Returns None -> normalize_url nr u b = u.
Proof.
  intros H. unfold normalize_url. rewrite H. destruct (non_fetchable u); reflexivity.
Qed.

Lemma normalize_raises_unchanged u b F :
  resolve nr u b = Returns (Some F) -> normalize_full nr F = Raises ->
  normalize_url nr u b = u.
Proof.
  intros H HF. unfold normalize_url. rewrite H, HF.
  destruct (non_fetchable u); reflexivity.
Qed.

Lemma resolve_relative_no_base u :
  is_absolute u = false -> resolve nr u None = Returns None.
Proof. intros H. unfold resolve. rewrite H. reflexivity. Qed.

Lemma resolve_absolute u b :
  is_absolute u = true -> resolve nr u b = Returns (Some u).
Proof. intros H. unfold resolve. rewrite H. reflexivity. Qed.

(** A second pass over a string the first pass returned as it was. *)
Lemma second_pass_unchanged u b :
  normalize_url nr u b = u ->
  (forall F, resolve nr u b = Returns (Some F) -> normalize_full nr F = Raises) ->
  normalize_url nr u None = u.
Proof.
  intros Hu HF. destruct (non_fetchable u) eqn:Hn.
  - apply non_fetchable_unchanged. exact Hn.
  - destruct (is_absolute u) eqn:Ha.
    + eapply normalize_raises_unchanged.
      * apply resolve_absolute. exact Ha.
      * apply HF. apply resolve_absolute. exact Ha.
    + apply resolve_none_unchanged, resolve_relative_no_base. exact Ha.
Qed.

(** The components the first pass writes. *)
Lemma first_pass_rooted r ep :
  well_split nr r -> netloc r <> [] ->
  encode_path (path r) = Returns ep ->
  rooted ep /\ (params r <> [] -> ep <> []).
Proof.
  intros Hw Hnl Hep. destruct Hw.
  destruct (ws_path_rooted0 Hnl) as [Hp|(p' & Hp)].
  - rewrite Hp in Hep. apply encode_path_nil in Hep. subst ep.
    split; [left; reflexivity|].
    intros Hpa. destruct (ws_params_path0 Hpa); congruence.
  - rewrite Hp in Hep. apply encode_path_rooted in Hep as (e' & ->).
    split; [right; eexists; reflexivity|discriminate].
Qed.

Lemma first_pass_canonical r ep eq :
  well_split nr r ->
  scheme r = py "http" \/ scheme r = py "https" ->
  netloc r <> [] -> is_google_fonts (netloc r) = false ->
  encode_path (path r) = Returns ep ->
  encode_query (netloc r) (query r) = Returns eq ->
  canonical nr (mkParse (scheme r) (netloc r) ep (params r) eq (fragment r)).
Proof.
  intros Hw Hsc Hnl Hg Hep Heq.
  destruct (first_pass_rooted r ep Hw Hnl Hep) as [Hroot Hpar].
  pose proof (encode_path_chars _ _ Hep) as Hpc.
  pose proof (encode_query_chars _ _ _ Hg Heq) as Hqc.
  destruct Hw.
  constructor; cbn [scheme netloc path params query fragment]; auto.
  - apply (chars_clean path_char); [exact Hpc|reflexivity..].
  - apply (chars_lack path_char); [exact Hpc|reflexivity].
  - apply (chars_lack path_char); [exact Hpc|reflexivity].
  - apply last_segment_has. apply (chars_lack path_char); [exact Hpc|reflexivity].
  - apply (chars_clean (quoted_char (py "=&"))); [exact Hqc|reflexivity..].
  - apply (chars_lack (quoted_char (py "=&"))); [exact Hqc|reflexivity].
Qed.

(** A canonical URL whose path and query are already encoded is left as
    it is. *)
Lemma normalize_full_canonical c :
  canonical nr c ->
  encode_path (path c) = Returns (path c) ->
  encode_query (netloc c) (query c) = Returns (query c) ->
  normalize_full nr (urlunparse c) = Returns (urlunparse c).
Proof.
  intros Hc Hp Hq. unfold normalize_full.
  rewrite (urlparse_urlunparse nr c Hc), Hp, Hq.
  destruct c; reflexivity.
Qed.

Lemma normalize_full_idempotent F r R :
  urlparse nr F [] = Returns r ->
  netloc r <> [] -> is_google_fonts (netloc r) = false ->
  normalize_full nr F = Returns R ->
  is_absolute R = true ->
  normalize_full nr R = Returns R.
Proof.
  intros Hr Hnl Hg HR Ha. unfold normalize_full in HR. rewrite Hr in HR.
  destruct (encode_path (path r)) as [ep|] eqn:Hep; [|discriminate].
  destruct (encode_query (netloc r) (query r)) as [eq|] eqn:Heq; [|discriminate].
  injection HR as <-.
  pose proof (urlparse_well_split nr _ _ Hr) as Hw.
  destruct (first_pass_rooted r ep Hw Hnl Hep) as [Hroot Hpar].
  set (c := mkParse (scheme r) (netloc r) ep (params r) eq (fragment r)) in *.
  assert (Hshape := urlunparse_netloc c Hnl Hroot Hpar).
  rewrite Hshape in Ha.
  apply absolute_scheme in Ha; [|apply (ws_scheme nr r Hw)].
  apply normalize_full_canonical.
  - apply first_pass_canonical; assumption.
  - apply (encode_path_idempotent _ _ Hep).
  - apply (encode_query_idempotent _ _ _ Hg Heq).
Qed.

Lemma normalize_full_parses F R :
  normalize_full nr F = Returns R -> exists r, urlparse nr F [] = Returns r.
Proof.
  unfold normalize_full. destruct (urlparse nr F []) as [r|]; [|discriminate].
  intros _. exists r. reflexivity.
Qed.

End Normalize.

(** C5.  The normaliser returns a string for every input (the decoding
    loops reach a string that [unquote] leaves alone within the bound of
    the embedding), and it returns the input itself when the input is empty
    or starts with [data:], [javascript:] or [#], when resolving against the
    base raises, when a relative reference has no base, and when parsing or
    re-encoding the resolved URL raises. *)
Theorem normalize_url_total_and_passes_failures_through
    (nr : pystr -> bool) :
  (forall s, unquote (decode_repeatedly s) = decode_repeatedly s)
  /\ (forall u b,
        non_fetchable u = true
        \/ resolve nr u b = Raises
        \/ resolve nr u b = Returns None
        \/ (exists F, resolve nr u b = Returns (Some F)
                      /\ normalize_full nr F = Raises) ->
        normalize_url nr u b = u)
  /\ (forall u, is_absolute u = false -> normalize_url nr u None = u).
Proof.
  split; [exact decode_repeatedly_fixed|]. split.
  - intros u b [H|[H|[H|(F & H & HF)]]].
    + apply non_fetchable_unchanged, H.
    + apply resolve_raises_unchanged, H.
    + apply resolve_none_unchanged, H.
    + eapply normalize_raises_unchanged; eassumption.
  - intros u H. apply resolve_none_unchanged, resolve_relative_no_base, H.
Qed.

Lemma normalize_url_total_and_passes_failures_through_witness :
  (exists F, resolve Examples.brackets_unpaired (py "http://[::1/x") None
             = Returns (Some F)
             /\ normalize_full Examples.brackets_unpaired F = Raises)
  /\ normalize_url Examples.brackets_unpaired (py "http://[::1/x") None
     = py "http://[::1/x".
Proof.
  assert (H : exists F, resolve Examples.brackets_unpaired (py "http://[::1/x") None
                        = Returns (Some F)
                        /\ normalize_full Examples.brackets_unpaired F = Raises).
  { exists (py "http://[::1/x"). split; reflexivity. }
  split; [exact H|].
  apply (proj1 (proj2 (normalize_url_total_and_passes_failures_through
                         Examples.brackets_unpaired))).
  right. right. right. exact H.
Defined.

(** C1, as stated, fails: for a font-service URL the query is decoded and
    written back verbatim, so an encoded [#] in the query becomes the
    start of a fragment in the result, and the second pass then drops the
    empty query. *)
Lemma font_service_query_not_idempotent :
  let u := py "https://fonts.googleapis.com/css?%23b" in
  let once := normalize_url Examples.brackets_unpaired u None in
  let twice := normalize_url Examples.brackets_unpaired once None in
  once = py "https://fonts.googleapis.com/css?#b"
  /\ twice = py "https://fonts.googleapis.com/css#b"
  /\ twice <> once.
Proof. vm_compute. repeat split. discriminate. Qed.

(** A URL without a host whose path starts with two slashes is not a
    fixed point either: each pass reads one pair of slashes as the start
    of the host. *)
Example empty_host_not_idempotent :
  let u := py "http://////" in
  let once := normalize_url Examples.brackets_unpaired u None in
  let twice := normalize_url Examples.brackets_unpaired once None in
  once = py "http:////" /\ twice = py "http://".
Proof. vm_compute. split; reflexivity. Qed.

(** C1, amended.  Normalising the result of a normalisation returns it
    unchanged for every reference and base whose resolved URL, when it
    parses, has a non-empty host that is not the font service. *)
Theorem normalize_url_idempotent_outside_font_service
    (nr : pystr -> bool) (u : pystr) (b : option pystr) :
  (forall F r,
      resolve nr u b = Returns (Some F) -> urlparse nr F [] = Returns r ->
      netloc r <> [] /\ is_google_fonts (netloc r) = false) ->
  normalize_url nr (normalize_url nr u b) None = normalize_url nr u b.
Proof.
  intros H.
  destruct (resolve nr u b) as [[F|]|] eqn:Hres.
  - destruct (normalize_full nr F) as [R|] eqn:HR.
    + destruct (non_fetchable u) eqn:Hn.
      { rewrite (non_fetchable_unchanged nr u b Hn).
        apply non_fetchable_unchanged. exact Hn. }
      assert (HuR : normalize_url nr u b = R).
      { unfold normalize_url. rewrite Hn, Hres, HR. reflexivity. }
      rewrite HuR.
      destruct (non_fetchable R) eqn:HnR;
        [apply non_fetchable_unchanged; exact HnR|].
      destruct (is_absolute R) eqn:Ha.
      * destruct (normalize_full_parses nr F R HR) as [r Hr].
        destruct (H F r eq_refl Hr) as [Hnl Hg].
        unfold normalize_url.
        rewrite HnR, (resolve_absolute nr R None Ha).
        rewrite (normalize_full_idempotent nr F r R Hr Hnl Hg HR Ha).
        reflexivity.
      * apply resolve_none_unchanged, resolve_relative_no_base. exact Ha.
    + assert (Hu : normalize_url nr u b = u)
        by (eapply normalize_raises_unchanged; eassumption).
      rewrite Hu. apply (second_pass_unchanged nr u b Hu).
      intros F' HF'. rewrite Hres in HF'. injection HF' as <-. exact HR.
  - assert (Hu : normalize_url nr u b = u)
      by (apply resolve_none_unchanged; exact Hres).
    rewrite Hu. apply (second_pass_unchanged nr u b Hu).
    intros F' HF'. rewrite Hres in HF'. discriminate HF'.
  - assert (Hu : normalize_url nr u b = u)
      by (apply resolve_raises_unchanged; exact Hres).
    rewrite Hu. apply (second_pass_unchanged nr u b Hu).
    intros F' HF'. rewrite Hres in HF'. discriminate HF'.
Qed.

Lemma normalize_url_idempotent_outside_font_service_witness :
  let nr := Examples.brackets_unpaired in
  let u := py "../img/a b%2520c.png?x=1 2#top" in
  let b := Some (py "https://example.com/ads/300x250/index.html") in
  (forall F r,
      resolve nr u b = Returns (Some F) -> urlparse nr F [] = Returns r ->
      netloc r <> [] /\ is_google_fonts (netloc r) = false)
  /\ normalize_url nr (normalize_url nr u b) None = normalize_url nr u b.
Proof.
  intros nr u b.
  assert (H : forall F r,
             resolve nr u b = Returns (Some F) -> urlparse nr F [] = Returns r ->
             netloc r <> [] /\ is_google_fonts (netloc r) = false).
  { intros F r HF Hr. vm_compute in HF. injection HF as <-.
    vm_compute in Hr. injection Hr as <-. split; [discriminate|reflexivity]. }
  split; [exact H|].
  apply (normalize_url_idempotent_outside_font_service nr u b H).
Defined.

End NormalizeProps.
(** ** Strings that [quote] can encode *)

Module ScalarProps.

Import Utf8 Urllib UrlShapes Url Utf8Props QuoteProps EncodeProps.

Lemma encode_char_scalar c : scalar c <-> encode_char c <> None.
Proof.
  unfold scalar, encode_char. split.
  - intros Hsc. ntests; discriminate.
  - ntests; cbn [andb]; intros Hne; try lia; congruence.
Qed.

Lemma encode_encodable s : encodable s <-> exists bs, encode s = Returns bs.
Proof.
  unfold encodable. split.
  - induction 1 as [|c s Hc _ (bs & IH)]; [exists []; reflexivity|].
    apply encode_char_scalar in Hc. cbn [encode].
    destruct (encode_char c) as [b|]; [|congruence].
    rewrite IH. eexists. reflexivity.
  - intros (bs & H). revert bs H.
    induction s as [|c s IH]; intros bs H; [constructor|].
    apply encode_cons in H as (b & bs' & Hb & Hs & _).
    constructor; [apply encode_char_scalar; congruence|eapply IH; exact Hs].
Qed.

Lemma quote_encodable s safe : encodable s <-> exists q, quote s safe = Returns q.
Proof.
  rewrite encode_encodable. unfold quote. split.
  - intros (bs & ->). eexists. reflexivity.
  - intros (q & H). destruct (encode s) as [bs|]; [eauto|discriminate].
Qed.

Lemma ascii_encodable s : is_ascii s -> encodable s.
Proof.
  intros Hs. eapply Forall_impl; [exact Hs|].
  intros c Hc. left. cbv beta in Hc. lia.
Qed.

Ltac bool_facts :=
  repeat match goal with
         | H : is_cont _ = true |- _ => unfold is_cont in H
         | H : second3_ok _ _ = true |- _ => unfold second3_ok in H
         | H : second4_ok _ _ = true |- _ => unfold second4_ok in H
         | H : _ && _ = true |- _ => apply andb_true_iff in H as [? ?]
         | H : negb _ = true |- _ => apply negb_true_iff in H
         | H : (_ <=? _) = true |- _ => apply N.leb_le in H
         | H : (_ <? _) = true |- _ => apply N.ltb_lt in H
         | H : (if (?a <? ?b) then _ else _) = false |- _ =>
           destruct (N.ltb_spec a b)
         | H : (_ =? _) = false |- _ => apply N.eqb_neq in H
         end.

(** The decoder yields code points that can be encoded again. *)
Lemma scan_scalar_bound n : forall bs,
  (length bs <= n)%nat -> Forall decoded_scalar (scan bs).
Proof.
  induction n as [|n IH]; intros bs Hn.
  - destruct bs; [constructor|simpl in Hn; lia].
  - destruct bs as [|b0 r0]; [constructor|]. simpl in Hn.
    assert (Hr : forall r, (length r <= length r0)%nat ->
                           Forall decoded_scalar (scan r))
      by (intros r Hle; apply IH; lia).
    cbn [scan].
    repeat match goal with
           | |- context [if (?a <? ?b) then _ else _] =>
             destruct (N.ltb_spec a b)
           | |- context [if ?b then _ else _] => destruct b eqn:?
           | |- context [match ?l with [] => _ | _ :: _ => _ end] =>
             destruct l
           end;
      (constructor;
       [cbn [decoded_scalar]; try exact I; unfold scalar; bool_facts; lia
       |try constructor; try (apply Hr; cbn [length]; lia)]).
Qed.

Lemma decode_replace_encodable bs : encodable (decode_replace bs).
Proof.
  unfold decode_replace, encodable.
  pose proof (scan_scalar_bound (length bs) bs (Nat.le_refl _)) as H.
  induction H as [|o l Ho _ IH]; [constructor|].
  cbn [List.map]. constructor; [|exact IH].
  destruct o as [c|]; [exact Ho|]. right. lia.
Qed.

Lemma unquote_runs_encodable s : forall run,
  encodable s -> encodable (unquote_runs s run).
Proof.
  induction s as [|c r IH]; intros run Hs; cbn [unquote_runs].
  - apply decode_replace_encodable.
  - inversion Hs as [|? ? Hc Hr]; subst.
    destruct (c <? 128); [apply IH; exact Hr|].
    apply Forall_app. split; [apply decode_replace_encodable|].
    constructor; [exact Hc|apply IH; exact Hr].
Qed.

Lemma unquote_encodable s : encodable s -> encodable (unquote s).
Proof.
  intros Hs. unfold unquote. destruct (has_char c_percent s); [|exact Hs].
  apply unquote_runs_encodable. exact Hs.
Qed.

Lemma unquote_loop_encodable fuel : forall s,
  encodable s -> encodable (unquote_loop fuel s).
Proof.
  induction fuel as [|fuel IH]; intros s Hs; [exact Hs|].
  cbn [unquote_loop]. destruct (eqb_str (unquote s) s); [exact Hs|].
  apply IH, unquote_encodable, Hs.
Qed.

Lemma decode_repeatedly_encodable s :
  encodable s -> encodable (decode_repeatedly s).
Proof. apply unquote_loop_encodable. Qed.

(** Every encodable segment, path and query has an encoded form. *)
Lemma encode_part_returns p :
  encodable p -> exists e, encode_part p = Returns e.
Proof.
  intros Hp. unfold encode_part. destruct p as [|c p]; [eexists; reflexivity|].
  apply quote_encodable, decode_repeatedly_encodable, Hp.
Qed.

Lemma encode_parts_returns ps :
  Forall encodable ps -> exists es, encode_parts ps = Returns es.
Proof.
  induction 1 as [|p ps Hp _ (es & IH)]; [eexists; reflexivity|].
  destruct (encode_part_returns p Hp) as (e & He).
  cbn [encode_parts]. rewrite He, IH. eexists. reflexivity.
Qed.

Lemma split_all_Forall (P : N -> Prop) sep s :
  Forall P s -> Forall (Forall P) (split_all sep s).
Proof.
  induction 1 as [|c s Hc Hs IH]; [repeat constructor|].
  cbn [split_all]. destruct (c =? sep).
  - constructor; [constructor|exact IH].
  - destruct (split_all sep s) as [|p ps]; [repeat constructor; exact Hc|].
    inversion IH; subst. constructor; [constructor; assumption|assumption].
Qed.

Lemma encode_path_returns p :
  encodable p -> exists e, encode_path p = Returns e.
Proof.
  intros Hp. unfold encode_path.
  destruct (encode_parts_returns (split_all c_slash p)) as (es & ->).
  - apply split_all_Forall. exact Hp.
  - eexists. reflexivity.
Qed.

(** The decoding loop gives the same string from [s] and from
    [unquote s]. *)
Lemma unquote_loop_fuel f1 : forall f2 s,
  (length s < f1)%nat -> (length s < f2)%nat ->
  unquote_loop f1 s = unquote_loop f2 s.
Proof.
  induction f1 as [|f1 IH]; intros f2 s H1 H2; [lia|].
  destruct f2 as [|f2]; [lia|]. cbn [unquote_loop].
  destruct (eqb_str (unquote s) s) eqn:Heq; [reflexivity|].
  apply eqb_str_false in Heq.
  destruct (unquote_shrinks s) as [Hle Hsame].
  assert (length (unquote s) <> length s) by (intros E; apply Heq, Hsame, E).
  apply IH; lia.
Qed.

Lemma decode_repeatedly_unquote s :
  decode_repeatedly (unquote s) = decode_repeatedly s.
Proof.
  unfold decode_repeatedly at 2. cbn [unquote_loop].
  destruct (eqb_str (unquote s) s) eqn:Heq.
  - apply eqb_str_true in Heq. rewrite Heq.
    apply decode_repeatedly_of_fixed. exact Heq.
  - apply eqb_str_false in Heq.
    destruct (unquote_shrinks s) as [Hle Hsame].
    assert (length (unquote s) <> length s) by (intros E; apply Heq, Hsame, E).
    apply unquote_loop_fuel; lia.
Qed.

(** A segment and its quoted form have the same encoded form. *)
Lemma encode_part_quoted p q :
  p <> [] -> quote p (py "-._~") = Returns q -> encode_part q = encode_part p.
Proof.
  intros Hp Hq. pose proof (unquote_quote _ _ _ safe_set_path Hq) as Hu.
  unfold encode_part. destruct p as [|c p]; [congruence|].
  destruct q as [|d q]; [discriminate Hu|].
  rewrite <- Hu, decode_repeatedly_unquote. reflexivity.
Qed.

End ScalarProps.
(** ** Relative references of one segment *)

Module JoinProps.

Import Urllib UrlShapes Url QuoteProps EncodeProps SplitProps ParseProps ReparseProps.
Import Utf8Props NormalizeProps ScalarProps.

(** *** Lists of segments *)

Lemma Forall_removelast {A} (P : A -> Prop) l :
  Forall P l -> Forall P (removelast l).
Proof.
  induction 1 as [|x l Hx Hl IH]; [constructor|].
  cbn [removelast]. destruct l; [constructor|].
  constructor; assumption.
Qed.

Lemma Forall_list_filter {A} (P : A -> Prop) f l :
  Forall P l -> Forall P (List.filter f l).
Proof.
  induction 1 as [|x l Hx Hl IH]; [constructor|].
  cbn [List.filter]. destruct (f x); [constructor|]; assumption.
Qed.

Lemma Forall_lstrip_with (P : N -> Prop) f s :
  Forall P s -> Forall P (lstrip_with f s).
Proof.
  induction 1 as [|x l Hx Hl IH]; [constructor|].
  cbn [lstrip_with]. destruct (f x); [exact IH|constructor; assumption].
Qed.

Lemma resolve_segments_Forall (P : pystr -> Prop) segments : forall resolved,
  Forall P segments -> Forall P resolved ->
  Forall P (resolve_segments segments resolved).
Proof.
  induction segments as [|seg rest IH]; intros resolved Hs Hr; [exact Hr|].
  inversion Hs; subst. cbn [resolve_segments].
  destruct (eqb_str seg [c_dot; c_dot]).
  - apply IH; [assumption|apply Forall_removelast; exact Hr].
  - destruct (eqb_str seg [c_dot]); apply IH; try assumption.
    apply Forall_app. split; [exact Hr|repeat constructor; assumption].
Qed.

Lemma resolve_segments_snoc segments e : forall resolved,
  e <> [c_dot; c_dot] -> e <> [c_dot] ->
  resolve_segments (segments ++ [e]) resolved
  = resolve_segments segments resolved ++ [e].
Proof.
  intros resolved H2 H1. revert resolved.
  induction segments as [|seg rest IH]; intros resolved.
  - cbn [app resolve_segments].
    apply eqb_str_false in H2, H1. rewrite H2, H1. reflexivity.
  - cbn [app resolve_segments].
    destruct (eqb_str seg [c_dot; c_dot]); [apply IH|].
    destruct (eqb_str seg [c_dot]); apply IH.
Qed.

Lemma filter_middle_snoc segments e :
  filter_middle (segments ++ [e])
  = match segments with
    | [] => []
    | first :: rest =>
      first :: List.filter (fun s => negb (bool_decide (s = []))) rest
    end ++ [e].
Proof.
  destruct segments as [|first rest]; [reflexivity|].
  cbn [app filter_middle]. rewrite rev_app_distr. cbn [rev app].
  rewrite rev_involutive. reflexivity.
Qed.

Lemma join_snoc sep segments e :
  join sep (segments ++ [e]) = flat_map (fun s => s ++ sep) segments ++ e.
Proof.
  induction segments as [|s rest IH]; [reflexivity|].
  cbn [app flat_map]. destruct rest as [|s' rest'].
  - cbn [app join flat_map]. rewrite <- !app_assoc. reflexivity.
  - cbn [app] in *. rewrite join_cons, IH, <- !app_assoc. reflexivity.
Qed.

Lemma split_all_snoc sep d e :
  has_char sep e = false ->
  split_all sep (d ++ sep :: e) = split_all sep d ++ [e].
Proof.
  intros He. induction d as [|c d IH].
  - cbn [app split_all]. rewrite N.eqb_refl, split_all_no_sep by exact He.
    reflexivity.
  - cbn [app split_all]. destruct (c =? sep).
    + rewrite IH. reflexivity.
    + rewrite IH. pose proof (split_all_not_nil sep d) as Hne.
      destruct (split_all sep d) as [|p ps]; [congruence|]. reflexivity.
Qed.

Lemma encode_parts_snoc parts e :
  encode_parts (parts ++ [e])
  = match encode_parts parts, encode_part e with
    | Returns es, Returns x => Returns (es ++ [x])
    | _, _ => Raises
    end.
Proof.
  induction parts as [|p ps IH].
  - cbn [app encode_parts]. destruct (encode_part e); reflexivity.
  - cbn [app encode_parts]. rewrite IH.
    destruct (encode_part p); [|reflexivity].
    destruct (encode_parts ps); [|reflexivity].
    destruct (encode_part e); reflexivity.
Qed.

(** Two paths that differ in a last segment with the same encoded form
    have the same encoded form. *)
Lemma encode_path_last d e1 e2 :
  has_char c_slash e1 = false -> has_char c_slash e2 = false ->
  encode_part e2 = encode_part e1 ->
  encode_path (d ++ c_slash :: e2) = encode_path (d ++ c_slash :: e1).
Proof.
  intros H1 H2 He. unfold encode_path.
  rewrite !split_all_snoc by assumption.
  rewrite !encode_parts_snoc, He. reflexivity.
Qed.

Lemma directory_Forall (P : N -> Prop) bpath :
  Forall P bpath -> P c_slash -> Forall P (directory bpath).
Proof.
  intros Hb Hs. unfold directory.
  assert (Hsegs : Forall (Forall P) (directory_segments bpath)).
  { unfold directory_segments.
    pose proof (split_all_Forall P c_slash bpath Hb) as Hsp.
    cbv zeta.
    match goal with
    | |- Forall _ (match ?t with [] => _ | _ :: _ => _ end) =>
      assert (Hparts : Forall (Forall P) t)
        by (destruct (bool_decide _); [|apply Forall_removelast]; exact Hsp);
      destruct t as [|first rest]
    end; [constructor|].
    inversion Hparts; subst.
    constructor; [assumption|apply Forall_list_filter; assumption]. }
  pose proof (resolve_segments_Forall (Forall P) _ [] Hsegs ltac:(constructor)) as Hres.
  induction Hres as [|s l Hsx _ IH]; [constructor|].
  cbn [flat_map]. repeat (apply Forall_app; split); try assumption.
  repeat constructor. exact Hs.
Qed.

Lemma directory_ends bpath :
  directory bpath = [] \/ exists d, directory bpath = d ++ [c_slash].
Proof.
  unfold directory.
  destruct (resolve_segments (directory_segments bpath) []) as [|s l] using rev_ind;
    [left; reflexivity|].
  right. rewrite flat_map_app. cbn [flat_map]. rewrite app_nil_r, app_assoc.
  eexists. reflexivity.
Qed.

Lemma root_ends bpath : exists d, root (directory bpath) = d ++ [c_slash].
Proof.
  unfold root. destruct (directory_ends bpath) as [->|(d & ->)].
  - exists []. reflexivity.
  - destruct (startswith [c_slash] (d ++ [c_slash])).
    + exists d. reflexivity.
    + exists (c_slash :: d). reflexivity.
Qed.

Lemma root_rooted p : exists p', root p = c_slash :: p'.
Proof.
  unfold root. destruct p as [|x p]; [exists []; reflexivity|].
  cbn [startswith]. destruct (N.eqb_spec c_slash x) as [<-|_].
  - exists p. reflexivity.
  - eexists. reflexivity.
Qed.

Lemma root_app d x e : x <> c_slash -> root (d ++ x :: e) = root d ++ x :: e.
Proof.
  intros Hx. unfold root. destruct d as [|y d].
  - cbn [app startswith]. destruct (N.eqb_spec c_slash x); [congruence|].
    reflexivity.
  - cbn [app startswith]. destruct (c_slash =? y); reflexivity.
Qed.

Lemma root_Forall (P : N -> Prop) p : Forall P p -> P c_slash -> Forall P (root p).
Proof.
  intros Hp Hs. unfold root. destruct (startswith [c_slash] p); [exact Hp|].
  constructor; assumption.
Qed.

(** *** References made of unreserved characters and [%] *)

Lemma plain_above_space c :
  quoted_char (py "-._~") c = true -> c0_control_or_space c = false.
Proof.
  unfold c0_control_or_space. destruct (N.leb_spec c 32) as [Hle|]; [|reflexivity].
  intros H. exfalso. revert H.
  unfold quoted_char, always_safe, is_ascii_alpha, is_digit, has_char.
  change (py "-._~") with [45; 46; 95; 126]. cbn [existsb].
  change c_percent with 37.
  assert (E : forall b, b = false -> b = true -> False) by (intros; congruence).
  apply E. ntests; reflexivity.
Qed.

Lemma plain_clean e : plain e -> clean e.
Proof. intros He. apply (chars_clean _ _ He); reflexivity. Qed.

Lemma plain_lacks e x :
  plain e -> quoted_char (py "-._~") x = false -> has_char x e = false.
Proof. intros He. apply chars_lack. exact He. Qed.

Lemma plain_lstrip e : plain e -> lstrip_with c0_control_or_space e = e.
Proof.
  intros He. destruct He as [|c e Hc _]; [reflexivity|].
  cbn [lstrip_with]. rewrite (plain_above_space c Hc). reflexivity.
Qed.

Lemma plain_ascii e : plain e -> is_ascii e.
Proof.
  intros He. eapply Forall_impl; [exact He|]. intros c. cbv beta.
  unfold quoted_char, always_safe, is_ascii_alpha, is_digit, has_char.
  change (py "-._~") with [45; 46; 95; 126]. cbn [existsb].
  change c_percent with 37.
  destruct (N.ltb_spec c 128) as [Hlt|Hge]; [intros _; exact Hlt|].
  intros H. exfalso. revert H.
  assert (E : forall b, b = false -> b = true -> False) by (intros; congruence).
  apply E. ntests; reflexivity.
Qed.

Lemma split_scheme_no_colon u ds :
  has_char c_colon u = false -> split_scheme u ds = (ds, u).
Proof.
  intros Hu. unfold split_scheme.
  rewrite <- (app_nil_r u) at 1. rewrite break_at_app.
  - destruct u; reflexivity.
  - apply has_char_false_Forall. exact Hu.
  - left. reflexivity.
Qed.

Lemma take2_no_slash u :
  has_char c_slash u = false -> eqb_str (take 2 u) [c_slash; c_slash] = false.
Proof.
  intros Hu. apply eqb_str_false. destruct u as [|x u]; [discriminate|].
  rewrite has_char_cons in Hu. apply orb_false_iff in Hu as [Hx _].
  apply N.eqb_neq in Hx. destruct u; cbn [take]; congruence.
Qed.

Lemma startswith_has p s c :
  startswith p s = true -> In c p -> has_char c s = true.
Proof.
  revert s. induction p as [|a p IH]; intros s Hs Hc; [destruct Hc|].
  destruct s as [|b s]; [discriminate Hs|]. cbn [startswith] in Hs.
  apply andb_true_iff in Hs as [Hab Hs]. apply N.eqb_eq in Hab. subst b.
  rewrite has_char_cons. destruct Hc as [->|Hc].
  - rewrite N.eqb_refl. reflexivity.
  - rewrite (IH s Hs Hc). apply orb_true_r.
Qed.

(** A plain reference is neither absolute nor passed over. *)
Lemma plain_relative x e :
  plain (x :: e) -> non_fetchable (x :: e) = false /\ is_absolute (x :: e) = false.
Proof.
  intros He.
  assert (Hno : forall p c, In c p -> quoted_char (py "-._~") c = false ->
                            startswith p (x :: e) = false).
  { intros p c Hc Hq. apply not_true_is_false. intros Hs.
    pose proof (startswith_has p _ c Hs Hc) as Hh.
    rewrite (plain_lacks _ c He Hq) in Hh. discriminate Hh. }
  unfold non_fetchable, is_absolute, startswith_any. cbn [existsb].
  rewrite (bool_decide_eq_false_2 (x :: e = [])) by discriminate.
  rewrite (Hno (py "data:") c_colon), (Hno (py "javascript:") c_colon),
    (Hno (py "#") c_hash), (Hno (py "http://") c_colon),
    (Hno (py "https://") c_colon);
    try reflexivity; try (vm_compute; tauto).
Qed.

Section Join.

Variable nr : pystr -> bool.

(** A plain reference parses as a path and nothing else. *)
Lemma urlparse_plain e sc :
  sc = py "http" \/ sc = py "https" -> plain e ->
  urlparse nr e sc = Returns (mkParse sc [] e [] [] []).
Proof.
  intros Hsc He. unfold urlparse, urlsplit.
  rewrite (plain_lstrip e He), (remove_unsafe_id e (plain_clean e He)).
  assert (Hds : remove_unsafe
                  (rstrip_with c0_control_or_space
                     (lstrip_with c0_control_or_space sc)) = sc)
    by (destruct Hsc as [->| ->]; reflexivity).
  rewrite Hds.
  rewrite split_scheme_no_colon by (apply (plain_lacks e _ He); reflexivity).
  rewrite take2_no_slash by (apply (plain_lacks e _ He); reflexivity).
  rewrite bool_decide_eq_true_2 by reflexivity. cbn [negb andb].
  unfold split_once.
  rewrite !split_first_none by (apply (plain_lacks e _ He); reflexivity).
  cbn [scheme path].
  rewrite (plain_lacks e c_semi He) by reflexivity.
  rewrite andb_false_r. reflexivity.
Qed.

Lemma urlparse_empty : urlparse nr [] [] = Returns (mkParse [] [] [] [] [] []).
Proof. reflexivity. Qed.

(** Joining a plain reference puts it after the directory of the base. *)
Lemma urljoin_plain b rb x e :
  urlparse nr b [] = Returns rb ->
  scheme rb = py "http" \/ scheme rb = py "https" ->
  plain (x :: e) -> x :: e <> [c_dot] -> x :: e <> [c_dot; c_dot] ->
  urljoin nr b (x :: e)
  = Returns (urlunparse
               (mkParse (scheme rb) (netloc rb) (directory (path rb) ++ x :: e)
                        [] [] [])).
Proof.
  intros Hb Hsc He H1 H2.
  destruct b as [|b0 b'].
  { rewrite urlparse_empty in Hb. injection Hb as <-.
    destruct Hsc as [H|H]; discriminate H. }
  unfold urljoin. rewrite Hb, (urlparse_plain (x :: e) (scheme rb) Hsc He).
  cbn [scheme netloc path params query fragment].
  rewrite eqb_str_refl.
  assert (Hrel : uses_relative (scheme rb) = true)
    by (destruct Hsc as [->| ->]; reflexivity).
  assert (Hnet : uses_netloc (scheme rb) = true)
    by (destruct Hsc as [->| ->]; reflexivity).
  rewrite Hrel, Hnet. cbn [negb orb andb].
  rewrite (bool_decide_eq_true_2 ([] = [] :> pystr)) by reflexivity.
  cbn [negb].
  rewrite (bool_decide_eq_false_2 (x :: e = [])) by discriminate.
  cbn [andb].
  assert (Hx : x <> c_slash).
  { pose proof (plain_lacks _ c_slash He ltac:(reflexivity)) as Hs.
    rewrite has_char_cons in Hs. apply orb_false_iff in Hs as [Hs _].
    apply N.eqb_neq in Hs. congruence. }
  assert (Ht : eqb_str (take 1 (x :: e)) [c_slash] = false)
    by (apply eqb_str_false; cbn [take]; congruence).
  rewrite Ht.
  rewrite (split_all_no_sep c_slash (x :: e))
    by (apply (plain_lacks _ _ He); reflexivity).
  rewrite filter_middle_snoc.
  fold (directory_segments (path rb)).
  rewrite resolve_segments_snoc by assumption.
  rewrite last_snoc.
  rewrite (bool_decide_eq_false_2 (Some (x :: e) = Some [c_dot]))
    by congruence.
  rewrite (bool_decide_eq_false_2 (Some (x :: e) = Some [c_dot; c_dot]))
    by congruence.
  cbn [orb]. rewrite join_snoc. fold (directory (path rb)).
  rewrite bool_decide_eq_false_2; [reflexivity|].
  intros H. apply app_eq_nil in H as [_ H]. discriminate H.
Qed.

(** The path of a parse result is made of characters of the URL. *)
Lemma urlparse_path_Forall (P : N -> Prop) url r :
  urlparse nr url [] = Returns r -> Forall P url -> Forall P (path r).
Proof.
  intros Hr HP. unfold urlparse in Hr.
  destruct (urlsplit nr url []) as [r0|] eqn:Hs; [|discriminate].
  assert (H0 : Forall P (path r0)).
  { clear Hr. revert Hs. unfold urlsplit.
    set (U := remove_unsafe (lstrip_with c0_control_or_space url)).
    assert (HU : Forall P U)
      by (apply Forall_list_filter, Forall_lstrip_with, HP).
    destruct (split_scheme U _) as [sc U1] eqn:Hsc.
    assert (HU1 : Forall P U1).
    { revert Hsc. unfold split_scheme.
      destruct (break_at (N.eqb c_colon) U) as [pre rest] eqn:Hb.
      apply break_at_spec in Hb as (HUeq & _ & _).
      destruct pre as [|c0 pre]; [intros [= <- <-]; exact HU|].
      destruct rest as [|y rest]; [intros [= <- <-]; exact HU|].
      destruct (is_ascii_alpha c0 && forallb scheme_char (c0 :: pre));
        intros [= <- <-]; [|exact HU].
      rewrite HUeq in HU. apply Forall_app in HU as [_ HU].
      inversion HU; assumption. }
    destruct (if eqb_str (take 2 U1) [c_slash; c_slash] then splitnetloc U1
              else ([], U1)) as [nl U2] eqn:Hnl.
    assert (HU2 : Forall P U2).
    { destruct (eqb_str (take 2 U1) [c_slash; c_slash]).
      - unfold splitnetloc in Hnl. apply break_at_spec in Hnl as (Heq & _ & _).
        pose proof (Forall_drop P 2 U1 HU1) as Hd.
        rewrite Heq in Hd. apply Forall_app in Hd. tauto.
      - injection Hnl as <- <-. exact HU1. }
    destruct (negb (bool_decide (nl = [])) && nr nl);
      [intros Hx; discriminate Hx|].
    destruct (split_once c_hash U2) as [u1 fr] eqn:Hf.
    destruct (split_once c_quest u1) as [u2 q] eqn:Hq.
    intros [= <-]. cbn [path].
    apply split_once_spec in Hf as [_ Hf], Hq as [_ Hq].
    assert (Hu1 : Forall P u1).
    { destruct Hf as [[-> _] | ->]; [exact HU2|].
      apply Forall_app in HU2. tauto. }
    destruct Hq as [[-> _] | ->]; [exact Hu1|].
    apply Forall_app in Hu1. tauto. }
  destruct (uses_params (scheme r0) && has_char c_semi (path r0)).
  - destruct (splitparams (path r0)) as [p ps] eqn:Hsp.
    injection Hr as <-. cbn [path].
    apply splitparams_spec in Hsp as [[-> _]|[Heq _]]; [exact H0|].
    rewrite Heq in H0. apply Forall_app in H0. tauto.
  - injection Hr as <-. exact H0.
Qed.

Lemma urlunparse_root sc nl p :
  nl <> [] -> p <> [] ->
  urlunparse (mkParse sc nl p [] [] [])
  = urlunparse (mkParse sc nl (root p) [] [] []).
Proof.
  intros Hnl Hp. unfold urlunparse, urlunsplit.
  cbn [scheme netloc path params query fragment].
  rewrite !(bool_decide_eq_true_2 ([] = [] :> pystr)) by reflexivity.
  rewrite (bool_decide_eq_false_2 (nl = [])) by exact Hnl.
  cbn [negb orb].
  destruct p as [|y p]; [congruence|]. unfold root. cbn [startswith].
  rewrite andb_true_r.
  destruct (N.eqb_spec c_slash y) as [<-|Hy].
  - reflexivity.
  - rewrite (bool_decide_eq_false_2 (y :: p = [])) by discriminate.
    rewrite (bool_decide_eq_false_2 (c_slash :: y :: p = [])) by discriminate.
    assert (H1 : eqb_str (take 1 (y :: p)) [c_slash] = false)
      by (apply eqb_str_false; cbn [take]; congruence).
    assert (H2 : eqb_str (take 1 (c_slash :: y :: p)) [c_slash] = true)
      by (apply eqb_str_true; reflexivity).
    rewrite H1, H2. reflexivity.
Qed.

(** The URL that [urljoin] writes for a plain reference parses into the
    host of the base and the rooted directory followed by the reference. *)
Lemma urlparse_joined rb x e :
  well_split nr rb ->
  scheme rb = py "http" \/ scheme rb = py "https" ->
  netloc rb <> [] -> plain (x :: e) ->
  urlparse nr
    (urlunparse (mkParse (scheme rb) (netloc rb)
                         (directory (path rb) ++ x :: e) [] [] [])) []
  = Returns (mkParse (scheme rb) (netloc rb)
                     (root (directory (path rb)) ++ x :: e) [] [] []).
Proof.
  intros Hw Hsc Hnl He.
  assert (Hx : x <> c_slash).
  { pose proof (plain_lacks _ c_slash He ltac:(reflexivity)) as Hs.
    rewrite has_char_cons in Hs. apply orb_false_iff in Hs as [Hs _].
    apply N.eqb_neq in Hs. congruence. }
  rewrite urlunparse_root; [|exact Hnl|].
  2:{ intros H. apply app_eq_nil in H as [_ H]. discriminate H. }
  rewrite root_app by exact Hx.
  apply urlparse_urlunparse. destruct Hw.
  assert (Hdir : forall c, has_char c (path rb) = false -> c <> c_slash ->
                           quoted_char (py "-._~") c = false ->
                           has_char c (root (directory (path rb)) ++ x :: e) = false).
  { intros c Hc Hne Hq. rewrite has_char_app, (plain_lacks _ c He Hq).
    rewrite orb_false_r. apply has_char_false_Forall.
    apply root_Forall; [|apply N.eqb_neq; exact Hne].
    apply directory_Forall; [|apply N.eqb_neq; exact Hne].
    apply has_char_false_Forall. exact Hc. }
  constructor; cbn [scheme netloc path params query fragment];
    try assumption; try apply clean_nil; try (repeat split; reflexivity);
    try (apply Hdir; [assumption|discriminate|reflexivity]); auto.
  - apply clean_app. split; [|apply plain_clean; exact He].
    apply root_Forall; [|reflexivity].
    apply directory_Forall; [exact ws_path_clean0|reflexivity].
  - destruct (root_ends (path rb)) as (d & ->).
    rewrite last_segment_app by (apply (plain_lacks _ _ He); reflexivity).
    apply (plain_lacks _ _ He). reflexivity.
  - destruct (root_rooted (directory (path rb))) as (p' & ->).
    right. eexists. reflexivity.
Qed.

(** What the normaliser returns for a plain reference against an http(s)
    base with a host. *)
Lemma normalize_url_plain b rb x e :
  urlparse nr b [] = Returns rb ->
  scheme rb = py "http" \/ scheme rb = py "https" ->
  netloc rb <> [] ->
  plain (x :: e) -> x :: e <> [c_dot] -> x :: e <> [c_dot; c_dot] ->
  normalize_url nr (x :: e) (Some b)
  = match encode_path (root (directory (path rb)) ++ x :: e) with
    | Returns ep => urlunparse (mkParse (scheme rb) (netloc rb) ep [] [] [])
    | Raises => x :: e
    end.
Proof.
  intros Hb Hsc Hnl He H1 H2.
  destruct (plain_relative x e He) as [Hnf Hna].
  pose proof (urljoin_plain b rb x e Hb Hsc He H1 H2) as Hj.
  pose proof (urlparse_well_split nr b rb Hb) as Hw.
  unfold normalize_url, resolve. rewrite Hnf, Hna.
  destruct b as [|b0 b'].
  { rewrite urlparse_empty in Hb. injection Hb as <-.
    destruct Hsc as [H|H]; discriminate H. }
  rewrite Hj. unfold normalize_full.
  rewrite (urlparse_joined rb x e Hw Hsc Hnl He).
  cbn [scheme netloc path params query fragment encode_query].
  destruct (encode_path (root (directory (path rb)) ++ x :: e)); reflexivity.
Qed.

End Join.

(** The references of one segment.  Against a base that parses as an
    http or https URL with a host and has no lone surrogate, the
    doubly-encoded form of a segment, taken as a relative reference,
    normalises to the same URL as its singly-encoded form; here the base
    is any such URL and the join with it is followed through. *)
Theorem double_encoding_collapses
    (nr : pystr -> bool) (b : pystr) (rb : ParseResult) (bb : bytes)
    (seg e1 e2 : pystr) :
  urlparse nr b [] = Returns rb ->
  scheme rb = py "http" \/ scheme rb = py "https" ->
  netloc rb <> [] ->
  Utf8.encode b = Returns bb ->
  quote seg (py "-._~") = Returns e1 ->
  quote e1 (py "-._~") = Returns e2 ->
  normalize_url nr e2 (Some b) = normalize_url nr e1 (Some b).
Proof.
  intros Hb Hsc Hnl Hbb Hq1 Hq2.
  pose proof (unquote_quote _ _ _ safe_set_path Hq2) as Hu2.
  pose proof (quote_chars _ _ _ Hq1) as Hp1.
  pose proof (quote_chars _ _ _ Hq2) as Hp2.
  destruct e1 as [|x1 t1].
  { vm_compute in Hq2. injection Hq2 as <-. reflexivity. }
  destruct e2 as [|x2 t2]; [discriminate Hu2|].
  destruct (decide (x1 :: t1 = [c_dot])) as [E|N1].
  { rewrite E in Hq2 |- *. vm_compute in Hq2. injection Hq2 as <- <-.
    reflexivity. }
  destruct (decide (x1 :: t1 = [c_dot; c_dot])) as [E|N2].
  { rewrite E in Hq2 |- *. vm_compute in Hq2. injection Hq2 as <- <-.
    reflexivity. }
  assert (M1 : x2 :: t2 <> [c_dot]).
  { intros E. rewrite E in Hu2. vm_compute in Hu2. apply N1. symmetry.
    exact Hu2. }
  assert (M2 : x2 :: t2 <> [c_dot; c_dot]).
  { intros E. rewrite E in Hu2. vm_compute in Hu2. apply N2. symmetry.
    exact Hu2. }
  rewrite (normalize_url_plain nr b rb x2 t2 Hb Hsc Hnl Hp2 M1 M2).
  rewrite (normalize_url_plain nr b rb x1 t1 Hb Hsc Hnl Hp1 N1 N2).
  destruct (root_ends (path rb)) as (d & Hd). rewrite Hd.
  rewrite <- !app_assoc. cbn [app].
  rewrite (encode_path_last d (x1 :: t1) (x2 :: t2)).
  2:{ apply (plain_lacks _ _ Hp1). reflexivity. }
  2:{ apply (plain_lacks _ _ Hp2). reflexivity. }
  2:{ apply encode_part_quoted; [discriminate|exact Hq2]. }
  destruct (encode_path_returns (d ++ c_slash :: x1 :: t1)) as (ep & ->);
    [|reflexivity].
  change (d ++ c_slash :: x1 :: t1) with (d ++ [c_slash] ++ x1 :: t1).
  rewrite app_assoc, <- Hd. apply Forall_app. split.
  - apply root_Forall; [|left; reflexivity].
    apply directory_Forall; [|left; reflexivity].
    apply (urlparse_path_Forall nr scalar b rb Hb).
    apply encode_encodable. exists bb. exact Hbb.
  - apply ascii_encodable, plain_ascii, Hp1.
Qed.

Lemma double_encoding_collapses_witness :
  let nr := Examples.brackets_unpaired in
  let b := py "https://example.com/ads/index.html" in
  let rb := mkParse (py "https") (py "example.com") (py "/ads/index.html")
                    [] [] [] in
  (urlparse nr b [] = Returns rb
   /\ (scheme rb = py "http" \/ scheme rb = py "https")
   /\ netloc rb <> []
   /\ Utf8.encode b = Returns b
   /\ quote (py "foo bar.png") (py "-._~") = Returns (py "foo%20bar.png")
   /\ quote (py "foo%20bar.png") (py "-._~") = Returns (py "foo%2520bar.png"))
  /\ normalize_url nr (py "foo%2520bar.png") (Some b)
     = normalize_url nr (py "foo%20bar.png") (Some b).
Proof.
  intros nr b rb.
  assert (H1 : urlparse nr b [] = Returns rb) by reflexivity.
  assert (H2 : scheme rb = py "http" \/ scheme rb = py "https")
    by (right; reflexivity).
  assert (H3 : netloc rb <> []) by discriminate.
  assert (H4 : Utf8.encode b = Returns b) by reflexivity.
  assert (H5 : quote (py "foo bar.png") (py "-._~")
               = Returns (py "foo%20bar.png")) by reflexivity.
  assert (H6 : quote (py "foo%20bar.png") (py "-._~")
               = Returns (py "foo%2520bar.png")) by reflexivity.
  split; [tauto|].
  exact (double_encoding_collapses nr b rb b (py "foo bar.png")
           (py "foo%20bar.png") (py "foo%2520bar.png") H1 H2 H3 H4 H5 H6).
Defined.

(** The two references of the example and the URL they normalise to. *)
Example double_encoding_example :
  let b := Some (py "https://example.com/ads/index.html") in
  normalize_url Examples.brackets_unpaired (py "foo%2520bar.png") b
  = py "https://example.com/ads/foo%20bar.png"
  /\ normalize_url Examples.brackets_unpaired (py "foo%20bar.png") b
     = py "https://example.com/ads/foo%20bar.png".
Proof. split; reflexivity. Qed.

(** Without a base, and against a base that does not parse, both
    references are returned as they are. *)
Example double_encoding_needs_base :
  normalize_url Examples.brackets_unpaired (py "foo%2520bar.png") None
  = py "foo%2520bar.png"
  /\ normalize_url Examples.brackets_unpaired (py "foo%2520bar.png")
       (Some (py "http://[::1/x"))
     = py "foo%2520bar.png".
Proof. split; reflexivity. Qed.

End JoinProps.
(** ** Levels of percent-encoding *)

Module LevelProps.

Import Urllib UrlShapes Url.
Import QuoteProps EncodeProps SplitProps ParseProps ReparseProps NormalizeProps
       ScalarProps JoinProps.

(** One more level of encoding does not change what a segment encodes
    to. *)
Lemma encode_part_again p e : encoded_again p e -> encode_part e = encode_part p.
Proof.
  induction 1 as [p|p q e _ IH Hne Hq]; [reflexivity|].
  rewrite (encode_part_quoted q e Hne Hq). exact IH.
Qed.

Lemma encode_parts_again ps1 ps2 :
  Forall2 encoded_again ps1 ps2 -> encode_parts ps2 = encode_parts ps1.
Proof.
  induction 1 as [|p1 p2 ps1 ps2 Hp _ IH]; [reflexivity|].
  cbn [encode_parts]. rewrite (encode_part_again p1 p2 Hp), IH. reflexivity.
Qed.

(** What a segment is encoded to: the text it decodes to when it is
    decoded until nothing changes, quoted once. *)
Lemma encode_part_pinned p e :
  encode_part p = Returns e ->
  quote (decode_repeatedly p) (py "-._~") = Returns e
  /\ unquote e = decode_repeatedly p
  /\ unquote (unquote e) = unquote e
  /\ (forall raw, unquote raw = raw -> quote raw (py "-._~") = Returns p ->
                  e = p).
Proof.
  intros He.
  assert (Hq : quote (decode_repeatedly p) (py "-._~") = Returns e).
  { destruct p as [|c p]; [|exact He].
    cbn in He. injection He as <-. reflexivity. }
  pose proof (unquote_quote _ _ _ safe_set_path Hq) as Hu.
  split; [exact Hq|]. split; [exact Hu|].
  split; [rewrite Hu; apply decode_repeatedly_fixed|].
  intros raw Hraw Hp.
  pose proof (unquote_quote _ _ _ safe_set_path Hp) as Hup.
  rewrite (decode_repeatedly_step p raw Hup Hraw) in Hq. congruence.
Qed.

Lemma encode_parts_pinned ps : forall es,
  encode_parts ps = Returns es ->
  Forall2 (fun p e =>
             quote (decode_repeatedly p) (py "-._~") = Returns e
             /\ unquote e = decode_repeatedly p
             /\ unquote (unquote e) = unquote e
             /\ (forall raw, unquote raw = raw ->
                             quote raw (py "-._~") = Returns p -> e = p))
    ps es.
Proof.
  induction ps as [|p ps IH]; intros es; cbn [encode_parts].
  - intros [= <-]. constructor.
  - destruct (encode_part p) as [e|] eqn:He; [|discriminate].
    destruct (encode_parts ps) as [es'|]; [|discriminate].
    intros [= <-]. constructor; [apply encode_part_pinned, He|auto].
Qed.

Lemma encode_query_encodable nl q :
  encodable q -> exists e, encode_query nl q = Returns e.
Proof.
  intros Hq. unfold encode_query. destruct q as [|c q]; [eexists; reflexivity|].
  destruct (is_google_fonts nl); [eexists; reflexivity|].
  apply quote_encodable, unquote_encodable, Hq.
Qed.

(** C4.  Multi-level percent-encoding of a path segment collapses to one
    level.  Take two references, absolute or resolved against the same
    base, that read as URLs with the same scheme, host, parameters, query
    and fragment, and whose paths differ only in that segments of the
    second are segments of the first percent-encoded once more, any
    number of times, at any position.  Then both normalise to the same
    URL, and that URL is written from the components of the first with
    every path segment replaced by the text it decodes to (decoding until
    nothing changes) quoted once: decoding a segment of the result once
    gives a text that decodes no further, and a segment that is already
    the quoted form of such a text is kept as it is. *)
Theorem multi_level_encoding_collapses
    (nr : pystr -> bool) (u1 u2 : pystr) (b : option pystr)
    (F1 F2 : pystr) (r1 r2 : ParseResult) :
  non_fetchable u1 = false -> non_fetchable u2 = false ->
  resolve nr u1 b = Returns (Some F1) -> resolve nr u2 b = Returns (Some F2) ->
  urlparse nr F1 [] = Returns r1 -> urlparse nr F2 [] = Returns r2 ->
  scheme r2 = scheme r1 -> netloc r2 = netloc r1 -> params r2 = params r1 ->
  query r2 = query r1 -> fragment r2 = fragment r1 ->
  Forall2 encoded_again
    (split_all c_slash (path r1)) (split_all c_slash (path r2)) ->
  encodable (path r1) -> encodable (query r1) ->
  exists es eq,
    Forall2 (fun p e =>
               quote (decode_repeatedly p) (py "-._~") = Returns e
               /\ unquote e = decode_repeatedly p
               /\ unquote (unquote e) = unquote e
               /\ (forall raw, unquote raw = raw ->
                               quote raw (py "-._~") = Returns p -> e = p))
      (split_all c_slash (path r1)) es
    /\ encode_query (netloc r1) (query r1) = Returns eq
    /\ normalize_url nr u1 b
       = urlunparse (mkParse (scheme r1) (netloc r1) (join [c_slash] es)
                             (params r1) eq (fragment r1))
    /\ normalize_url nr u2 b = normalize_url nr u1 b.
Proof.
  intros Hn1 Hn2 HF1 HF2 Hr1 Hr2 Hsc Hnl Hpa Hq Hfr Hsegs Hp1 Hq1.
  destruct (encode_parts_returns (split_all c_slash (path r1))) as (es & Hes);
    [apply split_all_Forall; exact Hp1|].
  destruct (encode_query_encodable (netloc r1) (query r1) Hq1) as (eq & Heq).
  exists es, eq.
  split; [apply encode_parts_pinned, Hes|]. split; [exact Heq|].
  assert (H1 : normalize_url nr u1 b
               = urlunparse (mkParse (scheme r1) (netloc r1) (join [c_slash] es)
                                     (params r1) eq (fragment r1))).
  { unfold normalize_url. rewrite Hn1, HF1. unfold normalize_full.
    rewrite Hr1. unfold encode_path. rewrite Hes, Heq. reflexivity. }
  split; [exact H1|]. rewrite H1.
  unfold normalize_url. rewrite Hn2, HF2. unfold normalize_full.
  rewrite Hr2. unfold encode_path.
  rewrite (encode_parts_again _ _ Hsegs), Hes, Hnl, Hq, Heq, Hsc, Hpa, Hfr.
  reflexivity.
Qed.

Lemma multi_level_encoding_collapses_witness :
  let nr := Examples.brackets_unpaired in
  let b := Some (py "https://example.com/ads/index.html") in
  let u1 := py "img v1/foo%20bar.png?x=1#top" in
  let u2 := py "img%2520v1/foo%2520bar.png?x=1#top" in
  let F1 := py "https://example.com/ads/img v1/foo%20bar.png?x=1#top" in
  let F2 := py "https://example.com/ads/img%2520v1/foo%2520bar.png?x=1#top" in
  let r1 := mkParse (py "https") (py "example.com")
              (py "/ads/img v1/foo%20bar.png") [] (py "x=1") (py "top") in
  let r2 := mkParse (py "https") (py "example.com")
              (py "/ads/img%2520v1/foo%2520bar.png") [] (py "x=1") (py "top") in
  (non_fetchable u1 = false /\ non_fetchable u2 = false
   /\ resolve nr u1 b = Returns (Some F1) /\ resolve nr u2 b = Returns (Some F2)
   /\ urlparse nr F1 [] = Returns r1 /\ urlparse nr F2 [] = Returns r2
   /\ Forall2 encoded_again
        (split_all c_slash (path r1)) (split_all c_slash (path r2))
   /\ encodable (path r1) /\ encodable (query r1))
  /\ normalize_url nr u1 b
     = py "https://example.com/ads/img%20v1/foo%20bar.png?x=1#top"
  /\ exists es eq,
       Forall2 (fun p e =>
                  quote (decode_repeatedly p) (py "-._~") = Returns e
                  /\ unquote e = decode_repeatedly p
                  /\ unquote (unquote e) = unquote e
                  /\ (forall raw, unquote raw = raw ->
                                  quote raw (py "-._~") = Returns p -> e = p))
         (split_all c_slash (path r1)) es
       /\ encode_query (netloc r1) (query r1) = Returns eq
       /\ normalize_url nr u1 b
          = urlunparse (mkParse (scheme r1) (netloc r1) (join [c_slash] es)
                                (params r1) eq (fragment r1))
       /\ normalize_url nr u2 b = normalize_url nr u1 b.
Proof.
  intros nr b u1 u2 F1 F2 r1 r2.
  assert (H1 : non_fetchable u1 = false) by reflexivity.
  assert (H2 : non_fetchable u2 = false) by reflexivity.
  assert (H3 : resolve nr u1 b = Returns (Some F1)) by (vm_compute; reflexivity).
  assert (H4 : resolve nr u2 b = Returns (Some F2)) by (vm_compute; reflexivity).
  assert (H5 : urlparse nr F1 [] = Returns r1) by (vm_compute; reflexivity).
  assert (H6 : urlparse nr F2 [] = Returns r2) by (vm_compute; reflexivity).
  assert (H7 : Forall2 encoded_again
                 (split_all c_slash (path r1)) (split_all c_slash (path r2))).
  { change (split_all c_slash (path r1))
      with [[]; py "ads"; py "img v1"; py "foo%20bar.png"].
    change (split_all c_slash (path r2))
      with [[]; py "ads"; py "img%2520v1"; py "foo%2520bar.png"].
    constructor; [apply encoded_same|].
    constructor; [apply encoded_same|].
    constructor.
    { apply (encoded_more _ (py "img%20v1"));
        [apply (encoded_more _ (py "img v1"));
           [apply encoded_same|discriminate|reflexivity]
        |discriminate|reflexivity]. }
    constructor; [|constructor].
    apply (encoded_more _ (py "foo%20bar.png"));
      [apply encoded_same|discriminate|reflexivity]. }
  assert (H8 : encodable (path r1)).
  { apply ascii_encodable. unfold is_ascii. cbn. repeat constructor. }
  assert (H9 : encodable (query r1)).
  { apply ascii_encodable. unfold is_ascii. cbn. repeat constructor. }
  split; [tauto|]. split; [vm_compute; reflexivity|].
  exact (multi_level_encoding_collapses nr u1 u2 b F1 F2 r1 r2 H1 H2 H3 H4 H5 H6
           eq_refl eq_refl eq_refl eq_refl eq_refl H7 H8 H9).
Defined.

(** Three levels in an inner segment of an absolute URL, and the forms
    with one level and with none. *)
Example three_levels_collapse :
  let nr := Examples.brackets_unpaired in
  let canonical := py "https://example.com/a%20b/c.png" in
  normalize_url nr (py "https://example.com/a%252520b/c.png") None = canonical
  /\ normalize_url nr (py "https://example.com/a%20b/c.png") None = canonical
  /\ normalize_url nr (py "https://example.com/a b/c.png") None = canonical.
Proof. vm_compute. repeat split. Qed.

End LevelProps.
